(** * Scan -> Report -> Fix pipeline of the accessibility and SEO plugins

    A shallow embedding of the JavaScript sources:
    - [generate-report.js] (SEO aggregator): sorting and ID assignment, the
      summary and the markdown report;
    - [scan-images.js] (accessibility image scanner), with the walk of the
      source tree;
    - [apply-images-fix.js] and [apply-semantics-fix.js] (fix handlers of
      the accessibility plugin);
    - [apply-heading-fix.js] and [apply-image-fix.js] (fix handlers of the
      SEO plugin);
    - the two [apply-fix.js] orchestrators (SEO and accessibility).

    JavaScript strings are modelled as [string], one character for each
    code unit; the classes of characters (white space, digits, word
    characters) and the change of case are those of ASCII, so the model is
    that of the scripts on ASCII text.  Regular expressions are modelled by
    a small backtracking matcher with the JavaScript priorities, the
    filesystem by a finite map from paths to contents together with the log
    of the writes performed. *)

From Stdlib Require Import Ascii String ZArith Lia Bool.
From Stdlib Require Import DecimalString Decimal DecimalNat DecimalFacts Sorted.
From stdpp Require Import gmap strings list.

Local Open Scope Z_scope.
Local Open Scope nat_scope.

(** ** JavaScript string primitives *)

Module Js.

(** [s.length] *)
Definition len (s : string) : nat := String.length s.

(** [s.slice(n)] for [0 <= n] *)
Fixpoint drop (n : nat) (s : string) : string :=
  match n, s with
  | 0, _ => s
  | S n', String _ s' => drop n' s'
  | S _, EmptyString => EmptyString
  end.

(** [s.slice(0, n)] for [0 <= n] *)
Fixpoint take (n : nat) (s : string) : string :=
  match n, s with
  | 0, _ => EmptyString
  | S n', String c s' => String c (take n' s')
  | S _, EmptyString => EmptyString
  end.

(** [s.substring(a, b)]: negative arguments are clamped to [0], and the
    two arguments are swapped when the first is the larger one. *)
Definition substring (a b : Z) (s : string) : string :=
  let a' := Z.to_nat (Z.max 0 a) in
  let b' := Z.to_nat (Z.max 0 b) in
  let lo := Nat.min a' b' in
  let hi := Nat.max a' b' in
  take (hi - lo) (drop lo s).

(** [s.startsWith(p)] *)
Fixpoint starts_with (p s : string) : bool :=
  match p, s with
  | EmptyString, _ => true
  | String a p', String b s' => if Ascii.eqb a b then starts_with p' s' else false
  | String _ _, EmptyString => false
  end.

(** [s.includes(p)] *)
Fixpoint includes (p s : string) : bool :=
  starts_with p s ||
  match s with
  | EmptyString => false
  | String _ s' => includes p s'
  end.

(** position of the first [c] in [s], counted from [pos] *)
Fixpoint find_char (c : ascii) (pos : nat) (s : string) : Z :=
  match s with
  | EmptyString => (-1)%Z
  | String b s' => if Ascii.eqb b c then Z.of_nat pos else find_char c (S pos) s'
  end.

(** [s.indexOf(c, from)] for a one-character needle; [-1] when absent *)
Definition indexOf (c : ascii) (from : nat) (s : string) : Z :=
  find_char c from (drop from s).

(** position of the first occurrence of [p] in [s], counted from [pos] *)
Fixpoint find_str (p : string) (pos : nat) (s : string) : Z :=
  if starts_with p s then Z.of_nat pos
  else match s with
       | EmptyString => (-1)%Z
       | String _ s' => find_str p (S pos) s'
       end.

(** [s.indexOf(p)] for a string needle *)
Definition indexOf_str (p s : string) : Z := find_str p 0 s.

(** position of the last [c] among the first [n] characters of [s] *)
Fixpoint find_last_char (c : ascii) (pos n : nat) (s : string) (acc : Z) : Z :=
  match n, s with
  | S n', String b s' =>
      find_last_char c (S pos) n' s' (if Ascii.eqb b c then Z.of_nat pos else acc)
  | _, _ => acc
  end.

(** [s.lastIndexOf(c, from)] for a one-character needle *)
Definition lastIndexOf (c : ascii) (from : nat) (s : string) : Z :=
  find_last_char c 0 (S from) s (-1)%Z.

Definition nl : ascii := "010"%char.

(** the double quote character, and a text between double quotes *)
Definition dq : ascii := "034"%char.
Definition quoted (s : string) : string := String dq s +:+ String dq EmptyString.

(** [s.split('\n')] *)
Fixpoint split_nl (s : string) : list string :=
  match s with
  | EmptyString => [EmptyString]
  | String c s' =>
      if Ascii.eqb c nl then EmptyString :: split_nl s'
      else match split_nl s' with
           | [] => [String c EmptyString]
           | l :: ls => String c l :: ls
           end
  end.

(** [lines.join('\n')] *)
Fixpoint join_nl (ls : list string) : string :=
  match ls with
  | [] => EmptyString
  | [l] => l
  | l :: ls' => l +:+ String nl (join_nl ls')
  end.

Definition upper (c : ascii) : ascii :=
  let n := nat_of_ascii c in
  if (97 <=? n) && (n <=? 122) then ascii_of_nat (n - 32) else c.

Definition lower (c : ascii) : ascii :=
  let n := nat_of_ascii c in
  if (65 <=? n) && (n <=? 90) then ascii_of_nat (n + 32) else c.

Fixpoint map_chars (f : ascii -> ascii) (s : string) : string :=
  match s with
  | EmptyString => EmptyString
  | String c s' => String (f c) (map_chars f s')
  end.

(** [s.toUpperCase()], [s.toLowerCase()] on the ASCII letters *)
Definition toUpperCase : string -> string := map_chars upper.
Definition toLowerCase : string -> string := map_chars lower.

(** [String(n)] for a non-negative integer *)
Definition of_nat (n : nat) : string := NilZero.string_of_uint (Nat.to_uint n).

Fixpoint repeat_char (c : ascii) (n : nat) : string :=
  match n with
  | 0 => EmptyString
  | S n' => String c (repeat_char c n')
  end.

(** [s.padStart(w, c)] *)
Definition padStart (w : nat) (c : ascii) (s : string) : string :=
  repeat_char c (w - len s) +:+ s.

Definition is_ws (c : ascii) : bool :=
  let n := nat_of_ascii c in
  ((9 <=? n) && (n <=? 13)) || (n =? 32).

Definition is_digit (c : ascii) : bool :=
  let n := nat_of_ascii c in (48 <=? n) && (n <=? 57).

Definition is_word (c : ascii) : bool :=
  let n := nat_of_ascii c in
  ((48 <=? n) && (n <=? 57)) || ((65 <=? n) && (n <=? 90)) ||
  ((97 <=? n) && (n <=? 122)) || (n =? 95).

Fixpoint trim_start (s : string) : string :=
  match s with
  | String c s' => if is_ws c then trim_start s' else s
  | EmptyString => EmptyString
  end.

(** drops the trailing white space: [None] when [s] is all white space *)
Fixpoint trim_end_aux (s : string) : option string :=
  match s with
  | EmptyString => None
  | String c s' =>
      match trim_end_aux s' with
      | Some t => Some (String c t)
      | None => if is_ws c then None else Some (String c EmptyString)
      end
  end.

(** [s.trim()] *)
Definition trim (s : string) : string :=
  match trim_end_aux (trim_start s) with Some t => t | None => EmptyString end.

End Js.

(** ** Regular expressions

    The fragment of JavaScript regular expressions the sources use:
    character classes, concatenation, ordered alternation, greedy and lazy
    repetition of a character class, capture groups, the word boundary and
    the two anchors.  Matching is by backtracking with a continuation, in
    the priority order of the JavaScript engine. *)

Module Rx.

Inductive regex : Type :=
| Eps
| Chr (p : ascii -> bool)
| Seq (r1 r2 : regex)
| Alt (r1 r2 : regex)
| Star (p : ascii -> bool)
| LazyStar (p : ascii -> bool)
| Group (n : nat) (r : regex)
| WordB
| Bol
| Eol.

(** matcher state: the character before the current position, the
    position, and the rest of the subject *)
Record mstate : Type := MState { m_prev : option ascii; m_pos : nat; m_rest : string }.

(** capture groups, as end-exclusive position intervals *)
Definition caps : Type := list (nat * (nat * nat)).

Definition is_word_opt (o : option ascii) : bool :=
  match o with Some c => Js.is_word c | None => false end.

Definition head (s : string) : option ascii :=
  match s with String c _ => Some c | EmptyString => None end.

Section Matcher.
Context {R : Type}.

Fixpoint star_greedy (p : ascii -> bool) (k : mstate -> option R)
    (prev : option ascii) (pos : nat) (s : string) {struct s} : option R :=
  match s with
  | String c s' =>
      if p c then
        match star_greedy p k (Some c) (S pos) s' with
        | Some x => Some x
        | None => k (MState prev pos s)
        end
      else k (MState prev pos s)
  | EmptyString => k (MState prev pos s)
  end.

Fixpoint star_lazy (p : ascii -> bool) (k : mstate -> option R)
    (prev : option ascii) (pos : nat) (s : string) {struct s} : option R :=
  match k (MState prev pos s) with
  | Some x => Some x
  | None =>
      match s with
      | String c s' => if p c then star_lazy p k (Some c) (S pos) s' else None
      | EmptyString => None
      end
  end.

Fixpoint rmatch (r : regex) (st : mstate) (cs : caps)
    (k : mstate -> caps -> option R) {struct r} : option R :=
  match r with
  | Eps => k st cs
  | Chr p =>
      match m_rest st with
      | String c s' => if p c then k (MState (Some c) (S (m_pos st)) s') cs else None
      | EmptyString => None
      end
  | Seq r1 r2 => rmatch r1 st cs (fun st' cs' => rmatch r2 st' cs' k)
  | Alt r1 r2 =>
      match rmatch r1 st cs k with
      | Some x => Some x
      | None => rmatch r2 st cs k
      end
  | Star p => star_greedy p (fun st' => k st' cs) (m_prev st) (m_pos st) (m_rest st)
  | LazyStar p => star_lazy p (fun st' => k st' cs) (m_prev st) (m_pos st) (m_rest st)
  | Group n r' =>
      rmatch r' st cs (fun st' cs' => k st' ((n, (m_pos st, m_pos st')) :: cs'))
  | WordB =>
      if xorb (is_word_opt (m_prev st)) (is_word_opt (head (m_rest st)))
      then k st cs else None
  | Bol => if m_pos st =? 0 then k st cs else None
  | Eol => match m_rest st with EmptyString => k st cs | _ => None end
  end.
End Matcher.

(** a successful match: start, end and groups *)
Record rmatch_result : Type :=
  MatchResult { index : nat; stop : nat; groups : caps }.

Definition match_here (r : regex) (prev : option ascii) (pos : nat) (s : string)
    : option rmatch_result :=
  rmatch r (MState prev pos s) [] (fun st cs => Some (MatchResult pos (m_pos st) cs)).

(** leftmost match at or after the current position *)
Fixpoint search (r : regex) (prev : option ascii) (pos : nat) (s : string)
    {struct s} : option rmatch_result :=
  match match_here r prev pos s with
  | Some m => Some m
  | None =>
      match s with
      | String c s' => search r (Some c) (S pos) s'
      | EmptyString => None
      end
  end.

(** [re.exec(s)] for a regex without the [g] flag *)
Definition exec (r : regex) (s : string) : option rmatch_result := search r None 0 s.

(** [re.test(s)] *)
Definition test (r : regex) (s : string) : bool :=
  match exec r s with Some _ => true | None => false end.

(** [m[0]] *)
Definition matched (s : string) (m : rmatch_result) : string :=
  Js.take (stop m - index m) (Js.drop (index m) s).

Fixpoint lookup_group (n : nat) (cs : caps) : option (nat * nat) :=
  match cs with
  | [] => None
  | (g, iv) :: cs' => if g =? n then Some iv else lookup_group n cs'
  end.

(** [m[n]]; [None] is JavaScript's [undefined] *)
Definition group (s : string) (m : rmatch_result) (n : nat) : option string :=
  match lookup_group n (groups m) with
  | Some (a, b) => Some (Js.take (b - a) (Js.drop a s))
  | None => None
  end.

(** [s.replace(re, f(m))] for a regex without the [g] flag *)
Definition replace_first (r : regex) (repl : rmatch_result -> string) (s : string) : string :=
  match exec r s with
  | Some m => Js.take (index m) s +:+ repl m +:+ Js.drop (stop m) s
  | None => s
  end.

(** all the matches of a regex with the [g] flag, as the
    [while ((m = re.exec(s)) !== null)] loop sees them: the search resumes
    at the end of the previous match.  The patterns of the sources match no
    empty text; on an empty match, where the JavaScript loop would stay in
    place, the function steps one character further. *)
Fixpoint exec_all_from (fuel : nat) (r : regex) (prev : option ascii) (pos : nat)
    (s : string) : list rmatch_result :=
  match fuel with
  | 0 => []
  | S fuel' =>
      match search r prev pos s with
      | None => []
      | Some m =>
          let adv := if stop m =? index m then S (stop m - pos) else stop m - pos in
          let rest := Js.drop adv s in
          let prev' :=
            match adv with
            | 0 => prev
            | S a => head (Js.drop a s)
            end in
          if Js.len s <? adv then [m]
          else m :: exec_all_from fuel' r prev' (pos + adv) rest
      end
  end.

Definition exec_all (r : regex) (s : string) : list rmatch_result :=
  exec_all_from (S (Js.len s)) r None 0 s.

(** literals and common classes *)
Definition is_char (c : ascii) : ascii -> bool := Ascii.eqb c.
Definition is_char_ci (c : ascii) : ascii -> bool :=
  fun d => Ascii.eqb (Js.upper c) (Js.upper d).
Definition not_in (cs : string) : ascii -> bool :=
  fun d => negb (Js.includes (String d EmptyString) cs).
Definition one_of (cs : string) : ascii -> bool :=
  fun d => Js.includes (String d EmptyString) cs.

Fixpoint lit (s : string) : regex :=
  match s with
  | EmptyString => Eps
  | String c EmptyString => Chr (is_char c)
  | String c s' => Seq (Chr (is_char c)) (lit s')
  end.

Fixpoint lit_ci (s : string) : regex :=
  match s with
  | EmptyString => Eps
  | String c EmptyString => Chr (is_char_ci c)
  | String c s' => Seq (Chr (is_char_ci c)) (lit_ci s')
  end.

Definition plus (p : ascii -> bool) : regex := Seq (Chr p) (Star p).
Definition opt (r : regex) : regex := Alt r Eps.

Fixpoint seqs (rs : list regex) : regex :=
  match rs with
  | [] => Eps
  | [r] => r
  | r :: rs' => Seq r (seqs rs')
  end.

Fixpoint alts (rs : list regex) : regex :=
  match rs with
  | [] => Eps
  | [r] => r
  | r :: rs' => Alt r (alts rs')
  end.

End Rx.

(** ** Data model *)

Inductive Severity : Type := critical | high | medium | low.

#[global] Instance Severity_eq_dec : EqDecision Severity.
Proof. solve_decision. Defined.

(** A finding.  [id] is absent until the aggregator assigns it; [line] is a
    number, [0] standing for a falsy line. *)
Record Issue : Type := mkIssue {
  id : option string;
  severity : Severity;
  category : string;
  file : string;
  line : nat;
  problem : string;
  impact : string;
  recommendedFix : string;
  autoFixPossible : bool;
  wcag : option (string * string);
  framework : option string
}.

(** ** The aggregator: [generate-report.js] *)

Module Report.

Definition CATEGORIES : list string :=
  ["rendering"; "title"; "meta-description"; "headings"; "semantic-html";
   "url-structure"; "images"; "internal-links"; "gtm"]%string.

(** [const SEVERITY_ORDER = { critical: 0, high: 1, medium: 2, low: 3 }] *)
Definition SEVERITY_ORDER (s : Severity) : Z :=
  match s with
  | critical => 0
  | high => 1
  | medium => 2
  | low => 3
  end%Z.

(** [xs.indexOf(x)], [-1] when absent *)
Fixpoint indexOf_from (x : string) (xs : list string) (i : Z) : Z :=
  match xs with
  | [] => (-1)%Z
  | y :: ys => if String.eqb y x then i else indexOf_from x ys (i + 1)%Z
  end.

Definition indexOf (xs : list string) (x : string) : Z := indexOf_from x xs 0%Z.

(** [n || d] on numbers: [0] is falsy *)
Definition or_num (n d : Z) : Z := if (n =? 0)%Z then d else n.

(** the comparator passed to [allIssues.sort] *)
Definition compare (a b : Issue) : Z :=
  let catA := indexOf CATEGORIES (category a) in
  let catB := indexOf CATEGORIES (category b) in
  if negb (catA =? catB)%Z then (catA - catB)%Z
  else (or_num (SEVERITY_ORDER (severity a)) 3 - or_num (SEVERITY_ORDER (severity b)) 3)%Z.

(** [Array.prototype.sort] is stable; with a comparator that orders by a
    key every stable sort returns the same array, here by insertion. *)
Fixpoint insert (cmp : Issue -> Issue -> Z) (x : Issue) (l : list Issue) : list Issue :=
  match l with
  | [] => [x]
  | y :: l' => if (cmp x y <=? 0)%Z then x :: y :: l' else y :: insert cmp x l'
  end.

Fixpoint sort (cmp : Issue -> Issue -> Z) (l : list Issue) : list Issue :=
  match l with
  | [] => []
  | x :: l' => insert cmp x (sort cmp l')
  end.

(** [`SEO-${String(i + 1).padStart(3, '0')}`] *)
Definition make_id (i : nat) : string :=
  "SEO-" +:+ Js.padStart 3 "0"%char (Js.of_nat (i + 1)).

(** [{ id: ..., ...issue }]: a property [id] the issue already has
    overrides the assigned one *)
Definition with_id (i : nat) (issue : Issue) : Issue :=
  mkIssue (match id issue with Some own => Some own | None => Some (make_id i) end)
    (severity issue) (category issue) (file issue) (line issue) (problem issue)
    (impact issue) (recommendedFix issue) (autoFixPossible issue) (wcag issue)
    (framework issue).

Fixpoint assign_ids (i : nat) (l : list Issue) : list Issue :=
  match l with
  | [] => []
  | x :: l' => with_id i x :: assign_ids (S i) l'
  end.

(** [{ ...issue, framework: issue.framework || framework }] *)
Definition with_framework (fw : string) (issue : Issue) : Issue :=
  mkIssue (id issue) (severity issue) (category issue) (file issue) (line issue)
    (problem issue) (impact issue) (recommendedFix issue) (autoFixPossible issue)
    (wcag issue)
    (match framework issue with
     | Some f => if String.eqb f EmptyString then Some fw else Some f
     | None => Some fw
     end).

(** the [issues] array of the report [generateReport] builds *)
Definition generateReport_issues (fw : string) (allIssues : list Issue) : list Issue :=
  assign_ids 0 (sort compare (map (with_framework fw) allIssues)).

End Report.

(** ** The filesystem and what a run does to it *)

Inductive Event : Type :=
| Write (path content : string)          (* [fs.writeFileSync(path, content)] *)
| Spawn (script : string) (issue : Issue). (* [execSync(`node script issue root`)] *)

Record World : Type := mkWorld {
  files : gmap string string;
  log : list Event
}.

(** [fs.writeFileSync(path, content)]; the write is taken to succeed: a
    path that cannot be written is outside the model *)
Definition writeFileSync (path content : string) (w : World) : World :=
  mkWorld (<[path := content]> (files w)) (log w ++ [Write path content]).

(** the [{ success, action?, reason? }] object a handler prints *)
Record Result : Type := mkResult {
  success : bool;
  action : option string;
  reason : option string
}.

Definition failure (why : string) : Result := mkResult false None (Some why).
Definition fixed_with (what : string) : Result := mkResult true (Some what) None.

(** [issue.line ? issue.line - 1 : -1] *)
Definition line_index (issue : Issue) : Z :=
  if line issue =? 0 then (-1)%Z else (Z.of_nat (line issue) - 1)%Z.

(** [lineIdx < 0 || lineIdx >= lines.length] *)
Definition out_of_range (lineIdx : Z) (lines : list string) : bool :=
  (lineIdx <? 0)%Z || (Z.of_nat (length lines) <=? lineIdx)%Z.

(** [lines[i]] as a string subject: an absent element reads [undefined] *)
Definition line_at (lines : list string) (i : nat) : string :=
  match lines !! i with Some l => l | None => "undefined" end.

(** ** The image fix handler: [apply-images-fix.js] *)

Module ImagesFix.

(** [/icon|decorat|separator|divider|spacer|background|bg-|ornament/i] *)
Definition DECORATIVE_HINTS : Rx.regex :=
  Rx.alts (map Rx.lit_ci
    ["icon"; "decorat"; "separator"; "divider"; "spacer"; "background"; "bg-";
     "ornament"]).

(** [/<img\s/i] *)
Definition re_img : Rx.regex := Rx.Seq (Rx.lit_ci "<img") (Rx.Chr Js.is_ws).

(** [/<Image\s/] *)
Definition re_Image : Rx.regex := Rx.Seq (Rx.lit "<Image") (Rx.Chr Js.is_ws).

(** [/\balt\s*=/] *)
Definition re_alt : Rx.regex :=
  Rx.seqs [Rx.WordB; Rx.lit "alt"; Rx.Star Js.is_ws; Rx.Chr (Rx.is_char "=")].

(** the class of the two quote characters, written Q below, and its
    complement *)
Definition quote : ascii -> bool := Rx.one_of (String Js.dq "'").
Definition not_quote : ascii -> bool := Rx.not_in (String Js.dq "'").

(** [/\bsrc\s*=\s*Q([^Q]+)Q/] *)
Definition re_src : Rx.regex :=
  Rx.seqs [Rx.WordB; Rx.lit "src"; Rx.Star Js.is_ws; Rx.Chr (Rx.is_char "=");
           Rx.Star Js.is_ws; Rx.Chr quote; Rx.Group 1 (Rx.plus not_quote);
           Rx.Chr quote].

(** [/\b(class|className)\s*=\s*Q([^Q]+)Q/] *)
Definition re_class : Rx.regex :=
  Rx.seqs [Rx.WordB; Rx.Group 1 (Rx.Alt (Rx.lit "class") (Rx.lit "className"));
           Rx.Star Js.is_ws; Rx.Chr (Rx.is_char "="); Rx.Star Js.is_ws;
           Rx.Chr quote; Rx.Group 2 (Rx.plus not_quote); Rx.Chr quote].

(** [m && DECORATIVE_HINTS.test(m[n])] *)
Definition hinted (s : string) (m : option Rx.rmatch_result) (n : nat) : bool :=
  match m with
  | Some r =>
      match Rx.group s r n with
      | Some g => Rx.test DECORATIVE_HINTS g
      | None => Rx.test DECORATIVE_HINTS "undefined"
      end
  | None => false
  end.

(** the decorative heuristic shared by the scanner and the handler *)
Definition looks_decorative (attrs : string) : bool :=
  hinted attrs (Rx.exec re_src attrs) 1 || hinted attrs (Rx.exec re_class attrs) 2.

Section Handler.
Variable path_join : string -> string -> string.
Variable projectRoot : string.
Variable issue : Issue.

Definition fixImgAlt (filePath content : string) (lines : list string)
    (lineIdx : nat) (isDecorative : bool) (w : World) : Result * World :=
  let ln := line_at lines lineIdx in
  match Rx.exec re_img ln with
  | None => (failure "Could not find <img> on target line.", w)
  | Some imgMatch =>
      let tagStart := Rx.index imgMatch in
      let tagEnd := Js.indexOf ">" tagStart ln in
      let tag := Js.substring (Z.of_nat tagStart) (tagEnd + 1)%Z ln in
      if Rx.test re_alt tag then
        (failure "Image already has an alt attribute.", w)
      else
        let altValue :=
          if isDecorative then EmptyString
          else if looks_decorative tag then EmptyString
               else "TODO: describe image" in
        let insertPos := Rx.index imgMatch + Js.len (Rx.matched ln imgMatch) in
        let lines' :=
          <[lineIdx := Js.take insertPos ln +:+ ("alt=" +:+ Js.quoted altValue +:+ " ")
                         +:+ Js.drop insertPos ln]> lines in
        let w1 := writeFileSync (filePath +:+ ".bak") content w in
        let w2 := writeFileSync filePath (Js.join_nl lines') w1 in
        let desc :=
          if String.eqb altValue EmptyString then
            "Added alt=" +:+ Js.quoted EmptyString +:+ " (decorative) to <img> in "
              +:+ file issue +:+ " line " +:+ Js.of_nat (line issue) +:+ "."
          else
            "Added alt=" +:+ Js.quoted "TODO: describe image" +:+ " to <img> in "
              +:+ file issue +:+ " line " +:+ Js.of_nat (line issue)
              +:+ ". Please update." in
        (fixed_with desc, w2)
  end.

Definition fixNextImageAlt (filePath content : string) (lines : list string)
    (lineIdx : nat) (w : World) : Result * World :=
  let ln := line_at lines lineIdx in
  match Rx.exec re_Image ln with
  | None => (failure "Could not find <Image> on target line.", w)
  | Some imgMatch =>
      let tagStart := Rx.index imgMatch in
      let tagEnd := Js.indexOf ">" tagStart ln in
      let tag :=
        if (-1 <? tagEnd)%Z
        then Js.substring (Z.of_nat tagStart) (tagEnd + 1)%Z ln else EmptyString in
      if Rx.test re_alt tag || Rx.test re_alt ln then
        (failure "Image component already has an alt attribute.", w)
      else
        let insertPos := Rx.index imgMatch + Js.len (Rx.matched ln imgMatch) in
        let lines' :=
          <[lineIdx := Js.take insertPos ln
                         +:+ ("alt=" +:+ Js.quoted "TODO: describe image" +:+ " ")
                         +:+ Js.drop insertPos ln]> lines in
        let w1 := writeFileSync (filePath +:+ ".bak") content w in
        let w2 := writeFileSync filePath (Js.join_nl lines') w1 in
        (fixed_with ("Added alt=" +:+ Js.quoted "TODO: describe image"
                       +:+ " to <Image> in " +:+ file issue +:+ " line " +:+ Js.of_nat (line issue)
                       +:+ ". Please update."), w2)
  end.

Definition applyFix (w : World) : Result * World :=
  let filePath := path_join projectRoot (file issue) in
  match files w !! filePath with
  | None => (failure ("File not found: " +:+ file issue), w)
  | Some content =>
      let lines := Js.split_nl content in
      let lineIdx := line_index issue in
      let problem := problem issue in
      if out_of_range lineIdx lines then
        (failure "Could not locate the issue line.", w)
      else if Js.includes "decorative" problem && Js.includes "missing alt" problem then
        fixImgAlt filePath content lines (Z.to_nat lineIdx) true w
      else if Js.includes "<img>" problem && Js.includes "missing alt" problem then
        fixImgAlt filePath content lines (Z.to_nat lineIdx) false w
      else if Js.includes "Image component missing alt" problem then
        fixNextImageAlt filePath content lines (Z.to_nat lineIdx) w
      else (failure "This image issue requires manual review.", w)
  end.
End Handler.

End ImagesFix.

(** ** The semantics fix handler: [apply-semantics-fix.js] *)

Module SemanticsFix.

(** [/<(div|span)\s/] *)
Definition re_div_span : Rx.regex :=
  Rx.seqs [Rx.Chr (Rx.is_char "<"); Rx.Group 1 (Rx.Alt (Rx.lit "div") (Rx.lit "span"));
           Rx.Chr Js.is_ws].

(** [/<(a|button|input|select|textarea)\s/i] *)
Definition re_interactive : Rx.regex :=
  Rx.seqs [Rx.Chr (Rx.is_char_ci "<");
           Rx.Group 1 (Rx.alts (map Rx.lit_ci ["a"; "button"; "input"; "select"; "textarea"]));
           Rx.Chr Js.is_ws].

(** [/\bhref\s*=/] *)
Definition re_href : Rx.regex :=
  Rx.seqs [Rx.WordB; Rx.lit "href"; Rx.Star Js.is_ws; Rx.Chr (Rx.is_char "=")].

(** [/tabindex\s*=/] *)
Definition re_tabindex : Rx.regex :=
  Rx.seqs [Rx.lit "tabindex"; Rx.Star Js.is_ws; Rx.Chr (Rx.is_char "=")].

(** [new RegExp(`<${origTag}(\\s)`)] *)
Definition re_open (origTag : string) : Rx.regex :=
  Rx.seqs [Rx.Chr (Rx.is_char "<"); Rx.lit origTag; Rx.Group 1 (Rx.Chr Js.is_ws)].

(** [new RegExp(`</${origTag}>`)] *)
Definition re_close (origTag : string) : Rx.regex :=
  Rx.lit ("</" +:+ origTag +:+ ">").

(** [line.replace(new RegExp(`<${origTag}(\\s)`), '<button type="button"$1')] *)
Definition replace_open (origTag ln : string) : string :=
  Rx.replace_first (re_open origTag)
    (fun m => "<button type=" +:+ Js.quoted "button" +:+
              match Rx.group ln m 1 with Some g => g | None => EmptyString end) ln.

(** [s.replace(closePattern, '</button>')] *)
Definition replace_close (origTag s : string) : string :=
  Rx.replace_first (re_close origTag) (fun _ => "</button>") s.

(** the loop looking for the closing tag below the target line: [i] is
    the index of the head of [below] in [lines] *)
Fixpoint fix_closing_below (origTag : string) (i : nat) (below : list string)
    (lines : list string) : option (list string) :=
  match below with
  | [] => None
  | l :: below' =>
      if Rx.test (re_close origTag) l
      then Some (<[i := replace_close origTag l]> lines)
      else fix_closing_below origTag (S i) below' lines
  end.

Section Handler.
Variable path_join : string -> string -> string.
Variable projectRoot : string.
Variable issue : Issue.

Definition fixDivToButton (filePath content : string) (lines : list string)
    (lineIdx : Z) (w : World) : Result * World :=
  if out_of_range lineIdx lines then
    (failure "Could not locate the issue line.", w)
  else
    let idx := Z.to_nat lineIdx in
    let ln := line_at lines idx in
    match Rx.exec re_div_span ln with
    | None => (failure "Could not find div/span on target line.", w)
    | Some tagMatch =>
        let origTag :=
          match Rx.group ln tagMatch 1 with Some g => g | None => "undefined" end in
        (* Safety checks *)
        let fullTag := Js.drop (Z.to_nat (Js.indexOf_str (Rx.matched ln tagMatch) ln)) ln in
        if Rx.test re_interactive fullTag then
          (failure "Nested interactive elements detected — cannot safely convert.", w)
        else if Rx.test re_href fullTag then
          (failure "Element has href — should be a link, not a button.", w)
        else
          (* Replace opening tag *)
          let newLine := replace_open origTag ln in
          (* Check if closing tag is on the same line *)
          let same := Rx.test (re_close origTag) newLine in
          let newLine' := if same then replace_close origTag newLine else newLine in
          let lines1 := <[idx := newLine']> lines in
          (* If closing tag wasn't on the same line, find it below *)
          let closed :=
            if same then Some lines1
            else fix_closing_below origTag (S idx) (drop (S idx) lines1) lines1 in
          match closed with
          | None =>
              (failure ("Could not find closing </" +:+ origTag +:+ "> tag."), w)
          | Some lines2 =>
              let w1 := writeFileSync (filePath +:+ ".bak") content w in
              let w2 := writeFileSync filePath (Js.join_nl lines2) w1 in
              (fixed_with ("Replaced <" +:+ origTag +:+ " onClick> with <button type="
                             +:+ Js.quoted "button" +:+ "> in " +:+ file issue
                             +:+ " line " +:+ Js.of_nat (line issue) +:+ "."), w2)
          end
    end.

Definition addTabindex (filePath content : string) (lines : list string)
    (lineIdx : Z) (w : World) : Result * World :=
  if out_of_range lineIdx lines then
    (failure "Could not locate the issue line.", w)
  else
    let idx := Z.to_nat lineIdx in
    let ln := line_at lines idx in
    if Rx.test re_tabindex ln then
      (failure "Element already has tabindex.", w)
    else
      match Rx.exec re_div_span ln with
      | None => (failure "Could not find div/span on target line.", w)
      | Some tagMatch =>
          let insertPos :=
            (Js.indexOf_str (Rx.matched ln tagMatch) ln
             + Z.of_nat (Js.len (Rx.matched ln tagMatch)))%Z in
          let lines' :=
            <[idx := Js.take (Z.to_nat insertPos) ln
                       +:+ ("tabindex=" +:+ Js.quoted "0" +:+ " ")
                       +:+ Js.drop (Z.to_nat insertPos) ln]> lines in
          let w1 := writeFileSync (filePath +:+ ".bak") content w in
          let w2 := writeFileSync filePath (Js.join_nl lines') w1 in
          (fixed_with ("Added tabindex=" +:+ Js.quoted "0" +:+ " in " +:+ file issue
                         +:+ " line " +:+ Js.of_nat (line issue) +:+ "."), w2)
      end.

Definition applyFix (w : World) : Result * World :=
  let filePath := path_join projectRoot (file issue) in
  match files w !! filePath with
  | None => (failure ("File not found: " +:+ file issue), w)
  | Some content =>
      let lines := Js.split_nl content in
      let lineIdx := line_index issue in
      let problem := problem issue in
      if Js.includes "onClick handler used as interactive control" problem then
        fixDivToButton filePath content lines lineIdx w
      else if Js.includes "missing tabindex" problem then
        addTabindex filePath content lines lineIdx w
      else (failure "This semantics issue requires manual review.", w)
  end.
End Handler.

End SemanticsFix.

(** ** The image scanner: [scan-images.js] *)

Module ScanImages.

Import ImagesFix.

Definition not_gt : ascii -> bool := Rx.not_in ">".

(** [/<img\s([^>]*?)\/?\s*>/gi] *)
Definition imgPattern : Rx.regex :=
  Rx.seqs [Rx.lit_ci "<img"; Rx.Chr Js.is_ws; Rx.Group 1 (Rx.LazyStar not_gt);
           Rx.opt (Rx.Chr (Rx.is_char "/")); Rx.Star Js.is_ws; Rx.Chr (Rx.is_char ">")].

(** [/<Image\s([^>]*?)\/?\s*>/gi] *)
Definition imageCompPattern : Rx.regex :=
  Rx.seqs [Rx.lit_ci "<Image"; Rx.Chr Js.is_ws; Rx.Group 1 (Rx.LazyStar not_gt);
           Rx.opt (Rx.Chr (Rx.is_char "/")); Rx.Star Js.is_ws; Rx.Chr (Rx.is_char ">")].

(** [/role\s*=\s*QimgQ/gi], Q the class of the two quote characters *)
Definition roleImgPattern : Rx.regex :=
  Rx.seqs [Rx.lit_ci "role"; Rx.Star Js.is_ws; Rx.Chr (Rx.is_char "="); Rx.Star Js.is_ws;
           Rx.Chr quote; Rx.lit_ci "img"; Rx.Chr quote].

(** [/\bNAME\s*=\s*Q[^Q]+Q/] for [aria-label], [aria-labelledby], [alt] *)
Definition re_valued (name : string) : Rx.regex :=
  Rx.seqs [Rx.WordB; Rx.lit name; Rx.Star Js.is_ws; Rx.Chr (Rx.is_char "=");
           Rx.Star Js.is_ws; Rx.Chr quote; Rx.plus not_quote; Rx.Chr quote].

(** [content.substring(0, match.index).split('\n').length] *)
Definition lineNum (content : string) (index : nat) : nat :=
  length (Js.split_nl (Js.substring 0 (Z.of_nat index) content)).

Definition finding (sev : Severity) (relPath : string) (ln : nat)
    (prob imp fx : string) (auto : bool) : Issue :=
  mkIssue None sev "images" relPath ln prob imp fx auto (Some ("1.1.1", "A")) None.

Definition decorative_problem : string :=
  "Likely decorative <img> missing alt=" +:+ Js.quoted EmptyString
    +:+ " — should have empty alt to be ignored by screen readers".

(** the body of the loop over the matches of [imgPattern] *)
Definition scan_img (relPath content : string) (m : Rx.rmatch_result) : list Issue :=
  let attrs := match Rx.group content m 1 with Some g => g | None => "undefined" end in
  let ln := lineNum content (Rx.index m) in
  if Rx.test re_alt attrs then []
  else if looks_decorative attrs then
    [finding medium relPath ln decorative_problem
       ("Without alt=" +:+ Js.quoted EmptyString
          +:+ ", screen readers may announce the filename, which is confusing for decorative images.")
       ("Add alt=" +:+ Js.quoted EmptyString +:+ " to mark this image as decorative.")
       true]
  else
    [finding critical relPath ln "<img> tag missing alt attribute"
       "Screen readers cannot describe this image. Depending on browser, they may read the filename or URL, which is meaningless."
       ("Add a descriptive alt attribute. If decorative, add alt="
          +:+ Js.quoted EmptyString +:+ ".")
       true].

(** the body of the loop over the matches of [imageCompPattern] *)
Definition scan_Image (relPath content : string) (m : Rx.rmatch_result) : list Issue :=
  let attrs := match Rx.group content m 1 with Some g => g | None => "undefined" end in
  let ln := lineNum content (Rx.index m) in
  if Rx.test re_alt attrs then []
  else
    [finding critical relPath ln "Next.js Image component missing alt attribute"
       "Screen readers cannot describe this image."
       ("Add alt=" +:+ Js.quoted "descriptive text" +:+ " or alt="
          +:+ Js.quoted EmptyString +:+ " if decorative.")
       true].

(** the body of the loop over the matches of [roleImgPattern] *)
Definition scan_role (relPath content : string) (m : Rx.rmatch_result) : list Issue :=
  let ln := lineNum content (Rx.index m) in
  let tagStart := Js.lastIndexOf "<" (Rx.index m) content in
  let tagEnd := Js.indexOf ">" (Rx.index m) content in
  let tag := Js.substring tagStart (tagEnd + 1)%Z content in
  if negb (Rx.test (re_valued "aria-label") tag)
     && negb (Rx.test (re_valued "aria-labelledby") tag)
     && negb (Rx.test (re_valued "alt") tag)
  then
    [finding high relPath ln
       ("Element with role=" +:+ Js.quoted "img" +:+ " has no accessible name")
       "Screen readers identify this as an image but have no description to announce."
       ("Add aria-label=" +:+ Js.quoted "description"
          +:+ " or aria-labelledby pointing to a visible label.")
       false]
  else [].

(** one iteration of [for (const file of files)], for a file that was
    read *)
Definition scan_content (fw relPath content : string) : list Issue :=
  concat (map (scan_img relPath content) (Rx.exec_all imgPattern content))
  ++ (if String.eqb fw "nextjs"
      then concat (map (scan_Image relPath content) (Rx.exec_all imageCompPattern content))
      else [])
  ++ concat (map (scan_role relPath content) (Rx.exec_all roleImgPattern content)).

(** [scanImages] over the source files, each with its path relative to
    the project root and what [readFileSafe] returned for it; the walk of
    the directories that lists the files is not modelled *)
Fixpoint scanImages (fw : string) (sources : list (string * option string)) : list Issue :=
  match sources with
  | [] => []
  | (relPath, read) :: rest =>
      match read with
      | None => scanImages fw rest
      | Some content =>
          if String.eqb content EmptyString then scanImages fw rest
          else scan_content fw relPath content ++ scanImages fw rest
      end
  end.

End ScanImages.

(** ** The fix orchestrators: the two [apply-fix.js] *)

(** what [execSync] does: the child prints and exits normally, or the call
    throws (non-zero exit status, time-out, spawn failure) *)
Inductive ExecOutcome : Type :=
| Exited (stdout : string)
| Failed (message : string).

(** what [JSON.parse] makes of the child's output: an object whose fields
    are read ([undefined] fields are [None], a value that is no object has
    none), [null], or a syntax error *)
Inductive ParseOutcome : Type :=
| PValue (r : Result)
| PNull
| PSyntaxError (message : string).

Record FixedEntry : Type := mkFixed {
  f_id : option string; f_file : string; f_problem : string;
  f_action : option string; f_dryRun : bool
}.

Record SkippedEntry : Type := mkSkipped {
  s_id : option string; s_file : string; s_problem : string;
  s_reason : option string
}.

Record ManualEntry : Type := mkManual {
  r_id : option string; r_file : string; r_problem : string;
  r_recommendation : string; r_reason : string
}.

(** the object printed on the standard output; [manual] is the array the
    SEO script calls [recommendations] and the accessibility script
    [manualReview] *)
Record Output : Type := mkOutput {
  o_dryRun : bool;
  o_message : option string;
  o_filter : option string;
  o_totalTargeted : option nat;
  fixed : list FixedEntry;
  skipped : list SkippedEntry;
  manual : list ManualEntry
}.

(** how a run ends: [console.error] and [process.exit(1)], or the output
    object with [success: true] *)
Inductive Outcome : Type :=
| ExitError (message : string)
| Printed (o : Output).

Module FixCommon.

(** [`${x}`] for a field that may be undefined *)
Definition show (o : option string) : string :=
  match o with Some s => s | None => "undefined" end.

Definition bt : string := "`".

Definition fixed_block (f : FixedEntry) : list string :=
  ["### " +:+ show (f_id f);
   "- **File:** " +:+ bt +:+ f_file f +:+ bt;
   "- **Problem:** " +:+ f_problem f;
   "- **Action:** " +:+ show (f_action f);
   EmptyString].

Definition skipped_block (x : SkippedEntry) : list string :=
  ["### " +:+ show (s_id x);
   "- **File:** " +:+ bt +:+ s_file x +:+ bt;
   "- **Problem:** " +:+ s_problem x;
   "- **Reason:** " +:+ show (s_reason x);
   EmptyString].

Definition manual_block (r : ManualEntry) : list string :=
  ["### " +:+ show (r_id r);
   "- **File:** " +:+ bt +:+ r_file r +:+ bt;
   "- **Problem:** " +:+ r_problem r;
   "- **Recommendation:** " +:+ r_recommendation r;
   "- **Reason:** " +:+ r_reason r;
   EmptyString].

(** the text [generateFixReport] writes; the two scripts differ in the
    title and in the last line only *)
Definition fix_report_text (title footer now filter : string)
    (fx : list FixedEntry) (sk : list SkippedEntry) (mr : list ManualEntry) : string :=
  Js.join_nl
    ([title; EmptyString;
      "**Generated:** " +:+ now;
      "**Filter:** " +:+ filter;
      EmptyString;
      "## Summary"; EmptyString;
      "| Status | Count |";
      "|--------|-------|";
      "| Fixed | " +:+ Js.of_nat (length fx) +:+ " |";
      "| Skipped | " +:+ Js.of_nat (length sk) +:+ " |";
      "| Manual Review | " +:+ Js.of_nat (length mr) +:+ " |";
      EmptyString;
      "## Fixed Issues"; EmptyString]
     ++ (match fx with
         | [] => ["No issues were fixed."]
         | _ => concat (map fixed_block fx)
         end)
     ++ [EmptyString; "## Skipped Issues"; EmptyString]
     ++ (match sk with
         | [] => ["No issues were skipped."]
         | _ => concat (map skipped_block sk)
         end)
     ++ [EmptyString; "## Manual Review Required"; EmptyString]
     ++ (match mr with
         | [] => ["No issues require manual review."]
         | _ => concat (map manual_block mr)
         end)
     ++ ["---"; EmptyString; footer]).

(** [allIssues.filter(i => i.id.toUpperCase() === filter.toUpperCase())]:
    reading [toUpperCase] of an absent [id] throws *)
Fixpoint filter_by_id (filter : string) (l : list Issue) : option (list Issue) :=
  match l with
  | [] => Some []
  | i :: l' =>
      match id i with
      | None => None
      | Some own =>
          match filter_by_id filter l' with
          | None => None
          | Some rest =>
              if String.eqb (Js.toUpperCase own) (Js.toUpperCase filter)
              then Some (i :: rest) else Some rest
          end
      end
  end.

(** [allIssues.filter(i => i.category === filter.toLowerCase())] *)
Definition filter_by_category (filter : string) (l : list Issue) : list Issue :=
  List.filter (fun i => String.eqb (category i) (Js.toLowerCase filter)) l.

(** [/^PREFIX-\d+$/i] *)
Definition re_id (prefix : string) : Rx.regex :=
  Rx.seqs [Rx.Bol; Rx.lit_ci prefix; Rx.Chr (Rx.is_char_ci "-"); Rx.plus Js.is_digit; Rx.Eol].

(** the three branches that select [targetIssues] *)
Definition select (prefix filter : string) (allIssues : list Issue) : option (list Issue) :=
  if String.eqb (Js.toLowerCase filter) "all" then Some allIssues
  else if Rx.test (re_id prefix) filter then filter_by_id filter allIssues
  else Some (filter_by_category filter allIssues).

(** [scriptMap[issue.category]] *)
Fixpoint lookup_script (scriptMap : list (string * string)) (cat : string) : option string :=
  match scriptMap with
  | [] => None
  | (c, script) :: rest => if String.eqb c cat then Some script else lookup_script rest cat
  end.

(** the names an object literal inherits from [Object.prototype]: what
    [scriptMap[name]] reads under such a name is a function (an object for
    [__proto__]), which is truthy and no string *)
Definition inherited : list string :=
  ["constructor"; "hasOwnProperty"; "isPrototypeOf"; "propertyIsEnumerable";
   "toLocaleString"; "toString"; "valueOf"; "__proto__"; "__defineGetter__";
   "__defineSetter__"; "__lookupGetter__"; "__lookupSetter__"].

Definition is_inherited (name : string) : bool := existsb (String.eqb name) inherited.

(** the message of the [TypeError] raised by [result.success] when
    [result] is [null] *)
Definition null_success_message : string :=
  "Cannot read properties of null (reading 'success')".

End FixCommon.

(** how a call ends: it returns a value, [None] for [null], or it throws *)
Inductive Completion : Type :=
| Return (r : option Result)
| Throw (message : string).

(** the three arrays the loop of [applyFixes] fills *)
Record Buckets : Type := mkBuckets {
  b_fixed : list FixedEntry;
  b_skipped : list SkippedEntry;
  b_manual : list ManualEntry
}.

Definition push_fixed (e : FixedEntry) (b : Buckets) : Buckets :=
  mkBuckets (b_fixed b ++ [e]) (b_skipped b) (b_manual b).
Definition push_skipped (e : SkippedEntry) (b : Buckets) : Buckets :=
  mkBuckets (b_fixed b) (b_skipped b ++ [e]) (b_manual b).
Definition push_manual (e : ManualEntry) (b : Buckets) : Buckets :=
  mkBuckets (b_fixed b) (b_skipped b) (b_manual b ++ [e]).

(** The environment of a fix run: the library calls and the command line.
    [run_script] is the child process [execSync] starts, which may change
    any file; [parse_output] and [parse_report] are [JSON.parse] on the
    child's output and on the report ([inl] is the message of the error it
    throws); [join_error] is the message of the [TypeError] that [path.join]
    throws when it is handed, for a script name, the member of
    [Object.prototype] of the given name; [now] is
    [new Date().toISOString()]. *)
Record Env : Type := mkEnv {
  path_join : string -> string -> string;
  join_error : string -> string;
  run_script : string -> Issue -> string -> gmap string string
               -> ExecOutcome * gmap string string;
  parse_output : string -> ParseOutcome;
  parse_report : string -> string + list Issue;
  now : string;
  scriptsDir : string;
  projectRoot : string;
  filter : string;
  dryRun : bool
}.

Module Dispatch.
Import FixCommon.

Section Run.
Variable env : Env.
Variable scriptMap : list (string * string).

(** [applyCategoryFix]: [path.join] is called outside the [try] block,
    [execSync] and [JSON.parse] inside it *)
Definition applyCategoryFix (issue : Issue) (w : World) : Completion * World :=
  match lookup_script scriptMap (category issue) with
  | None =>
      if is_inherited (category issue)
      then (Throw (join_error env (category issue)), w)
      else (Return (Some (failure ("No fix script for category: " +:+ category issue))), w)
  | Some script =>
      let scriptPath := path_join env (scriptsDir env) script in
      let '(out, files') := run_script env scriptPath issue (projectRoot env) (files w) in
      let w' := mkWorld files' (log w ++ [Spawn scriptPath issue]) in
      match out with
      | Exited stdout =>
          match parse_output env (Js.trim stdout) with
          | PValue r => (Return (Some r), w')
          | PNull => (Return None, w')
          | PSyntaxError msg => (Return (Some (failure msg)), w')
          end
      | Failed msg => (Return (Some (failure msg)), w')
      end
  end.

(** the [try { ... } catch (err) { ... }] that ends the loop body *)
Definition attempt (issue : Issue) (st : Buckets * World) : Buckets * World :=
  let '(b, w) := st in
  let '(result, w') := applyCategoryFix issue w in
  match result with
  | Return (Some r) =>
      if success r
      then (push_fixed (mkFixed (id issue) (file issue) (problem issue) (action r) false) b, w')
      else (push_skipped (mkSkipped (id issue) (file issue) (problem issue) (reason r)) b, w')
  | Return None =>
      (push_skipped (mkSkipped (id issue) (file issue) (problem issue)
                       (Some ("Fix failed: " +:+ null_success_message))) b, w')
  | Throw msg =>
      (push_skipped (mkSkipped (id issue) (file issue) (problem issue)
                       (Some ("Fix failed: " +:+ msg))) b, w')
  end.

(** the dry-run branch of the loop body *)
Definition preview (issue : Issue) (b : Buckets) : Buckets :=
  push_fixed (mkFixed (id issue) (file issue) (problem issue)
                (Some ("Would apply fix: " +:+ recommendedFix issue)) true) b.

(** [applyFixes] around the loop body [step]: the report is loaded,
    the targets selected, the loop run, the fix report written, the
    result printed *)
Definition loop (step : Issue -> Buckets * World -> Buckets * World)
    (targetIssues : list Issue) (st : Buckets * World) : Buckets * World :=
  fold_left (fun st i => step i st) targetIssues st.

Definition applyFixes_with (prefix reportName missing fixReportName title footer : string)
    (step : Issue -> Buckets * World -> Buckets * World) (w : World) : Outcome * World :=
  let reportPath := path_join env (projectRoot env) reportName in
  match files w !! reportPath with
  | None => (ExitError missing, w)
  | Some text =>
      match parse_report env text with
      | inl msg => (ExitError msg, w)
      | inr allIssues =>
          match select prefix (filter env) allIssues with
          | None =>
              (ExitError "Cannot read properties of undefined (reading 'toUpperCase')", w)
          | Some [] =>
              (Printed (mkOutput (dryRun env)
                          (Some ("No issues found matching filter: " +:+ filter env))
                          None None [] [] []), w)
          | Some targetIssues =>
              let '(b, w1) := loop step targetIssues (mkBuckets [] [] [], w) in
              let w2 :=
                if dryRun env then w1
                else writeFileSync (path_join env (projectRoot env) fixReportName)
                       (fix_report_text title footer (now env) (filter env)
                          (b_fixed b) (b_skipped b) (b_manual b)) w1 in
              (Printed (mkOutput (dryRun env) None (Some (filter env))
                          (Some (length targetIssues))
                          (b_fixed b) (b_skipped b) (b_manual b)), w2)
          end
      end
  end.
End Run.
End Dispatch.

(** *** SEO: [seo-fix/scripts/apply-fix.js] *)

Module SeoFix.
Import FixCommon Dispatch.

Definition scriptMap : list (string * string) :=
  [("title", "apply-meta-fix.js"); ("meta-description", "apply-meta-fix.js");
   ("headings", "apply-heading-fix.js"); ("semantic-html", "apply-semantic-fix.js");
   ("images", "apply-image-fix.js"); ("internal-links", "apply-link-fix.js")].

Section Run.
Variable env : Env.

(** the body of [for (const issue of targetIssues)] *)
Definition step (issue : Issue) (st : Buckets * World) : Buckets * World :=
  let '(b, w) := st in
  (* Rendering fixes are never auto-applied *)
  if String.eqb (category issue) "rendering" then
    (push_manual (mkManual (id issue) (file issue) (problem issue) (recommendedFix issue)
                    "Rendering fixes require manual review and cannot be safely auto-applied.")
       b, w)
  else if negb (autoFixPossible issue) then
    (push_skipped (mkSkipped (id issue) (file issue) (problem issue)
                     (Some "Auto-fix not available for this issue.")) b, w)
  else if dryRun env then (preview issue b, w)
  else attempt env scriptMap issue (b, w).

Definition applyFixes (w : World) : Outcome * World :=
  applyFixes_with env "SEO" "seo-report.json"
    "seo-report.json not found. Run seo-audit first."
    "fix-report.md" "# SEO Fix Report"
    "*Generated by universal-frontend-seo-plugin*" step w.
End Run.
End SeoFix.

(** *** Accessibility: [a11y-fix/scripts/apply-fix.js] *)

Module A11yFix.
Import FixCommon Dispatch.

Definition scriptMap : list (string * string) :=
  [("semantics", "apply-semantics-fix.js"); ("accessible-names", "apply-names-fix.js");
   ("images", "apply-images-fix.js"); ("forms", "apply-forms-fix.js");
   ("aria", "apply-aria-fix.js"); ("keyboard", "apply-keyboard-fix.js");
   ("patterns", "apply-patterns-fix.js")].

Section Run.
Variable env : Env.

(** the body of [for (const issue of targetIssues)] *)
Definition step (issue : Issue) (st : Buckets * World) : Buckets * World :=
  let '(b, w) := st in
  if negb (autoFixPossible issue) then
    (push_manual (mkManual (id issue) (file issue) (problem issue) (recommendedFix issue)
                    "Auto-fix not available — manual review required.") b, w)
  else if dryRun env then (preview issue b, w)
  else attempt env scriptMap issue (b, w).

Definition applyFixes (w : World) : Outcome * World :=
  applyFixes_with env "A11Y" "a11y-report.json"
    "a11y-report.json not found. Run a11y-audit first."
    "a11y-fix-report.md" "# Accessibility Fix Report"
    "*Generated by accessibility-plugin*" step w.
End Run.
End A11yFix.

(** ** Vocabulary of the properties *)

(** what identifies a finding in an outcome entry *)
Definition key (i : Issue) : option string * string * string :=
  (id i, file i, problem i).

Definition bucket_keys (b : Buckets) : list (option string * string * string) :=
  map (fun e => (f_id e, f_file e, f_problem e)) (b_fixed b)
  ++ map (fun e => (s_id e, s_file e, s_problem e)) (b_skipped b)
  ++ map (fun e => (r_id e, r_file e, r_problem e)) (b_manual b).

Definition output_keys (o : Output) : list (option string * string * string) :=
  bucket_keys (mkBuckets (fixed o) (skipped o) (manual o)).

(** the report under [reportName] loads and the filter selects [targets] *)
Definition targeted (env : Env) (prefix reportName : string) (w : World)
    (targets : list Issue) : Prop :=
  exists text allIssues,
    files w !! path_join env (projectRoot env) reportName = Some text /\
    parse_report env text = inr allIssues /\
    FixCommon.select prefix (filter env) allIssues = Some targets.

Definition seo_targeted (env : Env) : World -> list Issue -> Prop :=
  targeted env "SEO" "seo-report.json".

Definition a11y_targeted (env : Env) : World -> list Issue -> Prop :=
  targeted env "A11Y" "a11y-report.json".

(** the events a run appended to the log *)
Definition new_events (w w' : World) : list Event :=
  drop (length (log w)) (log w').

(** the handler run for [issue] in the files [fs] ends abnormally with the
    error text [msg]: the child fails or times out, or prints what
    [JSON.parse] rejects *)
Definition abnormal (env : Env) (scriptMap : list (string * string)) (issue : Issue)
    (fs : gmap string string) (msg : string) : Prop :=
  exists script,
    FixCommon.lookup_script scriptMap (category issue) = Some script /\
    let out := fst (run_script env (path_join env (scriptsDir env) script) issue
                      (projectRoot env) fs) in
    out = Failed msg \/
    exists stdout, out = Exited stdout /\ parse_output env (Js.trim stdout) = PSyntaxError msg.

(** the handler run for [issue] prints [null] *)
Definition prints_null (env : Env) (scriptMap : list (string * string)) (issue : Issue)
    (fs : gmap string string) : Prop :=
  exists script stdout,
    FixCommon.lookup_script scriptMap (category issue) = Some script /\
    fst (run_script env (path_join env (scriptsDir env) script) issue (projectRoot env) fs)
      = Exited stdout /\
    parse_output env (Js.trim stdout) = PNull.

(** each step files its finding in exactly one bucket *)
Definition adds_one (step : Issue -> Buckets * World -> Buckets * World) : Prop :=
  forall i b w, bucket_keys (fst (step i (b, w))) ≡ₚ key i :: bucket_keys b.

(** entries are only ever appended *)
Definition grows (b b' : Buckets) : Prop :=
  (forall e, e ∈ b_fixed b -> e ∈ b_fixed b') /\
  (forall e, e ∈ b_skipped b -> e ∈ b_skipped b') /\
  (forall e, e ∈ b_manual b -> e ∈ b_manual b').

Definition monotone (step : Issue -> Buckets * World -> Buckets * World) : Prop :=
  forall i b w, grows b (fst (step i (b, w))).

(** a step leaves the log alone or appends the spawn of a handler for
    its issue, and this only for an issue that satisfies [P] *)
Definition spawns_only (P : Issue -> Prop)
    (step : Issue -> Buckets * World -> Buckets * World) : Prop :=
  forall i b w,
    log (snd (step i (b, w))) = log w \/
    exists p, log (snd (step i (b, w))) = log w ++ [Spawn p i] /\ P i.

(** the entries the loop bodies push *)
Definition preview_entry (i : Issue) : FixedEntry :=
  mkFixed (id i) (file i) (problem i) (Some ("Would apply fix: " +:+ recommendedFix i)) true.

Definition skipped_entry (i : Issue) (why : string) : SkippedEntry :=
  mkSkipped (id i) (file i) (problem i) (Some why).

Definition manual_entry (i : Issue) (why : string) : ManualEntry :=
  mkManual (id i) (file i) (problem i) (recommendedFix i) why.

(** ** Concrete projects, used to instantiate the properties *)

Module Example.

Definition join (root name : string) : string := root +:+ "/" +:+ name.

Definition issue (ident cat : string) (auto : bool) : Issue :=
  mkIssue (Some ident) high cat "index.html" 3 "a problem" "an impact" "a remedy"
    auto None None.

(** a project whose report holds [issues] and whose handlers all time out *)
Definition env (issues : list Issue) (selector : string) (dry : bool) : Env :=
  mkEnv join (fun name => "The path argument must be of type string. Received " +:+ name)
    (fun _ _ _ fs => (Failed "spawnSync /bin/sh ETIMEDOUT", fs))
    (fun _ => PNull) (fun _ => inr issues) "2024-01-01T00:00:00.000Z"
    "/plugin/scripts" "/site" selector dry.

Definition world : World :=
  mkWorld {[ "/site/seo-report.json" := "{}"; "/site/a11y-report.json" := "{}" ]} [].

End Example.

(** what a run over [targets] outside a dry run must deliver: a printed
    result that counts every target once over the three lists, the fix
    report written last with the same lists, and a skipped entry carrying
    the error text for every eligible target whose handler, started in the
    files left by the targets before it, ends abnormally *)
Definition batch_accounted (env : Env) (w : World) (targets : list Issue)
    (result : Outcome * World)
    (step : Issue -> Buckets * World -> Buckets * World)
    (scriptMap : list (string * string)) (fixReportName title footer : string)
    (eligible : Issue -> Prop) : Prop :=
  exists o w',
    result = (Printed o, w') /\
    o_totalTargeted o = Some (length targets) /\
    output_keys o ≡ₚ map key targets /\
    (exists evs,
       log w' = log w ++ evs ++
         [Write (path_join env (projectRoot env) fixReportName)
            (FixCommon.fix_report_text title footer (now env) (filter env)
               (fixed o) (skipped o) (manual o))]) /\
    forall pre i post,
      targets = pre ++ i :: post -> eligible i ->
      let fs := files (snd (Dispatch.loop step pre (mkBuckets [] [] [], w))) in
      (forall msg, abnormal env scriptMap i fs msg -> skipped_entry i msg ∈ skipped o) /\
      (prints_null env scriptMap i fs ->
       skipped_entry i ("Fix failed: " +:+ FixCommon.null_success_message) ∈ skipped o).

(** the backup discipline of a handler that returned [r] and turned the
    world [w] into [w']: on success exactly two writes, first the content
    the target had in [w] to the [.bak] sibling, then the new content to the
    target; on failure nothing at all *)
Definition backup_then_write (filePath : string) (w : World) (res : Result * World) : Prop :=
  if success (fst res) then
    exists content new,
      files w !! filePath = Some content /\
      log (snd res) = log w ++ [Write (filePath +:+ ".bak") content; Write filePath new] /\
      files (snd res) = <[filePath := new]> (<[filePath +:+ ".bak" := content]> (files w))
  else snd res = w.

(** ** Concrete inputs for the aggregator and the handlers *)

Module Sample.

(** a finding as a scanner emits it: no [id] yet *)
Definition scanned (sev : Severity) (cat path : string) (ln : nat) (prob : string) : Issue :=
  mkIssue None sev cat path ln prob "an impact" "a remedy" true None None.

(** a project with the one source file [index.html] *)
Definition site (content : string) : World :=
  mkWorld {[ "/site/index.html" := content ]} [].

(** an image tag whose closing bracket is on the next line *)
Definition two_line_img : string :=
  "<img src=" +:+ Js.quoted "hero.png" +:+ String Js.nl ("  class=" +:+ Js.quoted "wide" +:+ ">").

Definition img_missing_alt : Issue :=
  scanned critical "images" "index.html" 1 "<img> tag missing alt attribute".

Definition todo_alt : string := "alt=" +:+ Js.quoted "TODO: describe image" +:+ " ".

End Sample.

(** the character before the position reached after reading [s] *)
Fixpoint last_char (prev : option ascii) (s : string) : option ascii :=
  match s with
  | EmptyString => prev
  | String c s' => last_char (Some c) s'
  end.

(** ** Vocabulary of the retag handler *)

(** the text that replaces the name of an opening tag, and the closing tag
    of an element name *)
Definition button_open : string := "<button type=" +:+ Js.quoted "button".
Definition closing (tag : string) : string := "</" +:+ tag +:+ ">".

(** the element name the handler reads off the target line *)
Definition target_tag (ln : string) : option string :=
  match Rx.exec SemanticsFix.re_div_span ln with
  | Some m => Rx.group ln m 1
  | None => None
  end.


(** the two safety checks of the handler on the target line *)
Definition nested_interactive_detected (ln : string) : bool :=
  match Rx.exec SemanticsFix.re_div_span ln with
  | Some m =>
      Rx.test SemanticsFix.re_interactive
        (Js.drop (Z.to_nat (Js.indexOf_str (Rx.matched ln m) ln)) ln)
  | None => false
  end.

Definition href_detected (ln : string) : bool :=
  match Rx.exec SemanticsFix.re_div_span ln with
  | Some m =>
      Rx.test SemanticsFix.re_href
        (Js.drop (Z.to_nat (Js.indexOf_str (Rx.matched ln m) ln)) ln)
  | None => false
  end.

(** [new_lines] is [lines] retagged at line [idx]: the opening tag of the
    element [tag] on that line is renamed, and so is the first closing tag
    of that name on the first line, from [idx] on, that has one after the
    renaming *)
Definition retagged (tag : string) (idx : nat) (lines new_lines : list string) : Prop :=
  exists ln a c b,
    lines !! idx = Some ln /\ ln = a +:+ ("<" +:+ tag) +:+ String c b /\
    Js.is_ws c = true /\
    let lines1 := <[idx := a +:+ button_open +:+ String c b]> lines in
    exists j x y,
      idx <= j /\ lines1 !! j = Some (x +:+ closing tag +:+ y) /\
      (forall x' y', x +:+ closing tag +:+ y = x' +:+ closing tag +:+ y' ->
         Js.len x <= Js.len x') /\
      (forall k l, idx <= k < j -> lines1 !! k = Some l ->
         Js.includes (closing tag) l = false) /\
      new_lines = <[j := x +:+ "</button>" +:+ y]> lines1.

(** ** The closing tag that pairs with an opening tag

    What the specification calls the matching closing tag, stated apart
    from the handler: the closing tag at which the nesting depth of the
    elements of that name, counted from the opening tag, is back to zero. *)

Module Pairing.

(** the tags of the element [tag] in a text, in order: [true] for an
    opening tag, [false] for a closing tag *)
Definition tokens (tag text : string) : list bool :=
  map (fun m => match Rx.lookup_group 1 (Rx.groups m) with Some _ => true | None => false end)
    (Rx.exec_all
       (Rx.Alt
          (Rx.Group 1 (Rx.Seq (Rx.lit ("<" +:+ tag))
                         (Rx.Chr (fun c => Js.is_ws c || Ascii.eqb c ">"))))
          (Rx.Group 2 (Rx.lit (closing tag))))
       text).

Inductive scan : Type := Closed | Depth (d : nat).

Fixpoint scan_tokens (toks : list bool) (depth : nat) : scan :=
  match toks with
  | [] => Depth depth
  | true :: rest => scan_tokens rest (S depth)
  | false :: rest =>
      match depth with
      | 0 => scan_tokens rest 0
      | 1 => Closed
      | S d => scan_tokens rest d
      end
  end.

Fixpoint closing_line (tag : string) (texts : list string) (i depth : nat) : option nat :=
  match texts with
  | [] => None
  | t :: rest =>
      match scan_tokens (tokens tag t) depth with
      | Closed => Some i
      | Depth d => closing_line tag rest (S i) d
      end
  end.

(** the index of the line that holds the closing tag pairing with the
    opening tag at column [col] of line [idx] *)
Definition matching_close (tag : string) (lines : list string) (idx col : nat)
    : option nat :=
  match lines !! idx with
  | Some ln => closing_line tag (Js.drop col ln :: drop (S idx) lines) idx 0
  | None => None
  end.

End Pairing.

(** ** Concrete pages for the retag handler *)

Module Page.

Definition clickable_div : Issue :=
  Sample.scanned critical "semantics" "index.html" 1
    "<div> with onClick handler used as interactive control without semantic role".

(** a clickable container that holds another container *)
Definition nested : list string :=
  ["<div onClick={open}>"; "  <div class=card>label</div>"; "</div>"].

Definition simple : list string := ["<div onClick={go}>Go</div>"].

End Page.

(** ** Vocabulary of the decorative-image scenario *)

(** every character of [s] is of the class [p] *)
Fixpoint all_chars (p : ascii -> bool) (s : string) : bool :=
  match s with
  | EmptyString => true
  | String c s' => p c && all_chars p s'
  end.

(** a character of a file name inside an attribute value: an ASCII
    character that is no white space, no quote, no bracket, no equals sign
    and no slash *)
Definition name_char (c : ascii) : bool :=
  (nat_of_ascii c <? 128)
  && negb (Js.is_ws c) && ImagesFix.not_quote c && ScanImages.not_gt c
  && negb (Rx.is_char_ci "<" c) && negb (Rx.is_char "=" c) && negb (Rx.is_char "/" c).

(** an image tag whose only attribute is [src] *)
Definition icon_tag (name : string) : string := "<img src=" +:+ Js.quoted name +:+ ">".

(** [starts_with] up to the case of the letters *)
Fixpoint starts_with_ci (p s : string) : bool :=
  match p, s with
  | EmptyString, _ => true
  | String a p', String b s' => if Rx.is_char_ci a b then starts_with_ci p' s' else false
  | String _ _, EmptyString => false
  end.

(** neither white space nor an equals sign *)
Definition no_ws_eq (c : ascii) : bool := negb (Js.is_ws c) && negb (Rx.is_char "=" c).

(** not an opening bracket *)
Definition no_lt (c : ascii) : bool := negb (Rx.is_char_ci "<" c).

(** the attributes of the tag, and the tag, in pieces *)
Definition dqs : string := String Js.dq EmptyString.
Definition icon_attrs (name : string) : string := ("src=" +:+ dqs) +:+ name +:+ dqs.

(** neither a slash, nor white space, nor a closing bracket: where the
    end of an opening tag cannot be read *)
Definition not_tag_end (c : ascii) : bool :=
  negb (Rx.is_char "/" c) && negb (Js.is_ws c) && negb (Rx.is_char ">" c).

(** ** Vocabulary of the aggregator *)

(** the key the comparator orders by: the position of the category in
    [CATEGORIES], then the severity rank as the comparator reads it, after
    [|| 3] *)
Definition sort_key (i : Issue) : Z * Z :=
  (Report.indexOf Report.CATEGORIES (category i),
   Report.or_num (Report.SEVERITY_ORDER (severity i)) 3).

Definition key_le (a b : Z * Z) : Prop :=
  (fst a < fst b \/ (fst a = fst b /\ snd a <= snd b))%Z.

Definition ranked_le (a b : Issue) : Prop := key_le (sort_key a) (sort_key b).

(** the findings of a list that have a given key, in their order *)
Definition with_key (k : Z * Z) (l : list Issue) : list Issue :=
  List.filter (fun i => bool_decide (sort_key i = k)) l.

(** the number an identifier [SEO-ddd] stands for *)
Definition id_number (s : string) : option nat :=
  option_map Nat.of_uint (NilZero.uint_of_string (Js.drop 4 s)).

(** not the line separator *)
Definition not_nl (c : ascii) : bool := negb (Ascii.eqb c Js.nl).

(** ** Vocabulary of a repeated image fix *)

(** an image tag can be read at the head of a text *)
Definition img_at (y : string) : bool :=
  starts_with_ci "<img" y &&
  match Js.drop 4 y with String c _ => Js.is_ws c | EmptyString => false end.

(** the image tag of a line closes on that line: a closing bracket stands
    at or after the start of the tag *)
Definition closes_on_line (ln : string) : bool :=
  match Rx.exec ImagesFix.re_img ln with
  | Some m => negb (Js.indexOf ">" (Rx.index m) ln =? -1)%Z
  | None => false
  end.

(** the line an image finding points at, in a file of the given content *)
Definition target_line (content : string) (issue : Issue) : string :=
  line_at (Js.split_nl content) (Z.to_nat (line_index issue)).

Definition not_gt_char (c : ascii) : bool := negb (Ascii.eqb c ">").

(** * The rest of the aggregator: [generate-report.js] *)

Module ReportDoc.

(** [CATEGORY_LABELS] *)
Definition CATEGORY_LABELS : list (string * string) :=
  [("rendering", "Rendering"); ("title", "Title");
   ("meta-description", "Meta Description"); ("headings", "Headings");
   ("semantic-html", "Semantic HTML"); ("url-structure", "URL Structure");
   ("images", "Images"); ("internal-links", "Internal Links");
   ("gtm", "Google Tag Manager")].

(** [CATEGORY_LABELS[cat]], [None] for [undefined] *)
Definition label (cat : string) : option string :=
  FixCommon.lookup_script CATEGORY_LABELS cat.

(** the severity as the string the scanners write *)
Definition severity_name (s : Severity) : string :=
  match s with
  | critical => "critical"
  | high => "high"
  | medium => "medium"
  | low => "low"
  end.

(** [allIssues.filter(p).length] *)
Definition count (p : Issue -> bool) (allIssues : list Issue) : nat :=
  length (List.filter p allIssues).

Definition has_severity (s : Severity) (i : Issue) : bool :=
  bool_decide (severity i = s).

(** [i => i.category === cat] *)
Definition in_category (cat : string) (i : Issue) : bool :=
  String.eqb (category i) cat.

Record BySeverity : Type := mkBySeverity {
  n_critical : nat; n_high : nat; n_medium : nat; n_low : nat
}.

Record Summary : Type := mkSummary {
  totalIssues : nat;
  bySeverity : BySeverity;
  byCategory : list (string * nat);
  autoFixable : nat
}.

(** the [summary] object of the report, [byCategory] with one entry for
    each of [CATEGORIES], in their order *)
Definition summarize (allIssues : list Issue) : Summary :=
  mkSummary (length allIssues)
    (mkBySeverity (count (has_severity critical) allIssues)
       (count (has_severity high) allIssues)
       (count (has_severity medium) allIssues)
       (count (has_severity low) allIssues))
    (map (fun cat => (cat, count (in_category cat) allIssues)) Report.CATEGORIES)
    (count autoFixPossible allIssues).

Record ReportObj : Type := mkReport {
  generatedAt : string;
  r_projectRoot : string;
  r_framework : string;
  summary : Summary;
  issues : list Issue
}.

(** the report object [generateReport] builds from the scan results *)
Definition build (now root fw : string) (scanned : list Issue) : ReportObj :=
  let allIssues := Report.generateReport_issues fw scanned in
  mkReport now root fw (summarize allIssues) allIssues.

(** [report.summary.byCategory[cat]] *)
Fixpoint category_count (cat : string) (l : list (string * nat)) : option nat :=
  match l with
  | [] => None
  | (c, n) :: rest => if String.eqb c cat then Some n else category_count cat rest
  end.

Definition show_count (o : option nat) : string :=
  match o with Some n => Js.of_nat n | None => "undefined" end.

(** the lines pushed for one issue of a section; [issue.seoImpact] is the
    field [impact] of the data model *)
Definition issue_block (issue : Issue) : list string :=
  ["### " +:+ FixCommon.show (id issue) +:+ " ["
     +:+ Js.toUpperCase (severity_name (severity issue)) +:+ "]";
   EmptyString;
   "- **File:** " +:+ FixCommon.bt +:+ file issue +:+ FixCommon.bt
     +:+ (if line issue =? 0 then EmptyString
          else " (line " +:+ Js.of_nat (line issue) +:+ ")");
   "- **Problem:** " +:+ problem issue;
   "- **SEO Impact:** " +:+ impact issue;
   "- **Recommended Fix:** " +:+ recommendedFix issue;
   "- **Auto-fix Available:** " +:+ (if autoFixPossible issue then "Yes" else "No");
   EmptyString].

(** [report.issues.filter(i => i.category === cat)] *)
Definition catIssues (cat : string) (report : ReportObj) : list Issue :=
  List.filter (in_category cat) (issues report).

(** the lines of the detailed section of one category *)
Definition section (report : ReportObj) (cat : string) : list string :=
  ["## " +:+ FixCommon.show (label cat); EmptyString]
  ++ match catIssues cat report with
     | [] => ["No issues found."; EmptyString]
     | found => concat (map issue_block found)
     end.

(** the lines of [generateMarkdown] *)
Definition markdown_lines (report : ReportObj) : list string :=
  let s := summary report in
  ["# SEO Audit Report"; EmptyString;
   "**Generated:** " +:+ generatedAt report;
   "**Framework:** " +:+ r_framework report;
   "**Project:** " +:+ r_projectRoot report;
   EmptyString;
   "## Summary"; EmptyString;
   "| Metric | Count |";
   "|--------|-------|";
   "| Total Issues | " +:+ Js.of_nat (totalIssues s) +:+ " |";
   "| Critical | " +:+ Js.of_nat (n_critical (bySeverity s)) +:+ " |";
   "| High | " +:+ Js.of_nat (n_high (bySeverity s)) +:+ " |";
   "| Medium | " +:+ Js.of_nat (n_medium (bySeverity s)) +:+ " |";
   "| Low | " +:+ Js.of_nat (n_low (bySeverity s)) +:+ " |";
   "| Auto-fixable | " +:+ Js.of_nat (autoFixable s) +:+ " |";
   EmptyString;
   "### Issues by Category"; EmptyString;
   "| Category | Issues |";
   "|----------|--------|"]
  ++ map (fun cat => "| " +:+ FixCommon.show (label cat) +:+ " | "
                       +:+ show_count (category_count cat (byCategory s)) +:+ " |")
       Report.CATEGORIES
  ++ [EmptyString]
  ++ concat (map (section report) Report.CATEGORIES)
  ++ ["---"; EmptyString; "*Generated by seo-plugin*"].

Definition generateMarkdown (report : ReportObj) : string :=
  Js.join_nl (markdown_lines report).

End ReportDoc.

(** ** Vocabulary of the report *)

(** what a scanner says of a finding: all of it but the identifier and the
    framework, which the aggregator sets *)
Definition body (i : Issue) :=
  (severity i, category i, file i, line i, problem i, impact i, recommendedFix i,
   autoFixPossible i, wcag i).

(** the category is one of [CATEGORIES] *)
Definition known (i : Issue) : bool :=
  bool_decide (category i ∈ Report.CATEGORIES).

(** the findings in the order in which the detailed sections of the
    markdown report render them *)
Definition rendered (report : ReportDoc.ReportObj) : list Issue :=
  concat (map (fun cat => ReportDoc.catIssues cat report) Report.CATEGORIES).

(** the sum of the counts of a table *)
Definition total (table : list (string * nat)) : nat := list_sum (map snd table).

(** ** Vocabulary of the handlers' effects *)

(** a Next.js image component can be read at the head of a text *)
Definition Image_at (y : string) : bool :=
  Js.starts_with "<Image" y &&
  match Js.drop 6 y with String c _ => Js.is_ws c | EmptyString => false end.

(** ** Concrete pages for the handlers *)

Module Fixture.

(** an element that takes the keyboard focus by a role alone *)
Definition menu_page : string :=
  "<div role=" +:+ Js.quoted "button" +:+ ">Menu</div>".

Definition missing_tabindex : Issue :=
  Sample.scanned high "semantics" "index.html" 1
    "Element with interactive role missing tabindex".

(** an image tag that closes on its line *)
Definition logo_page : string :=
  "<p><img src=" +:+ Js.quoted "logo.png" +:+ "></p>".

(** a Next.js image component *)
Definition hero_page : string :=
  "<Image src=" +:+ Js.quoted "/hero.png" +:+ " />".

Definition logo_missing_alt : Issue :=
  Sample.scanned critical "images" "index.html" 1 "<img> tag missing alt attribute".

Definition image_missing_alt : Issue :=
  Sample.scanned critical "images" "index.html" 1
    "Next.js Image component missing alt attribute".

End Fixture.

(** ** Vocabulary of a run of an orchestrator *)

(** the findings for which the SEO loop body reaches the dry-run test, and
    the ones it skips before *)
Definition seo_eligible (i : Issue) : bool :=
  negb (String.eqb (category i) "rendering") && autoFixPossible i.

Definition seo_not_fixable (i : Issue) : bool :=
  negb (String.eqb (category i) "rendering") && negb (autoFixPossible i).

Definition is_rendering (i : Issue) : bool := String.eqb (category i) "rendering".

Definition not_fixable (i : Issue) : bool := negb (autoFixPossible i).

(** the handler processes a run starts for a finding: one when the finding
    is eligible and its category has a script, none otherwise *)
Definition spawn_of (env : Env) (scriptMap : list (string * string))
    (eligible : Issue -> bool) (i : Issue) : list Event :=
  if eligible i then
    match FixCommon.lookup_script scriptMap (category i) with
    | Some script => [Spawn (path_join env (scriptsDir env) script) i]
    | None => []
    end
  else [].

(** the keys of the entries of the three lists *)
Definition fixed_keys (l : list FixedEntry) := map (fun e => (f_id e, f_file e, f_problem e)) l.
Definition skipped_keys (l : list SkippedEntry) := map (fun e => (s_id e, s_file e, s_problem e)) l.
Definition manual_keys (l : list ManualEntry) := map (fun e => (r_id e, r_file e, r_problem e)) l.

(** the selector reads as an identifier of the given prefix *)
Definition is_id_filter (prefix filter : string) : bool :=
  Rx.test (FixCommon.re_id prefix) filter.

(** each step files its finding at the end of one of the three lists *)
Definition files_last (step : Issue -> Buckets * World -> Buckets * World) : Prop :=
  forall i b w,
    let b' := fst (step i (b, w)) in
    (fixed_keys (b_fixed b') = fixed_keys (b_fixed b) ++ [key i] /\
     skipped_keys (b_skipped b') = skipped_keys (b_skipped b) /\
     manual_keys (b_manual b') = manual_keys (b_manual b)) \/
    (fixed_keys (b_fixed b') = fixed_keys (b_fixed b) /\
     skipped_keys (b_skipped b') = skipped_keys (b_skipped b) ++ [key i] /\
     manual_keys (b_manual b') = manual_keys (b_manual b)) \/
    (fixed_keys (b_fixed b') = fixed_keys (b_fixed b) /\
     skipped_keys (b_skipped b') = skipped_keys (b_skipped b) /\
     manual_keys (b_manual b') = manual_keys (b_manual b) ++ [key i]).

(** * The walk of the source tree: [findFiles] of the scanners *)

Module SourceTree.

(** An entry of a directory as [readdirSync] with [withFileTypes] gives it:
    a directory, with its own listing ([None] when [readdirSync] throws on
    it), or anything else, which the walk takes for a file. *)
#[warnings="-register-all"]
Inductive Entry : Type :=
| File (name : string)
| Dir (name : string) (listing : option (list Entry)).

Definition entry_name (e : Entry) : string :=
  match e with File n => n | Dir n _ => n end.

(** [entry.name.startsWith('.') || entry.name === 'node_modules' ||
    entry.name === 'dist' || entry.name === 'build' ||
    entry.name === '.next'] *)
Definition skipped (name : string) : bool :=
  Js.starts_with "." name || String.eqb name "node_modules" || String.eqb name "dist"
  || String.eqb name "build" || String.eqb name ".next".

Section Walk.
Variable path_join : string -> string -> string.
Variable pattern : string -> bool.
Variable maxDepth : nat.

(** one turn of the loop over the entries of [dir], read at depth [depth],
    with the recursive call of [findFiles] on a directory *)
Fixpoint visit (depth : nat) (dir : string) (e : Entry) {struct e} : list string :=
  if skipped (entry_name e) then []
  else
    match e with
    | Dir name listing =>
        let fullPath := path_join dir name in
        if maxDepth <? depth + 1 then []
        else match listing with
             | Some entries => concat (map (visit (depth + 1) fullPath) entries)
             | None => []
             end
    | File name => if pattern name then [path_join dir name] else []
    end.

(** [findFiles(dir, pattern, maxDepth, depth)]; [found] is what the disk
    has at [dir]: nothing ([existsSync] is false), or an entry *)
Definition findFiles (depth : nat) (dir : string) (found : option Entry) : list string :=
  if maxDepth <? depth then []
  else match found with
       | Some (Dir _ (Some entries)) => concat (map (visit depth dir) entries)
       | Some (Dir _ None) => []
       | Some (File _) => []
       | None => []
       end.

End Walk.

(** the files of a tree, each with the names of the directories from the
    top down to it, before any pruning *)
Fixpoint all_files (trail : list string) (e : Entry) {struct e}
    : list (list string * string) :=
  match e with
  | File name => [(trail, name)]
  | Dir name (Some entries) => concat (map (all_files (trail ++ [name])) entries)
  | Dir name None => []
  end.

(** the path [findFiles] builds for a file *)
Definition located (path_join : string -> string -> string) (dir : string)
    (f : list string * string) : string :=
  path_join (fold_left path_join (fst f) dir) (snd f).

(** what the walk keeps: no skipped name on the way or at the end, a file
    name of the pattern, and the directory of the file within the depth *)
Definition kept (pattern : string -> bool) (maxDepth depth : nat)
    (f : list string * string) : bool :=
  forallb (fun n => negb (skipped n)) (fst f) && negb (skipped (snd f))
  && pattern (snd f) && (depth + length (fst f) <=? maxDepth).

End SourceTree.

(** ** Vocabulary of the image scanner *)

(** the finding lies within the lines of a text *)
Definition within_lines (f : Issue) (content : string) : Prop :=
  1 <= line f <= length (Js.split_nl content).

(** what holds of every finding of the scan of one file *)
Definition well_formed (relPath content : string) (f : Issue) : Prop :=
  id f = None /\ category f = "images" /\ file f = relPath /\
  wcag f = Some ("1.1.1", "A") /\ framework f = None /\
  within_lines f content /\
  out_of_range (line_index f) (Js.split_nl content) = false /\
  (autoFixPossible f = false <-> severity f = high) /\
  severity f <> low.

(** * The heading fix handler: [apply-heading-fix.js] *)

Module HeadingFix.

(** [/<h1[\s>]/i] *)
Definition re_h1 : Rx.regex :=
  Rx.Seq (Rx.lit_ci "<h1") (Rx.Chr (fun c => Js.is_ws c || Rx.is_char ">" c)).

(** the arrow of the problem text of a skipped level, U+2192, which is no
    ASCII character: it is written as the three bytes of its UTF-8
    encoding, and so is a problem text that holds it *)
Definition arrow : string := "→".

(** [/H(\d)\s*→\s*H(\d)\s*\(expected\s*H(\d)\)/i] *)
Definition re_skipped : Rx.regex :=
  Rx.seqs [Rx.Chr (Rx.is_char_ci "H"); Rx.Group 1 (Rx.Chr Js.is_digit);
           Rx.Star Js.is_ws; Rx.lit_ci arrow; Rx.Star Js.is_ws;
           Rx.Chr (Rx.is_char_ci "H"); Rx.Group 2 (Rx.Chr Js.is_digit);
           Rx.Star Js.is_ws; Rx.Chr (Rx.is_char_ci "("); Rx.lit_ci "expected";
           Rx.Star Js.is_ws; Rx.Chr (Rx.is_char_ci "H");
           Rx.Group 3 (Rx.Chr Js.is_digit); Rx.Chr (Rx.is_char_ci ")")].

(** [s.replace(new RegExp(p, 'gi'), r)] for a pattern [p] of literal
    characters, not empty, and a replacement [r] without [$]: the matches
    are taken from left to right, the search resuming behind each match;
    [skip] counts the characters of the current match still to pass *)
Fixpoint replace_all_from (skip : nat) (p r s : string) : string :=
  match s with
  | EmptyString => EmptyString
  | String c s' =>
      match skip with
      | S k => replace_all_from k p r s'
      | 0 =>
          if starts_with_ci p s then r +:+ replace_all_from (Js.len p - 1) p r s'
          else String c (replace_all_from 0 p r s')
      end
  end.

Definition replace_all_ci (p r s : string) : string := replace_all_from 0 p r s.

(** [line.replace(/<old/gi, '<new').replace(/<\/old>/gi, '</new>')], the
    rewriting both branches apply to a line *)
Definition retag (oldTag newTag ln : string) : string :=
  replace_all_ci ("</" +:+ oldTag +:+ ">") ("</" +:+ newTag +:+ ">")
    (replace_all_ci ("<" +:+ oldTag) ("<" +:+ newTag) ln).

(** the callback of [lines.map], run over the lines in their order with
    the counter [h1Count] and the flag [modified] it updates; the result
    holds the new lines and the two variables as the loop leaves them *)
Fixpoint convert_extra (h1Count : nat) (modified : bool) (lines : list string)
    : list string * (nat * bool) :=
  match lines with
  | [] => ([], (h1Count, modified))
  | ln :: rest =>
      if Rx.test re_h1 ln then
        if 1 <? S h1Count then
          let '(newLines, final) := convert_extra (S h1Count) true rest in
          (retag "h1" "h2" ln :: newLines, final)
        else
          let '(newLines, final) := convert_extra (S h1Count) modified rest in
          (ln :: newLines, final)
      else
        let '(newLines, final) := convert_extra h1Count modified rest in
        (ln :: newLines, final)
  end.

(** the text of [parseInt(g)] in a template, for [g] one digit or
    [undefined] *)
Definition level (g : option string) : string :=
  match g with Some d => d | None => "NaN" end.

Section Handler.
Variable path_join : string -> string -> string.
Variable projectRoot : string.
Variable issue : Issue.

Definition applyHeadingFix (w : World) : Result * World :=
  let filePath := path_join projectRoot (file issue) in
  match files w !! filePath with
  | None => (failure ("File not found: " +:+ file issue), w)
  | Some content =>
      let lines := Js.split_nl content in
      if Js.includes "Multiple H1" (problem issue) then
        let '(newLines, (h1Count, modified)) := convert_extra 0 false lines in
        if modified then
          let w1 := writeFileSync (filePath +:+ ".bak") content w in
          let w2 := writeFileSync filePath (Js.join_nl newLines) w1 in
          (fixed_with ("Converted " +:+ Js.of_nat (h1Count - 1)
                         +:+ " extra H1 tag(s) to H2."), w2)
        else (failure "Could not locate extra H1 tags to fix", w)
      else if Js.includes "Skipped heading level" (problem issue) then
        let located :=
          match Rx.exec re_skipped (problem issue) with
          | Some m =>
              let actualLevel := level (Rx.group (problem issue) m 2) in
              let expectedLevel := level (Rx.group (problem issue) m 3) in
              let targetLine := (Z.of_nat (line issue) - 1)%Z in
              if (0 <=? targetLine)%Z && (targetLine <? Z.of_nat (length lines))%Z then
                let ln := line_at lines (Z.to_nat targetLine) in
                let oldTag := "h" +:+ actualLevel in
                let newTag := "h" +:+ expectedLevel in
                if Js.includes ("<" +:+ oldTag) (Js.toLowerCase ln) then
                  let lines' := <[Z.to_nat targetLine := retag oldTag newTag ln]> lines in
                  let w1 := writeFileSync (filePath +:+ ".bak") content w in
                  let w2 := writeFileSync filePath (Js.join_nl lines') w1 in
                  Some (fixed_with ("Changed <" +:+ oldTag +:+ "> to <" +:+ newTag
                                      +:+ "> at line " +:+ Js.of_nat (line issue) +:+ "."),
                        w2)
                else None
              else None
          | None => None
          end in
        match located with
        | Some outcome => outcome
        | None => (failure "Could not locate the heading tag to fix", w)
        end
      else (failure "Heading fix pattern not recognized", w)
  end.

End Handler.

End HeadingFix.

(** ** Vocabulary of the heading fix *)

(** [p] occurs in [s], up to the case of the letters *)
Fixpoint includes_ci (p s : string) : bool :=
  starts_with_ci p s ||
  match s with
  | EmptyString => false
  | String _ s' => includes_ci p s'
  end.

(** the lines of a file that open a first-level heading *)
Definition h1_lines (lines : list string) : list string :=
  List.filter (Rx.test HeadingFix.re_h1) lines.

(** ** Concrete pages for the heading fix *)

Module Outline.

(** a page with two first-level headings, on its first and third line *)
Definition two_titles : string :=
  "<h1>Shop</h1>" +:+ String Js.nl ("<p>New</p>" +:+ String Js.nl "<H1 class=x>Sale</H1>").

Definition multiple_h1 : Issue :=
  Sample.scanned high "headings" "index.html" 3
    "Multiple H1 tags found (2 total). Only one H1 per page is recommended.".

(** a page whose second heading skips a level *)
Definition deep_page : string := "<h1>Shop</h1>" +:+ String Js.nl "<h3>Sale</h3>".

Definition skipped_level : Issue :=
  Sample.scanned medium "headings" "index.html" 2
    "Skipped heading level: H1 → H3 (expected H2)".

End Outline.

(** * The image fix handler of the SEO plugin: [apply-image-fix.js] *)

Module SeoImageFix.

(** [/<img\s/i] *)
Definition re_img : Rx.regex := Rx.Seq (Rx.lit_ci "<img") (Rx.Chr Js.is_ws).

(** [/<Image\s/] *)
Definition re_Image : Rx.regex := Rx.Seq (Rx.lit "<Image") (Rx.Chr Js.is_ws).

(** [/>$/] *)
Definition re_last_gt : Rx.regex := Rx.Seq (Rx.Chr (Rx.is_char ">")) Rx.Eol.

(** the class of [.]: any character but a line terminator *)
Definition not_line_end (c : ascii) : bool :=
  negb (Ascii.eqb c Js.nl) && negb (Ascii.eqb c "013").

(** the group [import\s+.*\n] of [/^(import\s+.*\n)*/m] *)
Definition re_import : Rx.regex :=
  Rx.seqs [Rx.lit "import"; Rx.plus Js.is_ws; Rx.Star not_line_end;
           Rx.Chr (Rx.is_char Js.nl)].

(** the end of the match of [/^(import\s+.*\n)*/m].  The match is the one at
    index 0, where [^] holds, and it never fails, as the group may be taken
    no time at all; nothing stands behind the repetition, so each turn takes
    the first way in which the group matches, and the repetition ends where
    the group matches no more.  [s] is the text from [pos] on; a turn takes
    eight characters or more, so the length of the text is fuel enough; the
    character before the position plays no part in this pattern. *)
Fixpoint import_block (fuel : nat) (pos : nat) (s : string) : nat :=
  match fuel with
  | 0 => pos
  | S fuel' =>
      match Rx.match_here re_import None pos s with
      | Some m => import_block fuel' (Rx.stop m) (Js.drop (Rx.stop m - pos) s)
      | None => pos
      end
  end.

(** [importMatch.index + importMatch[0].length] *)
Definition insertPos (content : string) : nat :=
  import_block (S (Js.len content)) 0 content.

Definition alt_todo : string := "alt=" +:+ Js.quoted "TODO: Add descriptive alt text" +:+ " ".

(** [import Image from 'next/image';] *)
Definition import_line : string := "import Image from 'next/image';".

(** [targetLine >= 0 && targetLine < lines.length] for
    [targetLine = issue.line - 1] *)
Definition on_a_line (issue : Issue) (lines : list string) : bool :=
  (0 <=? Z.of_nat (line issue) - 1)%Z
  && (Z.of_nat (line issue) - 1 <? Z.of_nat (length lines))%Z.

(** the new line of the third branch: the tag renamed, and a closing
    bracket at the end of the line turned into [ />] when the line holds no
    [/>] *)
Definition to_component (ln : string) : string :=
  let newLine := Rx.replace_first re_img (fun _ => "<Image ") ln in
  if Js.includes "/>" newLine then newLine
  else Rx.replace_first re_last_gt (fun _ => " />") newLine.

Section Handler.
Variable path_join : string -> string -> string.
Variable projectRoot : string.
Variable issue : Issue.

(** the two writes of a branch that succeeds *)
Definition rewrite_file (filePath content : string) (lines : list string)
    (what : string) (w : World) : Result * World :=
  let w1 := writeFileSync (filePath +:+ ".bak") content w in
  let w2 := writeFileSync filePath (Js.join_nl lines) w1 in
  (fixed_with what, w2).

Definition applyImageFix (w : World) : Result * World :=
  let filePath := path_join projectRoot (file issue) in
  match files w !! filePath with
  | None => (failure ("File not found: " +:+ file issue), w)
  | Some content =>
      let lines := Js.split_nl content in
      let targetLine := Z.to_nat (Z.of_nat (line issue) - 1) in
      if Js.includes "missing alt attribute" (problem issue)
         || Js.includes "missing alt" (problem issue) then
        let ln := line_at lines targetLine in
        if on_a_line issue lines && Rx.test re_img ln then
          rewrite_file filePath content
            (<[targetLine := Rx.replace_first re_img (fun _ => "<img " +:+ alt_todo) ln]> lines)
            ("Added placeholder alt attribute at line " +:+ Js.of_nat (line issue)
               +:+ ". Please update with descriptive text.") w
        else if on_a_line issue lines && Rx.test re_Image ln then
          rewrite_file filePath content
            (<[targetLine := Rx.replace_first re_Image (fun _ => "<Image " +:+ alt_todo) ln]>
               lines)
            ("Added placeholder alt prop to Image component at line "
               +:+ Js.of_nat (line issue) +:+ ". Please update.") w
        else (failure "Could not locate image tag at specified line", w)
      else if Js.includes "native <img>" (problem issue)
              && Js.includes "next/image" (problem issue) then
        let hasImport :=
          Js.includes "from 'next/image'" content
          || Js.includes ("from " +:+ Js.quoted "next/image") content in
        let newContent :=
          if hasImport then content
          else Js.take (insertPos content) content
                 +:+ (import_line +:+ String Js.nl EmptyString)
                 +:+ Js.drop (insertPos content) content in
        let newLines := Js.split_nl newContent in
        let ln := line_at newLines targetLine in
        if on_a_line issue newLines && Rx.test re_img ln then
          rewrite_file filePath content (<[targetLine := to_component ln]> newLines)
            ("Converted <img> to <Image> at line " +:+ Js.of_nat (line issue)
               +:+ ". Verify width/height props are set.") w
        else (failure "Could not locate <img> tag to convert", w)
      else (failure "Image fix pattern not recognized", w)
  end.

End Handler.

End SeoImageFix.

(** ** Concrete pages for the image fix of the SEO plugin *)

Module SeoPage.

Definition missing_alt : Issue :=
  Sample.scanned high "images" "index.html" 1 "<img> tag missing alt attribute".

(** a component with an image tag on its second line, and no import *)
Definition card : string :=
  "<main>" +:+ String Js.nl
    ("<img src=" +:+ Js.quoted "a.png" +:+ " />" +:+ String Js.nl "</main>").

Definition native_img : Issue :=
  Sample.scanned high "images" "index.html" 2
    "Using native <img> tag instead of next/image component".

End SeoPage.

(** * Properties *)

(** ** Strings and literal patterns *)

Section StrFacts.

Lemma str_app_cons c s t : String c s +:+ t = String c (s +:+ t).
Proof. reflexivity. Qed.

Lemma str_app_nil_l s : EmptyString +:+ s = s.
Proof. reflexivity. Qed.

Lemma str_app_nil_r s : s +:+ EmptyString = s.
Proof. induction s as [|c s IH]; [done | by rewrite str_app_cons, IH]. Qed.

Lemma str_app_assoc a b c : (a +:+ b) +:+ c = a +:+ b +:+ c.
Proof. induction a as [|x a IH]; [done | by rewrite !str_app_cons, IH]. Qed.

Lemma str_len_app a b : Js.len (a +:+ b) = Js.len a + Js.len b.
Proof.
  unfold Js.len. induction a as [|x a IH]; [done |].
  rewrite str_app_cons. cbn. by rewrite IH.
Qed.

Lemma str_take_app a b : Js.take (Js.len a) (a +:+ b) = a.
Proof.
  unfold Js.len. induction a as [|x a IH]; [by destruct b |].
  rewrite str_app_cons. cbn. by rewrite IH.
Qed.

Lemma str_drop_app a b : Js.drop (Js.len a) (a +:+ b) = b.
Proof.
  unfold Js.len. induction a as [|x a IH]; [done |]. rewrite str_app_cons. cbn. exact IH.
Qed.

Lemma str_take_drop n s : Js.take n s +:+ Js.drop n s = s.
Proof.
  revert s. induction n as [|n IH]; intros s; [done |].
  destruct s as [|c s]; cbn; [done |]. by rewrite str_app_cons, IH.
Qed.

Lemma starts_with_app p s : Js.starts_with p (p +:+ s) = true.
Proof.
  induction p as [|c p IH]; [done |]. rewrite str_app_cons. cbn.
  by rewrite Ascii.eqb_refl.
Qed.

Lemma starts_with_inv p s : Js.starts_with p s = true -> s = p +:+ Js.drop (Js.len p) s.
Proof.
  unfold Js.len. revert s. induction p as [|c p IH]; intros s H; [done |].
  destruct s as [|d s]; [done |]. cbn in H.
  destruct (Ascii.eqb_spec c d) as [->|]; [| done].
  rewrite str_app_cons. cbn. by rewrite <- IH.
Qed.

Lemma includes_cons p c s :
  Js.includes p (String c s) = Js.starts_with p (String c s) || Js.includes p s.
Proof. reflexivity. Qed.

Lemma includes_app x p y : Js.includes p (x +:+ p +:+ y) = true.
Proof.
  induction x as [|c x IH].
  - rewrite str_app_nil_l. destruct (p +:+ y) eqn:E.
    + destruct p; [done | discriminate].
    + rewrite includes_cons, <- E, starts_with_app. done.
  - rewrite str_app_cons, includes_cons, IH. apply orb_true_r.
Qed.

(** the first occurrence of [p] in [s] *)
Lemma includes_inv p s :
  Js.includes p s = true ->
  exists x y, s = x +:+ p +:+ y /\
    forall x' y', s = x' +:+ p +:+ y' -> Js.len x <= Js.len x'.
Proof.
  induction s as [|c s IH]; intros H.
  - cbn in H. rewrite orb_false_r in H. exists EmptyString, EmptyString.
    destruct p; [| done]. split; [done |]. intros; unfold Js.len; cbn; lia.
  - rewrite includes_cons in H. destruct (Js.starts_with p (String c s)) eqn:Hs.
    + exists EmptyString, (Js.drop (Js.len p) (String c s)). split.
      * by apply starts_with_inv.
      * intros; unfold Js.len; cbn; lia.
    + cbn in H. destruct (IH H) as (x & y & -> & Hfirst).
      exists (String c x), y. split; [done |].
      intros [|c' x'] y' Heq.
      * rewrite str_app_nil_l in Heq. rewrite Heq, starts_with_app in Hs. done.
      * rewrite !str_app_cons in Heq. injection Heq as -> Heq.
        specialize (Hfirst _ _ Heq). unfold Js.len in *. cbn. lia.
Qed.

End StrFacts.

Section LitFacts.
Import Rx.

Lemma lit_cons {R} c l st cs (k : mstate -> caps -> option R) :
  rmatch (lit (String c l)) st cs k
  = rmatch (Chr (is_char c)) st cs (fun st' cs' => rmatch (lit l) st' cs' k).
Proof. destruct l; reflexivity. Qed.

Lemma rmatch_lit {R} l : forall st cs (k : mstate -> caps -> option R),
  rmatch (lit l) st cs k
  = if Js.starts_with l (m_rest st)
    then k (MState (last_char (m_prev st) l) (m_pos st + Js.len l)
              (Js.drop (Js.len l) (m_rest st))) cs
    else None.
Proof.
  induction l as [|c l IH]; intros [prev pos rest] cs k.
  - cbn. by rewrite Nat.add_0_r.
  - rewrite lit_cons. cbn [rmatch m_rest m_pos m_prev].
    destruct rest as [|d rest]; [reflexivity |]. cbn [Js.starts_with]. unfold is_char.
    destruct (Ascii.eqb_spec c d) as [->|]; [| done].
    rewrite IH. cbn [m_rest m_pos m_prev last_char Js.drop Js.len String.length].
    unfold Js.len. by rewrite Nat.add_succ_r.
Qed.

Lemma search_cons r prev pos c s :
  search r prev pos (String c s)
  = match match_here r prev pos (String c s) with
    | Some m => Some m
    | None => search r (Some c) (S pos) s
    end.
Proof. reflexivity. Qed.

Lemma match_here_lit l prev pos s :
  match_here (lit l) prev pos s
  = if Js.starts_with l s then Some (MatchResult pos (pos + Js.len l) []) else None.
Proof. unfold match_here. by rewrite rmatch_lit. Qed.

Lemma test_lit l s : test (lit l) s = Js.includes l s.
Proof.
  unfold test, exec. generalize (@None ascii) 0.
  induction s as [|c s IH]; intros prev pos.
  - cbn [search]. rewrite match_here_lit. cbn [Js.includes].
    destruct (Js.starts_with l EmptyString); done.
  - rewrite search_cons, match_here_lit, includes_cons.
    destruct (Js.starts_with l (String c s)); [done |]. apply IH.
Qed.

Lemma search_lit l s : forall prev pos m,
  search (lit l) prev pos s = Some m ->
  exists x y, s = x +:+ l +:+ y /\
    index m = pos + Js.len x /\ stop m = pos + Js.len x + Js.len l /\
    forall x' y', s = x' +:+ l +:+ y' -> Js.len x <= Js.len x'.
Proof.
  induction s as [|c s IH]; intros prev pos m H.
  - cbn [search] in H. rewrite match_here_lit in H.
    destruct (Js.starts_with l EmptyString) eqn:Hs; [| done]. injection H as <-.
    exists EmptyString, EmptyString. destruct l; [| done].
    cbn. repeat split; try lia.
  - rewrite search_cons, match_here_lit in H.
    destruct (Js.starts_with l (String c s)) eqn:Hs.
    + injection H as <-. exists EmptyString, (Js.drop (Js.len l) (String c s)).
      split; [by apply starts_with_inv |]. cbn [index stop]. unfold Js.len at 1 3. cbn.
      repeat split; try lia.
    + destruct (IH _ _ _ H) as (x & y & -> & Hi & Hst & Hfirst).
      exists (String c x), y. split; [done |]. unfold Js.len in *. cbn.
      repeat split; try lia.
      intros [|c' x'] y' Heq.
      * rewrite str_app_nil_l in Heq. rewrite Heq, starts_with_app in Hs. done.
      * rewrite !str_app_cons in Heq. injection Heq as -> Heq.
        specialize (Hfirst _ _ Heq). cbn. lia.
Qed.

Lemma str_drop_add a b s : Js.drop (a + b) s = Js.drop b (Js.drop a s).
Proof.
  revert s. induction a as [|a IH]; intros s; [done |].
  destruct s as [|c s]; cbn; [by destruct b | apply IH].
Qed.

Lemma replace_first_lit l r s :
  Js.includes l s = true ->
  exists x y, s = x +:+ l +:+ y /\
    (forall x' y', s = x' +:+ l +:+ y' -> Js.len x <= Js.len x') /\
    replace_first (lit l) (fun _ => r) s = x +:+ r +:+ y.
Proof.
  intros Hin. rewrite <- test_lit in Hin. unfold test in Hin. unfold replace_first.
  destruct (exec (lit l) s) as [m|] eqn:Hex; [| done].
  destruct (search_lit _ _ _ _ _ Hex) as (x & y & -> & Hi & Hst & Hfirst).
  exists x, y. split; [done |]. split; [exact Hfirst |].
  rewrite Hi, Hst. cbn [Nat.add]. rewrite str_take_app, str_drop_add, str_drop_app, str_drop_app. done.
Qed.

End LitFacts.

(** ** Searches, and the patterns of the retag handler *)

Section SearchFacts.
Import Rx.

(** where a search succeeds: at the first position at which the pattern
    matches *)
Lemma search_some r s : forall prev pos m,
  search r prev pos s = Some m ->
  exists x y, s = x +:+ y /\
    match_here r (last_char prev x) (pos + Js.len x) y = Some m /\
    forall x' y', s = x' +:+ y' -> Js.len x' < Js.len x ->
      match_here r (last_char prev x') (pos + Js.len x') y' = None.
Proof.
  induction s as [|c s IH]; intros prev pos m H.
  - cbn [search] in H. destruct (match_here r prev pos EmptyString) eqn:Hm; [| done].
    injection H as ->. exists EmptyString, EmptyString. unfold Js.len. cbn.
    rewrite Nat.add_0_r. repeat split; [done |]. intros; lia.
  - rewrite search_cons in H. destruct (match_here r prev pos (String c s)) eqn:Hm.
    + injection H as ->. exists EmptyString, (String c s). unfold Js.len. cbn.
      rewrite Nat.add_0_r. repeat split; [done |]. intros; lia.
    + destruct (IH _ _ _ H) as (x & y & -> & Hy & Hfirst).
      exists (String c x), y. unfold Js.len in *. cbn [last_char String.length].
      rewrite Nat.add_succ_r. repeat split; [done |].
      intros [|c' x'] y' Heq Hlt.
      * rewrite str_app_nil_l in Heq. subst y'. cbn. by rewrite Nat.add_0_r.
      * rewrite !str_app_cons in Heq. injection Heq as -> Heq.
        cbn [last_char String.length] in *. rewrite Nat.add_succ_r.
        apply Hfirst; [done | lia].
Qed.

Lemma match_here_open tag prev pos s :
  match_here (SemanticsFix.re_open tag) prev pos s
  = match s with
    | String c0 s0 =>
        if Ascii.eqb "<" c0 then
          if Js.starts_with tag s0 then
            match Js.drop (Js.len tag) s0 with
            | String c b =>
                if Js.is_ws c
                then Some (MatchResult pos (S (S pos + Js.len tag))
                             [(1, (S pos + Js.len tag, S (S pos + Js.len tag)))])
                else None
            | EmptyString => None
            end
          else None
        else None
    | EmptyString => None
    end.
Proof.
  unfold match_here, SemanticsFix.re_open. cbn [seqs rmatch m_rest m_pos m_prev].
  destruct s as [|c0 s0]; [done |]. unfold is_char at 1.
  destruct (Ascii.eqb "<" c0); [| done].
  rewrite rmatch_lit. cbn [m_rest m_pos m_prev].
  destruct (Js.starts_with tag s0); [| done].
  cbn [rmatch m_rest m_pos m_prev].
  destruct (Js.drop (Js.len tag) s0) as [|c b]; [done |].
  destruct (Js.is_ws c); [| done].
  reflexivity.
Qed.

Lemma str_drop_app_eq n a b : n = Js.len a -> Js.drop n (a +:+ b) = b.
Proof. intros ->. apply str_drop_app. Qed.

Lemma str_take_app_eq n a b : n = Js.len a -> Js.take n (a +:+ b) = a.
Proof. intros ->. apply str_take_app. Qed.

Lemma str_len_cons c s : Js.len (String c s) = S (Js.len s).
Proof. reflexivity. Qed.

(** what [replace_open] does to a line: nothing when the line has no
    opening tag of that name, else the leftmost one is renamed *)
Lemma replace_open_spec tag ln :
  (exec (SemanticsFix.re_open tag) ln = None /\ SemanticsFix.replace_open tag ln = ln) \/
  exists a c b,
    ln = a +:+ ("<" +:+ tag) +:+ String c b /\ Js.is_ws c = true /\
    SemanticsFix.replace_open tag ln = a +:+ button_open +:+ String c b.
Proof.
  unfold SemanticsFix.replace_open, replace_first.
  destruct (exec (SemanticsFix.re_open tag) ln) as [m|] eqn:Hex; [right | by left].
  destruct (search_some _ _ _ _ _ Hex) as (x & y & -> & Hm & _).
  rewrite match_here_open in Hm.
  destruct y as [|c0 s0]; [done |].
  destruct (Ascii.eqb_spec "<" c0) as [<-|]; [| done].
  destruct (Js.starts_with tag s0) eqn:Hs; [| done].
  apply starts_with_inv in Hs.
  destruct (Js.drop (Js.len tag) s0) as [|c b] eqn:Hd; [done |].
  destruct (Js.is_ws c) eqn:Hws; [| done].
  injection Hm as <-. rewrite Hs. clear Hs Hd Hex.
  exists x, c, b. split; [by rewrite str_app_assoc |]. split; [exact Hws |].
  unfold group. cbn [index stop groups lookup_group Nat.eqb Nat.add].
  rewrite str_take_app.
  replace (S (Js.len x + Js.len tag)) with (Js.len (x +:+ "<" +:+ tag))
    by (rewrite !str_len_app; unfold Js.len; cbn; lia).
  replace (S (Js.len (x +:+ "<" +:+ tag)) - Js.len (x +:+ "<" +:+ tag)) with 1 by lia.
  replace (x +:+ String "<" (tag +:+ String c b)) with ((x +:+ "<" +:+ tag) +:+ String c b)
    by (by rewrite !str_app_assoc).
  rewrite str_drop_app.
  replace (S (Js.len (x +:+ "<" +:+ tag))) with (Js.len ((x +:+ "<" +:+ tag) +:+ String c EmptyString))
    by (rewrite (str_len_app _ (String c EmptyString)); unfold Js.len; cbn; lia).
  replace ((x +:+ "<" +:+ tag) +:+ String c b)
    with (((x +:+ "<" +:+ tag) +:+ String c EmptyString) +:+ b)
    by (by rewrite !str_app_assoc).
  rewrite str_drop_app. cbn [Js.take]. unfold button_open.
  by rewrite !str_app_assoc.
Qed.

Lemma includes_suffix p a s : Js.includes p (a +:+ s) = false -> Js.includes p s = false.
Proof.
  induction a as [|c a IH]; [done |]. rewrite str_app_cons, includes_cons.
  intros H. apply orb_false_elim in H as [_ H]. by apply IH.
Qed.

Lemma starts_with_before_lt p : forall a s1 s2,
  Js.includes "<" p = false ->
  Js.starts_with p (a +:+ String "<" s1) = Js.starts_with p (a +:+ String "<" s2).
Proof.
  induction p as [|x p IH]; intros a s1 s2 Hp; [by destruct a |].
  rewrite includes_cons in Hp. apply orb_false_elim in Hp as [Hx Hp].
  destruct a as [|c a].
  - rewrite !str_app_nil_l. cbn [Js.starts_with] in *.
    rewrite Ascii.eqb_sym. destruct (Ascii.eqb "<" x); [by destruct p | done].
  - rewrite !str_app_cons. cbn [Js.starts_with].
    destruct (Ascii.eqb x c); [by apply IH | done].
Qed.

(** renaming what follows a bracket cannot create an occurrence of a
    pattern that has its only bracket in front *)
Lemma includes_retag p a s1 s2 :
  Js.includes "<" p = false ->
  Js.includes (String "<" p) (a +:+ String "<" s1) = false ->
  Js.includes (String "<" p) (String "<" s2) = false ->
  Js.includes (String "<" p) (a +:+ String "<" s2) = false.
Proof.
  intros Hp H1 H2. induction a as [|c a IH]; [done |].
  rewrite str_app_cons, includes_cons in *.
  apply orb_false_elim in H1 as [Hs H1]. rewrite (IH H1), orb_false_r.
  cbn [Js.starts_with] in *. destruct (Ascii.eqb "<" c); [| done].
  by rewrite (starts_with_before_lt p a s2 s1).
Qed.

Lemma no_new_closing tag a c b :
  tag = "div" \/ tag = "span" ->
  Js.includes (closing tag) (a +:+ ("<" +:+ tag) +:+ String c b) = false ->
  Js.includes (closing tag) (a +:+ button_open +:+ String c b) = false.
Proof.
  intros Htag H.
  pose proof (includes_suffix _ _ _ H) as Hrest.
  assert (Ht : Js.includes (closing tag) (String c b) = false).
  { destruct Htag as [-> | ->]; apply (includes_suffix _ ("<" +:+ _)) in Hrest; exact Hrest. }
  remember (String c b) as t eqn:Et. clear Et Hrest.
  destruct Htag as [-> | ->].
  - apply (includes_retag "/div>" a ("div" +:+ t)); [reflexivity | exact H |].
    change (button_open +:+ t) with ("<button type=" +:+ Js.quoted "button" +:+ t) in *.
    cbv [String.append Js.quoted closing] in Ht |- *.
    repeat (rewrite includes_cons; cbn [Js.starts_with Ascii.eqb Bool.eqb orb]).
    exact Ht.
  - apply (includes_retag "/span>" a ("span" +:+ t)); [reflexivity | exact H |].
    cbv [String.append Js.quoted closing] in Ht |- *.
    repeat (rewrite includes_cons; cbn [Js.starts_with Ascii.eqb Bool.eqb orb]).
    exact Ht.
Qed.

(** a match somewhere makes the search succeed *)
Lemma search_app_some r x y : forall prev pos,
  match_here r (last_char prev x) (pos + Js.len x) y <> None ->
  search r prev pos (x +:+ y) <> None.
Proof.
  induction x as [|c x IH]; intros prev pos H.
  - rewrite str_app_nil_l. unfold Js.len in H. cbn in H. rewrite Nat.add_0_r in H.
    destruct y; cbn [search]; by destruct (match_here r prev pos _).
  - rewrite str_app_cons, search_cons.
    destruct (match_here r prev pos _); [done |]. apply IH.
    unfold Js.len in *. cbn [last_char String.length] in H.
    by rewrite Nat.add_succ_r in H.
Qed.

Lemma match_here_div_span prev pos s m :
  match_here SemanticsFix.re_div_span prev pos s = Some m ->
  exists tag c b,
    (tag = "div" \/ tag = "span") /\ s = ("<" +:+ tag) +:+ String c b /\
    Js.is_ws c = true /\ index m = pos /\
    groups m = [(1, (S pos, S pos + Js.len tag))].
Proof.
  unfold match_here, SemanticsFix.re_div_span. cbn [seqs rmatch m_rest m_pos m_prev].
  destruct s as [|c0 s0]; [done |]. unfold is_char at 1.
  destruct (Ascii.eqb_spec "<" c0) as [<-|]; [| done].
  rewrite !rmatch_lit. cbn [m_rest m_pos m_prev rmatch].
  intros H.
  destruct (Js.starts_with "div" s0) eqn:Hdiv.
  - apply starts_with_inv in Hdiv.
    destruct (Js.drop (Js.len "div") s0) as [|c b] eqn:Hd.
    + rewrite Hdiv in H. cbn in H. done.
    + destruct (Js.is_ws c) eqn:Hws.
      * injection H as <-. exists "div", c, b. rewrite Hdiv at 1.
        repeat split; auto.
      * rewrite Hdiv in H. cbn in H. done.
  - destruct (Js.starts_with "span" s0) eqn:Hspan; [| done].
    apply starts_with_inv in Hspan.
    destruct (Js.drop (Js.len "span") s0) as [|c b] eqn:Hd; [done |].
    destruct (Js.is_ws c) eqn:Hws; [| done].
    injection H as <-. exists "span", c, b. rewrite Hspan at 1.
    repeat split; auto.
Qed.

(** the element name the handler reads off the target line is [div] or
    [span], and the line has an opening tag of that name *)
Lemma target_tag_spec ln m :
  exec SemanticsFix.re_div_span ln = Some m ->
  exists tag,
    group ln m 1 = Some tag /\ (tag = "div" \/ tag = "span") /\
    exec (SemanticsFix.re_open tag) ln <> None.
Proof.
  intros Hex. destruct (search_some _ _ _ _ _ Hex) as (x & y & -> & Hm & _).
  destruct (match_here_div_span _ _ _ _ Hm) as (tag & c & b & Htag & -> & Hws & Hi & Hg).
  exists tag. split; [| split; [exact Htag |]].
  - unfold group. rewrite Hg. cbn [lookup_group Nat.eqb Nat.add].
    replace (S (Js.len x)) with (Js.len (x +:+ "<")) by (rewrite str_len_app; unfold Js.len; cbn; lia).
    replace (x +:+ ("<" +:+ tag) +:+ String c b) with ((x +:+ "<") +:+ tag +:+ String c b)
      by (by rewrite !str_app_assoc).
    rewrite str_drop_app.
    replace (S (Js.len x + Js.len tag) - Js.len (x +:+ "<")) with (Js.len tag)
      by (rewrite str_len_app; unfold Js.len; cbn; lia).
    by rewrite str_take_app.
  - apply search_app_some. rewrite match_here_open.
    change (("<" +:+ tag) +:+ String c b) with (String "<" (tag +:+ String c b)).
    cbn [Ascii.eqb Bool.eqb]. rewrite starts_with_app, str_drop_app, Hws. done.
Qed.

End SearchFacts.

Section RetagFacts.
Import Rx.

Lemma test_close tag l : test (SemanticsFix.re_close tag) l = Js.includes (closing tag) l.
Proof. apply test_lit. Qed.

Lemma fix_closing_below_some tag : forall below i lines1 lines2,
  drop i lines1 = below ->
  SemanticsFix.fix_closing_below tag i below lines1 = Some lines2 ->
  exists j l,
    i <= j /\ lines1 !! j = Some l /\ Js.includes (closing tag) l = true /\
    (forall k l', i <= k < j -> lines1 !! k = Some l' ->
       Js.includes (closing tag) l' = false) /\
    lines2 = <[j := SemanticsFix.replace_close tag l]> lines1.
Proof.
  induction below as [|l below IH]; intros i lines1 lines2 Hdrop H; [done |].
  assert (Hl : lines1 !! i = Some l).
  { pose proof (lookup_drop lines1 i 0) as Hd. rewrite Hdrop, Nat.add_0_r in Hd.
    by rewrite <- Hd. }
  assert (Hrest : drop (S i) lines1 = below).
  { erewrite drop_S in Hdrop by exact Hl. by injection Hdrop. }
  cbn [SemanticsFix.fix_closing_below] in H. rewrite test_close in H.
  destruct (Js.includes (closing tag) l) eqn:Hin.
  - injection H as <-. exists i, l. repeat split; auto. intros; lia.
  - destruct (IH _ _ _ Hrest H) as (j & l2 & Hj & Hl2 & Hin2 & Hbefore & ->).
    exists j, l2. repeat split; auto; [lia |].
    intros k l' Hk Hl'. destruct (decide (k = i)) as [->|].
    + rewrite Hl in Hl'. by injection Hl' as <-.
    + apply (Hbefore k); [lia | done].
Qed.

Lemma fix_closing_below_none tag : forall below i lines1,
  drop i lines1 = below ->
  SemanticsFix.fix_closing_below tag i below lines1 = None ->
  forall k l, i <= k -> lines1 !! k = Some l -> Js.includes (closing tag) l = false.
Proof.
  induction below as [|l below IH]; intros i lines1 Hdrop H k l' Hk Hl'.
  - apply drop_nil_inv in Hdrop.
    apply lookup_lt_Some in Hl'. lia.
  - assert (Hl : lines1 !! i = Some l).
    { pose proof (lookup_drop lines1 i 0) as Hd. rewrite Hdrop, Nat.add_0_r in Hd.
      by rewrite <- Hd. }
    assert (Hrest : drop (S i) lines1 = below).
    { erewrite drop_S in Hdrop by exact Hl. by injection Hdrop. }
    cbn [SemanticsFix.fix_closing_below] in H. rewrite test_close in H.
    destruct (Js.includes (closing tag) l) eqn:Hin; [done |].
    destruct (decide (k = i)) as [->|].
    + rewrite Hl in Hl'. by injection Hl' as <-.
    + apply (IH _ _ Hrest H k); [lia | done].
Qed.

Lemma in_range lineIdx (lines : list string) :
  out_of_range lineIdx lines = false ->
  exists idx ln, lineIdx = Z.of_nat idx /\ Z.to_nat lineIdx = idx /\ lines !! idx = Some ln /\
                 line_at lines idx = ln.
Proof.
  unfold out_of_range. intros H. apply orb_false_elim in H as [H1 H2].
  apply Z.ltb_ge in H1. apply Z.leb_gt in H2.
  destruct (lookup_lt_is_Some_2 lines (Z.to_nat lineIdx)) as [ln Hln]; [lia |].
  exists (Z.to_nat lineIdx), ln. unfold line_at. rewrite Hln. repeat split; auto. lia.
Qed.

Lemma in_range_inv idx (lines : list string) ln :
  lines !! idx = Some ln ->
  out_of_range (Z.of_nat idx) lines = false /\ Z.to_nat (Z.of_nat idx) = idx /\
  line_at lines idx = ln.
Proof.
  intros Hln. pose proof (lookup_lt_Some _ _ _ Hln). unfold out_of_range, line_at.
  rewrite Hln. repeat split; [| lia].
  apply orb_false_intro; [apply Z.ltb_ge | apply Z.leb_gt]; lia.
Qed.

Variable issue : Issue.
Variables filePath content : string.

Lemma fixDivToButton_success lines lineIdx w :
  success (fst (SemanticsFix.fixDivToButton issue filePath content lines lineIdx w)) = true ->
  exists idx ln tag new_lines,
    lineIdx = Z.of_nat idx /\ lines !! idx = Some ln /\ target_tag ln = Some tag /\
    (tag = "div" \/ tag = "span") /\
    retagged tag idx lines new_lines /\
    snd (SemanticsFix.fixDivToButton issue filePath content lines lineIdx w)
    = writeFileSync filePath (Js.join_nl new_lines)
        (writeFileSync (filePath +:+ ".bak") content w).
Proof.
  unfold SemanticsFix.fixDivToButton. cbv zeta.
  destruct (out_of_range lineIdx lines) eqn:Hr; [discriminate |].
  destruct (in_range _ _ Hr) as (idx & ln & -> & -> & Hln & ->).
  destruct (exec SemanticsFix.re_div_span ln) as [m|] eqn:Hex; [| discriminate].
  destruct (target_tag_spec _ _ Hex) as (tag & Hg & Htag & Hopen). rewrite Hg.
  destruct (test SemanticsFix.re_interactive _); [discriminate |].
  destruct (test SemanticsFix.re_href _); [discriminate |].
  destruct (replace_open_spec tag ln) as [[Hnone _] | (a & c & b & Hdec & Hws & ->)]; [done |].
  rewrite test_close.
  assert (Hlt : idx < length lines) by (by eapply lookup_lt_Some).
  destruct (Js.includes (closing tag) (a +:+ button_open +:+ String c b)) eqn:Hsame.
  - intros _.
    destruct (replace_first_lit (closing tag) "</button>" _ Hsame) as (x & y & Hxy & Hfirst & Hrep).
    exists idx, ln, tag. eexists. split; [done |]. split; [done |].
    split; [unfold target_tag; by rewrite Hex |]. split; [done |]. split; [| reflexivity].
    exists ln, a, c, b. split; [done |]. split; [done |]. split; [done |]. cbv zeta.
    exists idx, x, y. split; [lia |].
    split; [by rewrite list_lookup_insert_eq, Hxy |].
    split; [by rewrite <- Hxy |]. split; [intros; lia |].
    rewrite list_insert_insert_eq. unfold SemanticsFix.replace_close.
    unfold SemanticsFix.re_close. fold (closing tag). by rewrite Hrep.
  - destruct (SemanticsFix.fix_closing_below tag (S idx) _ _) as [lines2|] eqn:Hbelow;
      [| discriminate].
    intros _.
    destruct (fix_closing_below_some _ _ _ _ _ eq_refl Hbelow)
      as (j & l & Hj & Hl & Hin & Hbefore & ->).
    destruct (replace_first_lit (closing tag) "</button>" _ Hin) as (x & y & Hxy & Hfirst & Hrep).
    exists idx, ln, tag. eexists. split; [done |]. split; [done |].
    split; [unfold target_tag; by rewrite Hex |]. split; [done |]. split; [| reflexivity].
    exists ln, a, c, b. split; [done |]. split; [done |]. split; [done |]. cbv zeta.
    exists j, x, y. split; [lia |].
    split; [by rewrite Hl, Hxy |].
    split; [by rewrite <- Hxy |]. split.
    + intros k l' Hk Hl'. destruct (decide (k = idx)) as [->|].
      * rewrite list_lookup_insert_eq in Hl' by done. by injection Hl' as <-.
      * apply (Hbefore k); [lia | done].
    + unfold SemanticsFix.replace_close, SemanticsFix.re_close. fold (closing tag).
      by rewrite Hrep.
Qed.

Lemma fixDivToButton_failure lines lineIdx w :
  success (fst (SemanticsFix.fixDivToButton issue filePath content lines lineIdx w)) = false ->
  exists why,
    SemanticsFix.fixDivToButton issue filePath content lines lineIdx w = (failure why, w) /\
    forall idx ln tag,
      lineIdx = Z.of_nat idx -> lines !! idx = Some ln -> target_tag ln = Some tag ->
      nested_interactive_detected ln = false -> href_detected ln = false ->
      why = "Could not find closing </" +:+ tag +:+ "> tag.".
Proof.
  unfold SemanticsFix.fixDivToButton. cbv zeta.
  destruct (out_of_range lineIdx lines) eqn:Hr.
  { intros _. eexists. split; [reflexivity |]. intros idx ln tag -> Hln.
    destruct (in_range_inv _ _ _ Hln) as (Hr' & _). congruence. }
  destruct (in_range _ _ Hr) as (idx & ln & -> & -> & Hln & ->).
  unfold target_tag, nested_interactive_detected, href_detected.
  destruct (exec SemanticsFix.re_div_span ln) as [m|] eqn:Hex.
  2:{ intros _. eexists. split; [reflexivity |]. intros idx' ln' tag Hi Hln'.
      apply Nat2Z.inj in Hi as <-. rewrite Hln in Hln'. injection Hln' as <-.
      by rewrite Hex. }
  destruct (test SemanticsFix.re_interactive _) eqn:Hnest.
  { intros _. eexists. split; [reflexivity |]. intros idx' ln' tag Hi Hln'.
    apply Nat2Z.inj in Hi as <-. rewrite Hln in Hln'. injection Hln' as <-.
    rewrite Hex, Hnest. done. }
  destruct (test SemanticsFix.re_href _) eqn:Hhref.
  { intros _. eexists. split; [reflexivity |]. intros idx' ln' tag Hi Hln'.
    apply Nat2Z.inj in Hi as <-. rewrite Hln in Hln'. injection Hln' as <-.
    rewrite Hex, Hnest, Hhref. done. }
  destruct (if test _ _ then _ else _) as [lines2|]; [discriminate |].
  intros _. eexists. split; [reflexivity |]. intros idx' ln' tag Hi Hln'.
  apply Nat2Z.inj in Hi as <-. rewrite Hln in Hln'. injection Hln' as <-.
  rewrite Hex. by intros ->.
Qed.

End RetagFacts.

(** ** The loop of the orchestrators *)

Section LoopFacts.
Import FixCommon Dispatch.

Lemma bucket_keys_push_fixed e b :
  bucket_keys (push_fixed e b) ≡ₚ (f_id e, f_file e, f_problem e) :: bucket_keys b.
Proof.
  unfold bucket_keys, push_fixed; simpl. rewrite map_app; simpl.
  rewrite <- app_assoc. simpl. symmetry. apply Permutation_middle.
Qed.

Lemma bucket_keys_push_skipped e b :
  bucket_keys (push_skipped e b) ≡ₚ (s_id e, s_file e, s_problem e) :: bucket_keys b.
Proof.
  unfold bucket_keys, push_skipped; simpl. rewrite map_app; simpl.
  rewrite <- !app_assoc. simpl.
  rewrite (app_assoc (map _ (b_fixed b))). symmetry.
  rewrite (app_assoc (map _ (b_fixed b))).
  apply Permutation_middle.
Qed.

Lemma bucket_keys_push_manual e b :
  bucket_keys (push_manual e b) ≡ₚ (r_id e, r_file e, r_problem e) :: bucket_keys b.
Proof.
  unfold bucket_keys, push_manual; simpl. rewrite map_app; simpl.
  rewrite !app_assoc. rewrite <- Permutation_cons_append. done.
Qed.

Lemma grows_refl b : grows b b.
Proof. repeat split; auto. Qed.

Lemma grows_trans b1 b2 b3 : grows b1 b2 -> grows b2 b3 -> grows b1 b3.
Proof. intros (?&?&?) (?&?&?). repeat split; auto. Qed.

Lemma grows_push_fixed e b : grows b (push_fixed e b).
Proof. repeat split; simpl; auto. intros; apply elem_of_app; auto. Qed.

Lemma grows_push_skipped e b : grows b (push_skipped e b).
Proof. repeat split; simpl; auto. intros; apply elem_of_app; auto. Qed.

Lemma grows_push_manual e b : grows b (push_manual e b).
Proof. repeat split; simpl; auto. intros; apply elem_of_app; auto. Qed.

Variable env : Env.

Lemma attempt_adds_one sm i b w :
  bucket_keys (fst (attempt env sm i (b, w))) ≡ₚ key i :: bucket_keys b.
Proof.
  unfold attempt. destruct (applyCategoryFix env sm i w) as [[[r|]|msg] w'].
  - destruct (success r); simpl.
    + apply bucket_keys_push_fixed.
    + apply bucket_keys_push_skipped.
  - simpl. apply bucket_keys_push_skipped.
  - simpl. apply bucket_keys_push_skipped.
Qed.

Lemma attempt_grows sm i b w : grows b (fst (attempt env sm i (b, w))).
Proof.
  unfold attempt. destruct (applyCategoryFix env sm i w) as [[[r|]|msg] w'].
  - destruct (success r); simpl; auto using grows_push_fixed, grows_push_skipped.
  - simpl; auto using grows_push_skipped.
  - simpl; auto using grows_push_skipped.
Qed.

(** a handler is spawned only for a category that has a script *)
Lemma applyCategoryFix_log sm i w :
  (lookup_script sm (category i) = None /\ snd (applyCategoryFix env sm i w) = w) \/
  exists script,
    lookup_script sm (category i) = Some script /\
    log (snd (applyCategoryFix env sm i w))
      = log w ++ [Spawn (path_join env (scriptsDir env) script) i].
Proof.
  unfold applyCategoryFix.
  destruct (lookup_script sm (category i)) as [script|];
    [right | left; by destruct (is_inherited (category i))].
  exists script. split; [done |].
  destruct (run_script env _ i (projectRoot env) (files w)) as [[stdout|msg] fs']; [| done].
  destruct (parse_output env (Js.trim stdout)); done.
Qed.

Lemma attempt_snd sm i b w :
  snd (attempt env sm i (b, w)) = snd (applyCategoryFix env sm i w).
Proof.
  unfold attempt. destruct (applyCategoryFix env sm i w) as [[[r|]|msg] w']; [| done | done].
  destruct (success r); done.
Qed.

Lemma loop_cons step i targets st :
  loop step (i :: targets) st = loop step targets (step i st).
Proof. reflexivity. Qed.

Lemma loop_app step pre post st :
  loop step (pre ++ post) st = loop step post (loop step pre st).
Proof. unfold loop. apply fold_left_app. Qed.

Lemma loop_keys step targets :
  adds_one step ->
  forall st,
    bucket_keys (fst (loop step targets st))
      ≡ₚ rev (map key targets) ++ bucket_keys (fst st).
Proof.
  intros Hstep. unfold adds_one in Hstep.
  induction targets as [|i targets IH]; intros st; [done |].
  rewrite loop_cons, IH. destruct st as [b w]. rewrite Hstep. simpl.
  rewrite <- app_assoc. simpl. done.
Qed.

Lemma loop_grows step targets :
  monotone step -> forall st, grows (fst st) (fst (loop step targets st)).
Proof.
  intros Hstep. induction targets as [|i targets IH]; intros st; [apply grows_refl |].
  rewrite loop_cons. eapply grows_trans; [| apply IH].
  destruct st as [b w]. apply Hstep.
Qed.

Lemma loop_log P step targets :
  spawns_only P step ->
  forall st, exists evs,
    log (snd (loop step targets st)) = log (snd st) ++ evs /\
    Forall (fun e => exists p i, e = Spawn p i /\ i ∈ targets /\ P i) evs.
Proof.
  intros Hstep. induction targets as [|i targets IH]; intros st.
  - exists []. split; [by rewrite app_nil_r | constructor].
  - rewrite loop_cons. destruct (IH (step i st)) as (evs & Hlog & Hall).
    assert (Hweak : Forall (fun e => exists p j, e = Spawn p j /\ j ∈ i :: targets /\ P j) evs).
    { eapply Forall_impl; [exact Hall |]. intros e (p & j & -> & Hj & HP).
      exists p, j. repeat split; auto. by right. }
    destruct st as [b w]. destruct (Hstep i b w) as [Hsame | (p & Happ & HP)].
    + exists evs. split; [by rewrite Hlog, Hsame | exact Hweak].
    + exists (Spawn p i :: evs). split.
      * rewrite Hlog, Happ, <- app_assoc. done.
      * constructor; [| exact Hweak]. exists p, i. repeat split; auto. by left.
Qed.

(** a step that leaves the world alone *)
Lemma loop_world step targets :
  (forall i b w, snd (step i (b, w)) = w) ->
  forall st, snd (loop step targets st) = snd st.
Proof.
  intros Hstep. induction targets as [|i targets IH]; intros st; [done |].
  rewrite loop_cons, IH. destruct st as [b w]. apply Hstep.
Qed.

End LoopFacts.

(** ** The two loop bodies *)

Section StepFacts.
Import FixCommon Dispatch.
Variable env : Env.

Lemma seo_adds_one : adds_one (SeoFix.step env).
Proof.
  intros i b w. unfold SeoFix.step.
  destruct (String.eqb (category i) "rendering"); [apply bucket_keys_push_manual |].
  destruct (negb (autoFixPossible i)); [apply bucket_keys_push_skipped |].
  destruct (dryRun env); [apply bucket_keys_push_fixed | apply attempt_adds_one].
Qed.

Lemma a11y_adds_one : adds_one (A11yFix.step env).
Proof.
  intros i b w. unfold A11yFix.step.
  destruct (negb (autoFixPossible i)); [apply bucket_keys_push_manual |].
  destruct (dryRun env); [apply bucket_keys_push_fixed | apply attempt_adds_one].
Qed.

Lemma seo_monotone : monotone (SeoFix.step env).
Proof.
  intros i b w. unfold SeoFix.step.
  destruct (String.eqb (category i) "rendering"); [apply grows_push_manual |].
  destruct (negb (autoFixPossible i)); [apply grows_push_skipped |].
  destruct (dryRun env); [apply grows_push_fixed | apply attempt_grows].
Qed.

Lemma a11y_monotone : monotone (A11yFix.step env).
Proof.
  intros i b w. unfold A11yFix.step.
  destruct (negb (autoFixPossible i)); [apply grows_push_manual |].
  destruct (dryRun env); [apply grows_push_fixed | apply attempt_grows].
Qed.

(** SEO: a handler is spawned only outside a dry run, for a finding that
    is auto-fixable, not in the rendering category, and whose category
    has a script *)
Lemma seo_spawns_only :
  spawns_only
    (fun i => dryRun env = false /\ autoFixPossible i = true /\
              category i <> "rendering" /\
              is_Some (lookup_script SeoFix.scriptMap (category i)))
    (SeoFix.step env).
Proof.
  intros i b w. unfold SeoFix.step.
  destruct (String.eqb_spec (category i) "rendering") as [|Hcat]; [by left |].
  destruct (autoFixPossible i) eqn:Hauto; cbn [negb]; [| by left].
  destruct (dryRun env) eqn:Hdry; [by left |].
  rewrite attempt_snd.
  destruct (applyCategoryFix_log env SeoFix.scriptMap i w) as [[_ Hw] | (s & Hs & Hlog)].
  - left. by rewrite Hw.
  - right. eexists. split; [exact Hlog |].
    split; [done | split; [done | split; [done | by exists s]]].
Qed.

(** accessibility: the same, without the category gate *)
Lemma a11y_spawns_only :
  spawns_only
    (fun i => dryRun env = false /\ autoFixPossible i = true /\
              is_Some (lookup_script A11yFix.scriptMap (category i)))
    (A11yFix.step env).
Proof.
  intros i b w. unfold A11yFix.step.
  destruct (autoFixPossible i) eqn:Hauto; cbn [negb]; [| by left].
  destruct (dryRun env) eqn:Hdry; [by left |].
  rewrite attempt_snd.
  destruct (applyCategoryFix_log env A11yFix.scriptMap i w) as [[_ Hw] | (s & Hs & Hlog)].
  - left. by rewrite Hw.
  - right. eexists. split; [exact Hlog |].
    split; [done | split; [done | by exists s]].
Qed.

Lemma seo_dry_world :
  dryRun env = true -> forall i b w, snd (SeoFix.step env i (b, w)) = w.
Proof.
  intros Hdry i b w. unfold SeoFix.step. rewrite Hdry.
  destruct (String.eqb (category i) "rendering"); [done |].
  destruct (negb (autoFixPossible i)); done.
Qed.

Lemma a11y_dry_world :
  dryRun env = true -> forall i b w, snd (A11yFix.step env i (b, w)) = w.
Proof.
  intros Hdry i b w. unfold A11yFix.step. rewrite Hdry.
  destruct (negb (autoFixPossible i)); done.
Qed.

(** what [applyFixes] returns once the report is loaded and at least one
    finding is targeted *)
Lemma applyFixes_with_run prefix reportName missing fixReportName title footer step w
    targets :
  targeted env prefix reportName w targets -> targets <> [] ->
  applyFixes_with env prefix reportName missing fixReportName title footer step w
  = let st := loop step targets (mkBuckets [] [] [], w) in
    (Printed (mkOutput (dryRun env) None (Some (filter env)) (Some (length targets))
                (b_fixed (fst st)) (b_skipped (fst st)) (b_manual (fst st))),
     if dryRun env then snd st
     else writeFileSync (path_join env (projectRoot env) fixReportName)
            (fix_report_text title footer (now env) (filter env)
               (b_fixed (fst st)) (b_skipped (fst st)) (b_manual (fst st))) (snd st)).
Proof.
  intros (text & allIssues & Hfile & Hparse & Hsel) Hne.
  unfold applyFixes_with. rewrite Hfile, Hparse, Hsel.
  destruct targets as [|i targets]; [done |].
  destruct (loop step (i :: targets) _) as [b w1]. done.
Qed.

(** what [applyFixes] returns when no finding is targeted *)
Lemma applyFixes_with_none prefix reportName missing fixReportName title footer step w :
  targeted env prefix reportName w [] ->
  applyFixes_with env prefix reportName missing fixReportName title footer step w
  = (Printed (mkOutput (dryRun env)
                (Some ("No issues found matching filter: " +:+ filter env))
                None None [] [] []), w).
Proof.
  intros (text & allIssues & Hfile & Hparse & Hsel).
  unfold applyFixes_with. rewrite Hfile, Hparse, Hsel. done.
Qed.

(** the world after a run is the world after its loop, followed by the
    write of the fix report outside a dry run, and this only when a
    finding is targeted *)
Lemma applyFixes_with_world prefix reportName missing fixReportName title footer step w :
  snd (applyFixes_with env prefix reportName missing fixReportName title footer step w) = w \/
  exists targets, targeted env prefix reportName w targets /\ targets <> [].
Proof.
  unfold applyFixes_with.
  destruct (files w !! _) as [text|] eqn:Hfile; [| by left].
  destruct (parse_report env text) as [msg|allIssues] eqn:Hparse; [by left |].
  destruct (select prefix (filter env) allIssues) as [[|i targets]|] eqn:Hsel;
    [by left | | by left].
  right. exists (i :: targets). split; [| done]. by exists text, allIssues.
Qed.

End StepFacts.

(** ** Outcomes of a run *)

Section RunFacts.
Import FixCommon Dispatch.
Variable env : Env.

Lemma loop_entry step pre i post st :
  monotone step ->
  grows (fst (step i (loop step pre st))) (fst (loop step (pre ++ i :: post) st)).
Proof. intros Hm. rewrite loop_app, loop_cons. by apply loop_grows. Qed.

Lemma attempt_abnormal sm i b w msg :
  abnormal env sm i (files w) msg ->
  skipped_entry i msg ∈ b_skipped (fst (attempt env sm i (b, w))).
Proof.
  intros (script & Hs & Hout). unfold attempt, applyCategoryFix. rewrite Hs.
  destruct (run_script env _ i (projectRoot env) (files w)) as [out fs'].
  simpl in Hout. destruct Hout as [-> | (stdout & -> & Hparse)].
  - simpl. apply elem_of_app. right. by left.
  - rewrite Hparse. simpl. apply elem_of_app. right. by left.
Qed.

Lemma attempt_null sm i b w :
  prints_null env sm i (files w) ->
  skipped_entry i ("Fix failed: " +:+ null_success_message)
    ∈ b_skipped (fst (attempt env sm i (b, w))).
Proof.
  intros (script & stdout & Hs & Hout & Hparse). unfold attempt, applyCategoryFix.
  rewrite Hs.
  destruct (run_script env _ i (projectRoot env) (files w)) as [out fs'].
  simpl in Hout. subst out. rewrite Hparse. simpl. apply elem_of_app. right. by left.
Qed.

Lemma new_events_app w w' evs : log w' = log w ++ evs -> new_events w w' = evs.
Proof. intros H. unfold new_events. rewrite H. by rewrite drop_app_length. Qed.

Lemma new_events_same w : new_events w w = [].
Proof. unfold new_events. apply drop_all. Qed.

Lemma keys_of_loop step targets w :
  adds_one step ->
  bucket_keys (fst (loop step targets (mkBuckets [] [] [], w))) ≡ₚ map key targets.
Proof.
  intros Hstep. rewrite (loop_keys step targets Hstep). simpl.
  rewrite app_nil_r. symmetry. apply Permutation_rev.
Qed.

(** the events of a run outside a dry run: the spawns of the loop, then
    the write of the fix report *)
Lemma run_events P prefix reportName missing fixReportName title footer step w targets :
  spawns_only P step -> dryRun env = false ->
  targeted env prefix reportName w targets -> targets <> [] ->
  exists evs text,
    new_events w (snd (applyFixes_with env prefix reportName missing fixReportName title
                         footer step w))
      = evs ++ [Write (path_join env (projectRoot env) fixReportName) text] /\
    Forall (fun e => exists p i, e = Spawn p i /\ i ∈ targets /\ P i) evs.
Proof.
  intros Hstep Hdry Htg Hne.
  rewrite (applyFixes_with_run env _ _ _ _ _ _ _ _ _ Htg Hne). cbn zeta. rewrite Hdry.
  destruct (loop_log P step targets Hstep (mkBuckets [] [] [], w)) as (evs & Hlog & Hall).
  exists evs. eexists. split; [| exact Hall].
  apply new_events_app. cbn [snd writeFileSync log]. rewrite Hlog. cbn [snd].
  by rewrite <- app_assoc.
Qed.

(** the spawns of any run satisfy the gate of the loop body *)
Lemma run_spawns P prefix reportName missing fixReportName title footer step w p j :
  spawns_only P step ->
  Spawn p j ∈ new_events w (snd (applyFixes_with env prefix reportName missing
                                    fixReportName title footer step w)) ->
  P j.
Proof.
  intros Hstep Hin.
  destruct (applyFixes_with_world env prefix reportName missing fixReportName title footer
              step w) as [Hsame | (targets & Htg & Hne)].
  - rewrite Hsame, new_events_same in Hin. by apply elem_of_nil in Hin.
  - rewrite (applyFixes_with_run env _ _ _ _ _ _ _ _ _ Htg Hne) in Hin. cbn zeta in Hin.
    destruct (loop_log P step targets Hstep (mkBuckets [] [] [], w)) as (evs & Hlog & Hall).
    cbn [snd] in Hin, Hlog.
    assert (Hev : Spawn p j ∈ evs).
    { destruct (dryRun env).
      - by rewrite (new_events_app _ _ _ Hlog) in Hin.
      - erewrite new_events_app in Hin
          by (cbn [writeFileSync log]; rewrite Hlog, <- app_assoc; reflexivity).
        apply elem_of_app in Hin as [Hin | Hin]; [done |].
        apply list_elem_of_singleton in Hin. discriminate. }
    rewrite Forall_forall in Hall. destruct (Hall _ Hev) as (p' & j' & Heq & _ & HP).
    by inversion Heq; subst.
Qed.

(** a dry run leaves the world as it was *)
Lemma seo_dry_run_world w : dryRun env = true -> snd (SeoFix.applyFixes env w) = w.
Proof.
  intros Hdry. unfold SeoFix.applyFixes.
  destruct (applyFixes_with_world env "SEO" "seo-report.json"
              "seo-report.json not found. Run seo-audit first." "fix-report.md"
              "# SEO Fix Report" "*Generated by universal-frontend-seo-plugin*"
              (SeoFix.step env) w) as [H | (targets & Htg & Hne)]; [exact H |].
  rewrite (applyFixes_with_run env _ _ _ _ _ _ _ _ _ Htg Hne). cbn zeta. rewrite Hdry.
  cbn [snd]. by rewrite (loop_world _ _ (seo_dry_world env Hdry)).
Qed.

Lemma a11y_dry_run_world w : dryRun env = true -> snd (A11yFix.applyFixes env w) = w.
Proof.
  intros Hdry. unfold A11yFix.applyFixes.
  destruct (applyFixes_with_world env "A11Y" "a11y-report.json"
              "a11y-report.json not found. Run a11y-audit first." "a11y-fix-report.md"
              "# Accessibility Fix Report" "*Generated by accessibility-plugin*"
              (A11yFix.step env) w) as [H | (targets & Htg & Hne)]; [exact H |].
  rewrite (applyFixes_with_run env _ _ _ _ _ _ _ _ _ Htg Hne). cbn zeta. rewrite Hdry.
  cbn [snd]. by rewrite (loop_world _ _ (a11y_dry_world env Hdry)).
Qed.

End RunFacts.

(** ** Claims about the orchestrators *)

Section OrchestratorClaims.
Import FixCommon Dispatch.




(** C10: when the selector matches no finding of the loaded report, either
    orchestrator prints a successful result with empty fixed, skipped and
    manual-review lists and leaves the world as it was, also outside a dry
    run; and whenever a run writes a file (the fix report is the only file
    an orchestrator writes), the run is not a dry run and targets at least
    one finding. *)
Theorem empty_selection_writes_nothing (env : Env) (w : World) :
  (seo_targeted env w [] ->
   SeoFix.applyFixes env w
   = (Printed (mkOutput (dryRun env)
                 (Some ("No issues found matching filter: " +:+ filter env))
                 None None [] [] []), w)) /\
  (a11y_targeted env w [] ->
   A11yFix.applyFixes env w
   = (Printed (mkOutput (dryRun env)
                 (Some ("No issues found matching filter: " +:+ filter env))
                 None None [] [] []), w)) /\
  (forall p c, Write p c ∈ new_events w (snd (SeoFix.applyFixes env w)) ->
     p = path_join env (projectRoot env) "fix-report.md" /\ dryRun env = false /\
     exists targets, seo_targeted env w targets /\ targets <> []) /\
  (forall p c, Write p c ∈ new_events w (snd (A11yFix.applyFixes env w)) ->
     p = path_join env (projectRoot env) "a11y-fix-report.md" /\ dryRun env = false /\
     exists targets, a11y_targeted env w targets /\ targets <> []).
Proof.
  split; [| split; [| split]].
  - intros Htg. unfold SeoFix.applyFixes. by apply applyFixes_with_none.
  - intros Htg. unfold A11yFix.applyFixes. by apply applyFixes_with_none.
  - intros p c Hin. unfold SeoFix.applyFixes in Hin.
    destruct (applyFixes_with_world env "SEO" "seo-report.json"
                "seo-report.json not found. Run seo-audit first." "fix-report.md"
                "# SEO Fix Report" "*Generated by universal-frontend-seo-plugin*"
                (SeoFix.step env) w) as [H | (targets & Htg & Hne)].
    + rewrite H, new_events_same in Hin. by apply elem_of_nil in Hin.
    + destruct (dryRun env) eqn:Hdry.
      * pose proof (seo_dry_run_world env w Hdry) as Hw.
        unfold SeoFix.applyFixes in Hw. rewrite Hw, new_events_same in Hin.
        by apply elem_of_nil in Hin.
      * destruct (run_events env _ "SEO" "seo-report.json"
                    "seo-report.json not found. Run seo-audit first." "fix-report.md"
                    "# SEO Fix Report" "*Generated by universal-frontend-seo-plugin*"
                    (SeoFix.step env) w targets (seo_spawns_only env) Hdry Htg Hne)
          as (evs & text & Hev & Hall).
        rewrite Hev in Hin. apply elem_of_app in Hin as [Hin | Hin].
        -- rewrite Forall_forall in Hall. destruct (Hall _ Hin) as (? & ? & ? & _). discriminate.
        -- apply list_elem_of_singleton in Hin. inversion Hin; subst.
           split; [done | split; [done |]]. by exists targets.
  - intros p c Hin. unfold A11yFix.applyFixes in Hin.
    destruct (applyFixes_with_world env "A11Y" "a11y-report.json"
                "a11y-report.json not found. Run a11y-audit first." "a11y-fix-report.md"
                "# Accessibility Fix Report" "*Generated by accessibility-plugin*"
                (A11yFix.step env) w) as [H | (targets & Htg & Hne)].
    + rewrite H, new_events_same in Hin. by apply elem_of_nil in Hin.
    + destruct (dryRun env) eqn:Hdry.
      * pose proof (a11y_dry_run_world env w Hdry) as Hw.
        unfold A11yFix.applyFixes in Hw. rewrite Hw, new_events_same in Hin.
        by apply elem_of_nil in Hin.
      * destruct (run_events env _ "A11Y" "a11y-report.json"
                    "a11y-report.json not found. Run a11y-audit first." "a11y-fix-report.md"
                    "# Accessibility Fix Report" "*Generated by accessibility-plugin*"
                    (A11yFix.step env) w targets (a11y_spawns_only env) Hdry Htg Hne)
          as (evs & text & Hev & Hall).
        rewrite Hev in Hin. apply elem_of_app in Hin as [Hin | Hin].
        -- rewrite Forall_forall in Hall. destruct (Hall _ Hin) as (? & ? & ? & _). discriminate.
        -- apply list_elem_of_singleton in Hin. inversion Hin; subst.
           split; [done | split; [done |]]. by exists targets.
Qed.

Lemma empty_selection_witness :
  let env := Example.env [Example.issue "A11Y-001" "images" true] "forms" false in
  a11y_targeted env Example.world [] /\
  A11yFix.applyFixes env Example.world
  = (Printed (mkOutput false (Some "No issues found matching filter: forms")
                None None [] [] []), Example.world).
Proof.
  cbv zeta.
  assert (Htg : a11y_targeted (Example.env [Example.issue "A11Y-001" "images" true] "forms" false)
                  Example.world []).
  { exists "{}", [Example.issue "A11Y-001" "images" true]. repeat split; reflexivity. }
  split; [exact Htg |].
  exact (proj1 (proj2 (empty_selection_writes_nothing _ _)) Htg).
Defined.

(** opens the run of an orchestrator at the step of a targeted finding *)
Ltac at_step env step mono Htg Hin :=
  let pre := fresh "pre" in
  let post := fresh "post" in
  apply list_elem_of_split in Hin as (pre & post & ->);
  rewrite (applyFixes_with_run env _ _ _ _ _ _ _ _ _ Htg) by (by destruct pre);
  cbn zeta; eexists; split; [reflexivity |];
  cbn [fixed skipped manual];
  apply (loop_entry step pre _ post _ mono);
  destruct (loop step pre _) as [? ?].

(** C6, as stated, fails on the accessibility orchestrator: a targeted
    finding of the dynamic category with [autoFixPossible] set is not in the
    manual-review list; outside a dry run it is skipped, for want of a
    script for its category. *)
Lemma dynamic_finding_not_manual :
  let i := Example.issue "A11Y-001" "dynamic" true in
  let env := Example.env [i] "all" false in
  a11y_targeted env Example.world [i] /\ category i = "dynamic" /\
  exists o, fst (A11yFix.applyFixes env Example.world) = Printed o /\
            manual o = [] /\
            skipped o = [skipped_entry i "No fix script for category: dynamic"].
Proof.
  cbv zeta. split; [| split; [reflexivity |]].
  - exists "{}", [Example.issue "A11Y-001" "dynamic" true]. repeat split; reflexivity.
  - eexists. split; [vm_compute; reflexivity |]. split; reflexivity.
Qed.

(** C6 (amended): the SEO orchestrator routes every targeted finding of the
    rendering category to the manual-review list, whatever its
    [autoFixPossible]; the accessibility orchestrator, which has no category
    gate, routes a targeted finding of the dynamic category to the
    manual-review list when its [autoFixPossible] is false; and neither
    orchestrator ever starts a handler for a finding of its manual-only
    category. *)
Theorem manual_only_category_routing (env : Env) (w : World) (targets : list Issue)
    (i : Issue) :
  i ∈ targets ->
  (seo_targeted env w targets -> category i = "rendering" ->
   exists o, fst (SeoFix.applyFixes env w) = Printed o /\
     manual_entry i "Rendering fixes require manual review and cannot be safely auto-applied."
       ∈ manual o) /\
  (a11y_targeted env w targets -> category i = "dynamic" -> autoFixPossible i = false ->
   exists o, fst (A11yFix.applyFixes env w) = Printed o /\
     manual_entry i "Auto-fix not available — manual review required." ∈ manual o) /\
  (forall p j, Spawn p j ∈ new_events w (snd (SeoFix.applyFixes env w)) ->
     category j <> "rendering") /\
  (forall p j, Spawn p j ∈ new_events w (snd (A11yFix.applyFixes env w)) ->
     category j <> "dynamic").
Proof.
  intros Hin. split; [| split; [| split]].
  - intros Htg Hcat. unfold SeoFix.applyFixes.
    at_step env (SeoFix.step env) (seo_monotone env) Htg Hin.
    unfold SeoFix.step. rewrite Hcat. cbn. apply elem_of_app. right. by left.
  - intros Htg Hcat Hauto. unfold A11yFix.applyFixes.
    at_step env (A11yFix.step env) (a11y_monotone env) Htg Hin.
    unfold A11yFix.step. rewrite Hauto. cbn. apply elem_of_app. right. by left.
  - intros p j Hsp. unfold SeoFix.applyFixes in Hsp.
    by destruct (run_spawns env _ _ _ _ _ _ _ _ _ _ _ (seo_spawns_only env) Hsp)
      as (_ & _ & Hcat & _).
  - intros p j Hsp. unfold A11yFix.applyFixes in Hsp.
    destruct (run_spawns env _ _ _ _ _ _ _ _ _ _ _ (a11y_spawns_only env) Hsp)
      as (_ & _ & [s Hs]).
    intros Hcat. rewrite Hcat in Hs. discriminate.
Qed.

Lemma manual_only_category_routing_witness :
  let i := Example.issue "SEO-001" "rendering" true in
  let env := Example.env [i] "all" false in
  i ∈ [i] /\
  exists o, fst (SeoFix.applyFixes env Example.world) = Printed o /\
    manual_entry i "Rendering fixes require manual review and cannot be safely auto-applied."
      ∈ manual o.
Proof.
  cbv zeta. split; [left |].
  apply (proj1 (manual_only_category_routing
                  (Example.env [Example.issue "SEO-001" "rendering" true] "all" false)
                  Example.world [Example.issue "SEO-001" "rendering" true]
                  (Example.issue "SEO-001" "rendering" true) ltac:(left))).
  - exists "{}", [Example.issue "SEO-001" "rendering" true]. repeat split; reflexivity.
  - reflexivity.
Defined.

(** C7, as stated, fails on the accessibility orchestrator: a targeted
    finding with [autoFixPossible] false is not in the skipped list but in
    the manual-review list. *)
Lemma not_fixable_a11y_finding_not_skipped :
  let i := Example.issue "A11Y-001" "images" false in
  let env := Example.env [i] "all" false in
  a11y_targeted env Example.world [i] /\ autoFixPossible i = false /\
  exists o, fst (A11yFix.applyFixes env Example.world) = Printed o /\
            skipped o = [] /\
            manual o = [manual_entry i "Auto-fix not available — manual review required."].
Proof.
  cbv zeta. split; [| split; [reflexivity |]].
  - exists "{}", [Example.issue "A11Y-001" "images" false]. repeat split; reflexivity.
  - eexists. split; [vm_compute; reflexivity |]. split; reflexivity.
Qed.

(** C7 (amended): a targeted finding whose [autoFixPossible] is false is
    routed, by the SEO orchestrator and outside the rendering category, to
    the skipped list with the reason "Auto-fix not available for this
    issue.", and by the accessibility orchestrator to the manual-review list
    with the reason "Auto-fix not available — manual review required."; and
    neither orchestrator ever starts a handler for such a finding. *)
Theorem not_auto_fixable_routing (env : Env) (w : World) (targets : list Issue)
    (i : Issue) :
  i ∈ targets -> autoFixPossible i = false ->
  (seo_targeted env w targets -> category i <> "rendering" ->
   exists o, fst (SeoFix.applyFixes env w) = Printed o /\
     skipped_entry i "Auto-fix not available for this issue." ∈ skipped o) /\
  (a11y_targeted env w targets ->
   exists o, fst (A11yFix.applyFixes env w) = Printed o /\
     manual_entry i "Auto-fix not available — manual review required." ∈ manual o) /\
  (forall p j, Spawn p j ∈ new_events w (snd (SeoFix.applyFixes env w)) ->
     autoFixPossible j = true) /\
  (forall p j, Spawn p j ∈ new_events w (snd (A11yFix.applyFixes env w)) ->
     autoFixPossible j = true).
Proof.
  intros Hin Hauto. split; [| split; [| split]].
  - intros Htg Hcat. unfold SeoFix.applyFixes.
    at_step env (SeoFix.step env) (seo_monotone env) Htg Hin.
    unfold SeoFix.step. apply String.eqb_neq in Hcat. rewrite Hcat, Hauto. cbn.
    apply elem_of_app. right. by left.
  - intros Htg. unfold A11yFix.applyFixes.
    at_step env (A11yFix.step env) (a11y_monotone env) Htg Hin.
    unfold A11yFix.step. rewrite Hauto. cbn. apply elem_of_app. right. by left.
  - intros p j Hsp. unfold SeoFix.applyFixes in Hsp.
    by destruct (run_spawns env _ _ _ _ _ _ _ _ _ _ _ (seo_spawns_only env) Hsp)
      as (_ & Hj & _).
  - intros p j Hsp. unfold A11yFix.applyFixes in Hsp.
    by destruct (run_spawns env _ _ _ _ _ _ _ _ _ _ _ (a11y_spawns_only env) Hsp)
      as (_ & Hj & _).
Qed.

Lemma not_auto_fixable_routing_witness :
  let i := Example.issue "SEO-001" "images" false in
  let env := Example.env [i] "all" false in
  i ∈ [i] /\ autoFixPossible i = false /\
  exists o, fst (SeoFix.applyFixes env Example.world) = Printed o /\
    skipped_entry i "Auto-fix not available for this issue." ∈ skipped o.
Proof.
  cbv zeta. split; [left | split; [reflexivity |]].
  apply (proj1 (not_auto_fixable_routing
                  (Example.env [Example.issue "SEO-001" "images" false] "all" false)
                  Example.world [Example.issue "SEO-001" "images" false]
                  (Example.issue "SEO-001" "images" false) ltac:(left) eq_refl)).
  - exists "{}", [Example.issue "SEO-001" "images" false]. repeat split; reflexivity.
  - discriminate.
Defined.

Lemma batch_accounted_with (env : Env) (w : World) (targets : list Issue) P prefix
    reportName missing fixReportName title footer step scriptMap (eligible : Issue -> Prop) :
  adds_one step -> monotone step -> spawns_only P step ->
  (forall i b w1, eligible i -> step i (b, w1) = attempt env scriptMap i (b, w1)) ->
  dryRun env = false -> targets <> [] ->
  targeted env prefix reportName w targets ->
  batch_accounted env w targets
    (applyFixes_with env prefix reportName missing fixReportName title footer step w)
    step scriptMap fixReportName title footer eligible.
Proof.
  intros Hone Hmono Hspawn Hstep Hdry Hne Htg. unfold batch_accounted.
  rewrite (applyFixes_with_run env _ _ _ _ _ _ _ _ _ Htg Hne). cbn zeta. rewrite Hdry.
  eexists _, _. split; [reflexivity |]. split; [reflexivity |].
  split; [apply keys_of_loop, Hone |]. split.
  - destruct (loop_log P step targets Hspawn (mkBuckets [] [] [], w)) as (evs & Hlog & _).
    exists evs. cbn [writeFileSync log fixed skipped manual]. rewrite Hlog. cbn [snd].
    by rewrite <- app_assoc.
  - intros pre i post -> Hel. cbn zeta. cbn [skipped].
    pose proof (loop_entry step pre i post (mkBuckets [] [] [], w) Hmono) as (_ & Hsk & _).
    destruct (loop step pre (mkBuckets [] [] [], w)) as [b1 w1]. cbn [snd].
    rewrite (Hstep i b1 w1 Hel) in Hsk. split.
    + intros msg Hab. apply Hsk. by apply attempt_abnormal.
    + intros Hnull. apply Hsk. by apply attempt_null.
Qed.



End OrchestratorClaims.

(** ** Claims about the fix handlers *)

Section HandlerFacts.
Variable path_join : string -> string -> string.
Variable projectRoot : string.
Variable issue : Issue.

Lemma writes_backup_then_target filePath content new w r :
  files w !! filePath = Some content -> success r = true ->
  backup_then_write filePath w
    (r, writeFileSync filePath new (writeFileSync (filePath +:+ ".bak") content w)).
Proof.
  intros Hfile Hr. unfold backup_then_write. cbn [fst snd]. rewrite Hr.
  exists content, new. split; [exact Hfile |]. split; [| reflexivity].
  cbn [writeFileSync log]. by rewrite <- app_assoc.
Qed.

Lemma failure_writes_nothing filePath w why :
  backup_then_write filePath w (failure why, w).
Proof. reflexivity. Qed.

Lemma fixImgAlt_backup filePath content lines lineIdx isDecorative w :
  files w !! filePath = Some content ->
  backup_then_write filePath w
    (ImagesFix.fixImgAlt issue filePath content lines lineIdx isDecorative w).
Proof.
  intros Hfile. unfold ImagesFix.fixImgAlt. cbv zeta.
  destruct (Rx.exec ImagesFix.re_img _) as [imgMatch|]; [| apply failure_writes_nothing].
  destruct (Rx.test ImagesFix.re_alt _); [apply failure_writes_nothing |].
  by apply writes_backup_then_target.
Qed.

Lemma fixNextImageAlt_backup filePath content lines lineIdx w :
  files w !! filePath = Some content ->
  backup_then_write filePath w
    (ImagesFix.fixNextImageAlt issue filePath content lines lineIdx w).
Proof.
  intros Hfile. unfold ImagesFix.fixNextImageAlt. cbv zeta.
  destruct (Rx.exec ImagesFix.re_Image _) as [imgMatch|]; [| apply failure_writes_nothing].
  destruct (_ || _); [apply failure_writes_nothing |].
  by apply writes_backup_then_target.
Qed.

Lemma fixDivToButton_backup filePath content lines lineIdx w :
  files w !! filePath = Some content ->
  backup_then_write filePath w
    (SemanticsFix.fixDivToButton issue filePath content lines lineIdx w).
Proof.
  intros Hfile. unfold SemanticsFix.fixDivToButton. cbv zeta.
  destruct (out_of_range lineIdx lines); [apply failure_writes_nothing |].
  destruct (Rx.exec SemanticsFix.re_div_span _) as [tagMatch|];
    [| apply failure_writes_nothing].
  destruct (Rx.test SemanticsFix.re_interactive _); [apply failure_writes_nothing |].
  destruct (Rx.test SemanticsFix.re_href _); [apply failure_writes_nothing |].
  destruct (if Rx.test _ _ then _ else _) as [lines2|]; [| apply failure_writes_nothing].
  by apply writes_backup_then_target.
Qed.

Lemma addTabindex_backup filePath content lines lineIdx w :
  files w !! filePath = Some content ->
  backup_then_write filePath w
    (SemanticsFix.addTabindex issue filePath content lines lineIdx w).
Proof.
  intros Hfile. unfold SemanticsFix.addTabindex. cbv zeta.
  destruct (out_of_range lineIdx lines); [apply failure_writes_nothing |].
  destruct (Rx.test SemanticsFix.re_tabindex _); [apply failure_writes_nothing |].
  destruct (Rx.exec SemanticsFix.re_div_span _) as [tagMatch|];
    [| apply failure_writes_nothing].
  by apply writes_backup_then_target.
Qed.


End HandlerFacts.

(** ** The aggregator *)

Section AggregatorFacts.
Import Report.

Lemma compare_le a b : (compare a b <= 0)%Z <-> ranked_le a b.
Proof.
  unfold compare, ranked_le, key_le, sort_key. cbn [fst snd].
  destruct (Z.eqb_spec (indexOf CATEGORIES (category a))
                       (indexOf CATEGORIES (category b))) as [He|Hne]; cbn [negb]; lia.
Qed.

Lemma compare_gt a b : (0 < compare a b)%Z -> sort_key a <> sort_key b.
Proof.
  intros Hgt Heq. assert (H : ranked_le a b).
  { unfold ranked_le. rewrite Heq. unfold key_le. lia. }
  apply compare_le in H. lia.
Qed.

Lemma ranked_le_total a b : ranked_le a b \/ ranked_le b a.
Proof. unfold ranked_le, key_le. lia. Qed.

Lemma ranked_le_trans a b c : ranked_le a b -> ranked_le b c -> ranked_le a c.
Proof. unfold ranked_le, key_le. lia. Qed.

Lemma insert_perm x l : insert compare x l ≡ₚ x :: l.
Proof.
  induction l as [|y l IH]; [done |]. cbn [insert].
  destruct (compare x y <=? 0)%Z; [done |].
  rewrite IH. apply Permutation_swap.
Qed.

(** the comparator sort rearranges the findings *)
Lemma sort_perm l : sort compare l ≡ₚ l.
Proof.
  induction l as [|x l IH]; [done |]. cbn [sort]. by rewrite insert_perm, IH.
Qed.

Lemma insert_sorted x l :
  StronglySorted ranked_le l -> StronglySorted ranked_le (insert compare x l).
Proof.
  induction 1 as [|y l Hs IH Hall]; cbn [insert].
  - repeat constructor.
  - destruct (Z.leb_spec (compare x y) 0) as [Hle|Hgt].
    + apply compare_le in Hle. constructor; [by constructor |].
      constructor; [exact Hle |].
      eapply Forall_impl; [exact Hall |]. intros z Hz. by eapply ranked_le_trans.
    + assert (Hyx : ranked_le y x).
      { destruct (ranked_le_total x y) as [H|H]; [| exact H].
        apply compare_le in H. lia. }
      constructor; [exact IH |].
      rewrite insert_perm. by constructor.
Qed.

(** its result is ordered by category position, then by the severity
    rank as the comparator reads it *)
Lemma sort_sorted l : StronglySorted ranked_le (sort compare l).
Proof.
  induction l as [|x l IH]; [constructor |]. cbn [sort]. by apply insert_sorted.
Qed.

Lemma insert_with_key k x l :
  with_key k (insert compare x l) = with_key k (x :: l).
Proof.
  induction l as [|y l IH]; [done |]. cbn [insert].
  destruct (Z.leb_spec (compare x y) 0) as [Hle|Hgt]; [done |].
  apply compare_gt in Hgt.
  unfold with_key in *. cbn [List.filter] in *. rewrite IH.
  destruct (bool_decide_reflect (sort_key x = k)) as [Hx|Hx];
    destruct (bool_decide_reflect (sort_key y = k)) as [Hy|Hy]; try done.
  congruence.
Qed.

(** and findings of equal key keep their order: the sort is stable *)
Lemma sort_stable k l : with_key k (sort compare l) = with_key k l.
Proof.
  induction l as [|x l IH]; [done |]. cbn [sort]. rewrite insert_with_key.
  unfold with_key in *. cbn [List.filter]. by rewrite IH.
Qed.

Lemma assign_ids_ids k l :
  Forall (fun i => id i = None) l ->
  map id (assign_ids k l) = map (fun j => Some (make_id j)) (seq k (length l)).
Proof.
  intros H. revert k. induction H as [|x l Hx Hl IH]; intros k; [done |].
  cbn [assign_ids map length seq]. rewrite IH. unfold with_id at 1. cbn [id].
  by rewrite Hx.
Qed.

Lemma assign_ids_key k l : map sort_key (assign_ids k l) = map sort_key l.
Proof. revert k. induction l as [|x l IH]; intros k; [done |]. cbn. by rewrite IH. Qed.

Lemma with_framework_id fw l :
  Forall (fun i => id i = None) l -> Forall (fun i => id i = None) (map (with_framework fw) l).
Proof. intros H. apply Forall_map. eapply Forall_impl; [exact H |]. done. Qed.

(** findings that come without an identifier get SEO-001, SEO-002, ...
    in the order of the sorted array *)
Lemma generateReport_ids fw l :
  Forall (fun i => id i = None) l ->
  map id (generateReport_issues fw l)
  = map (fun j => Some (make_id j)) (seq 0 (length l)).
Proof.
  intros H. unfold generateReport_issues. rewrite assign_ids_ids.
  - by rewrite (Permutation_length (sort_perm _)), length_map.
  - rewrite (sort_perm _). by apply with_framework_id.
Qed.

Lemma to_uint_nonnil n : Nat.to_uint n <> Nil.
Proof.
  rewrite <- (Unsigned.of_to n) at 1. rewrite Unsigned.to_of. apply unorm_nonnil.
Qed.

Lemma number_of_nat n :
  option_map Nat.of_uint (NilZero.uint_of_string (Js.of_nat n)) = Some n.
Proof.
  unfold Js.of_nat. rewrite NilZero.usu by apply to_uint_nonnil.
  cbn [option_map]. by rewrite Unsigned.of_to.
Qed.

Lemma number_zeros k s n :
  option_map Nat.of_uint (NilZero.uint_of_string s) = Some n ->
  option_map Nat.of_uint (NilZero.uint_of_string (Js.repeat_char "0" k +:+ s)) = Some n.
Proof.
  intros Hs. induction k as [|k IH]; [exact Hs |].
  cbn [Js.repeat_char]. rewrite str_app_cons.
  destruct (Js.repeat_char "0" k +:+ s) as [|c t] eqn:Ht; [discriminate IH |].
  cbn [NilZero.uint_of_string NilEmpty.uint_of_string] in IH |- *.
  destruct (uint_of_char c (NilEmpty.uint_of_string t)) as [d|]; [| discriminate IH].
  cbn [uint_of_char option_map] in IH |- *. exact IH.
Qed.

Lemma id_number_make_id j : id_number (make_id j) = Some (j + 1).
Proof.
  unfold id_number, make_id.
  change (Js.drop 4 ("SEO-" +:+ ?x)) with x.
  unfold Js.padStart. apply number_zeros, number_of_nat.
Qed.

Lemma make_id_inj j k : make_id j = make_id k -> j = k.
Proof.
  intros H. apply (f_equal id_number) in H. rewrite !id_number_make_id in H.
  injection H. lia.
Qed.

(** the identifiers of a report of findings that come without one are
    pairwise distinct *)
Lemma generateReport_ids_distinct fw l :
  Forall (fun i => id i = None) l -> NoDup (map id (generateReport_issues fw l)).
Proof.
  intros H. rewrite (generateReport_ids fw l H).
  apply NoDup_fmap_2; [| apply NoDup_seq].
  intros j k Hjk. apply make_id_inj. congruence.
Qed.

End AggregatorFacts.

(** ** Claims about the aggregator *)

(** C1: the code departs from the claim.  Two findings of one category,
    the first of severity high and the second critical, keep their order:
    the high one gets SEO-001 and the critical one SEO-002, although
    critical ranks before high.  In the comparator, [SEVERITY_ORDER[...] || 3]
    turns the rank 0 of critical into 3, the rank of low. *)
Theorem critical_ranked_as_low :
  Report.or_num (Report.SEVERITY_ORDER critical) 3 = 3%Z /\
  map (fun i => (id i, severity i))
    (Report.generateReport_issues "html"
       [Sample.scanned high "images" "a.html" 4 "p";
        Sample.scanned critical "images" "a.html" 9 "q"])
  = [(Some "SEO-001", high); (Some "SEO-002", critical)].
Proof. split; reflexivity. Qed.

(** ** Claims about repeated fixes *)

(** C2: the code departs from the claim.  On an image tag that closes on
    a later line, for which the image scanner reports a missing [alt] at the
    line of the tag name, the image handler succeeds a first time, and
    applied again to the same finding it succeeds a second time: it inserts
    the attribute once more, the file differs from what the first attempt
    left, and the backup now holds what the first attempt wrote.  With no
    closing bracket on the line, [line.substring(tagStart, tagEnd + 1)] is
    the text before the tag, so the guard on an existing [alt] looks at the
    wrong text. *)
Theorem img_fix_not_idempotent_on_two_line_tag :
  let run := ImagesFix.applyFix Example.join "/site" Sample.img_missing_alt in
  let first := run (Sample.site Sample.two_line_img) in
  let second := run (snd first) in
  map (fun i => (category i, file i, line i, problem i))
    (ScanImages.scanImages "html" [("index.html", Some Sample.two_line_img)])
  = [(category Sample.img_missing_alt, file Sample.img_missing_alt,
      line Sample.img_missing_alt, problem Sample.img_missing_alt)] /\
  success (fst first) = true /\
  files (snd first) !! "/site/index.html"
    = Some ("<img " +:+ Sample.todo_alt +:+ Js.drop 5 Sample.two_line_img) /\
  success (fst second) = true /\
  files (snd second) !! "/site/index.html"
    = Some ("<img " +:+ Sample.todo_alt +:+ Sample.todo_alt +:+ Js.drop 5 Sample.two_line_img) /\
  files (snd second) !! "/site/index.html.bak" = files (snd first) !! "/site/index.html".
Proof. cbv zeta. repeat split; vm_compute; reflexivity. Qed.

(** ** Claims about the retag handler *)




(** ** Walking a pattern over a text of a known class *)

(** a fact on one character, by running through the characters *)
Ltac by_ascii_cases c :=
  destruct c as [[|] [|] [|] [|] [|] [|] [|] [|]];
  vm_compute; intros; first [reflexivity | discriminate].

Section WalkFacts.
Import Rx.

Lemma all_chars_app p a b : all_chars p (a +:+ b) = all_chars p a && all_chars p b.
Proof.
  induction a as [|c a IH]; [done |]. rewrite str_app_cons. cbn [all_chars].
  by rewrite IH, andb_assoc.
Qed.

(** a lazy repetition runs over a text on which the continuation fails *)
Lemma star_lazy_skip {R} p (k : mstate -> option R) x : forall prev pos y,
  all_chars p x = true ->
  (forall x1 c x2 , x = x1 +:+ String c x2 ->
     k (MState (last_char prev x1) (pos + Js.len x1) (String c x2 +:+ y)) = None) ->
  star_lazy p k prev pos (x +:+ y)
  = star_lazy p k (last_char prev x) (pos + Js.len x) y.
Proof.
  induction x as [|c x IH]; intros prev pos y Hp Hk.
  - unfold Js.len. cbn. by rewrite Nat.add_0_r.
  - rewrite str_app_cons. cbn [all_chars] in Hp. apply andb_prop in Hp as [Hc Hp].
    cbn [star_lazy].
    pose proof (Hk EmptyString c x eq_refl) as H0. unfold Js.len in H0. cbn in H0.
    rewrite Nat.add_0_r, str_app_cons in H0. rewrite H0, Hc.
    rewrite IH; [| exact Hp |].
    + unfold Js.len. cbn [last_char String.length]. by rewrite Nat.add_succ_r.
    + intros x1 c' x2 ->. specialize (Hk (String c x1) c' x2 eq_refl).
      unfold Js.len in *. cbn [last_char String.length] in Hk.
      by rewrite Nat.add_succ_r in Hk.
Qed.

(** a greedy repetition runs to the end of a text of the class, when the
    continuation succeeds there and the next character is not of the
    class *)
Lemma star_greedy_run {R} p (k : mstate -> option R) x : forall prev pos y r,
  all_chars p x = true ->
  match y with String c _ => p c = false | EmptyString => True end ->
  k (MState (last_char prev x) (pos + Js.len x) y) = Some r ->
  star_greedy p k prev pos (x +:+ y) = Some r.
Proof.
  induction x as [|c x IH]; intros prev pos y r Hp Hy Hk.
  - unfold Js.len in Hk. cbn in Hk. rewrite Nat.add_0_r in Hk. rewrite str_app_nil_l.
    destruct y as [|c y]; cbn [star_greedy]; [done |]. by rewrite Hy.
  - rewrite str_app_cons. cbn [all_chars] in Hp. apply andb_prop in Hp as [Hc Hp].
    cbn [star_greedy]. rewrite Hc. erewrite IH; [done | done | done |].
    unfold Js.len in *. cbn [last_char String.length] in Hk.
    by rewrite Nat.add_succ_r in Hk.
Qed.

Lemma find_char_skip c x : forall pos y,
  all_chars (fun d => negb (Ascii.eqb d c)) x = true ->
  Js.find_char c pos (x +:+ y) = Js.find_char c (pos + Js.len x) y.
Proof.
  induction x as [|d x IH]; intros pos y Hp.
  - unfold Js.len. cbn. by rewrite Nat.add_0_r.
  - rewrite str_app_cons. cbn [all_chars] in Hp. apply andb_prop in Hp as [Hc Hp].
    cbn [Js.find_char]. apply negb_true_iff in Hc. rewrite Hc, IH by done.
    unfold Js.len. cbn [String.length]. by rewrite Nat.add_succ_r.
Qed.

Lemma split_nl_one s :
  all_chars (fun d => negb (Ascii.eqb d Js.nl)) s = true -> Js.split_nl s = [s].
Proof.
  induction s as [|c s IH]; intros Hp; [done |].
  cbn [all_chars] in Hp. apply andb_prop in Hp as [Hc Hp].
  cbn [Js.split_nl]. apply negb_true_iff in Hc. by rewrite Hc, IH.
Qed.

Lemma all_chars_impl (p q : ascii -> bool) s :
  (forall c, p c = true -> q c = true) -> all_chars p s = true -> all_chars q s = true.
Proof.
  intros Hpq. induction s as [|c s IH]; [done |]. cbn [all_chars].
  intros H. apply andb_prop in H as [Hc Hs]. by rewrite (Hpq c Hc), IH.
Qed.

Lemma all_chars_drop p n : forall s, all_chars p s = true -> all_chars p (Js.drop n s) = true.
Proof.
  induction n as [|n IH]; intros s H; [done |].
  destruct s as [|c s]; [done |]. cbn [all_chars] in H. apply andb_prop in H as [_ H].
  by apply IH.
Qed.

Lemma lit_ci_cons {R} c l st cs (k : mstate -> caps -> option R) :
  rmatch (lit_ci (String c l)) st cs k
  = rmatch (Chr (is_char_ci c)) st cs (fun st' cs' => rmatch (lit_ci l) st' cs' k).
Proof. destruct l; reflexivity. Qed.

Lemma rmatch_lit_ci {R} l : forall st cs (k : mstate -> caps -> option R),
  rmatch (lit_ci l) st cs k
  = if starts_with_ci l (m_rest st)
    then k (MState (last_char (m_prev st) (Js.take (Js.len l) (m_rest st)))
              (m_pos st + Js.len l) (Js.drop (Js.len l) (m_rest st))) cs
    else None.
Proof.
  induction l as [|c l IH]; intros [prev pos rest] cs k.
  - cbn. by rewrite Nat.add_0_r.
  - rewrite lit_ci_cons. cbn [rmatch m_rest m_pos m_prev].
    destruct rest as [|d rest]; [reflexivity |]. cbn [starts_with_ci].
    destruct (is_char_ci c d); [| done].
    rewrite IH. cbn [m_rest m_pos m_prev last_char Js.drop Js.take Js.len String.length].
    unfold Js.len. by rewrite Nat.add_succ_r.
Qed.

(** a pattern that fails on every character of a class, and on the empty
    text, is not found in a text of that class *)
Lemma search_none_first r (q : ascii -> bool) s : forall prev pos,
  (forall c rest prev pos, q c = true -> match_here r prev pos (String c rest) = None) ->
  (forall prev pos, match_here r prev pos EmptyString = None) ->
  all_chars q s = true ->
  search r prev pos s = None.
Proof.
  intros prev pos Hc He. revert prev pos.
  induction s as [|c s IH]; intros prev pos Hs.
  - cbn [search]. by rewrite He.
  - cbn [all_chars] in Hs. apply andb_prop in Hs as [Hq Hs].
    rewrite search_cons, (Hc _ _ _ _ Hq). by apply IH.
Qed.

Lemma rmatch_seq {R} a b st cs (k : mstate -> caps -> option R) :
  rmatch (Seq a b) st cs k = rmatch a st cs (fun st' cs' => rmatch b st' cs' k).
Proof. reflexivity. Qed.

(** white space and then an equals sign cannot be read off a text that
    has neither *)
Lemma ws_eq_fails {R} t prev pos cs (k : mstate -> caps -> option R) :
  all_chars no_ws_eq t = true ->
  rmatch (Seq (Star Js.is_ws) (Chr (is_char "="))) (MState prev pos t) cs k = None.
Proof.
  intros Ht. cbn [rmatch m_rest m_pos m_prev].
  destruct t as [|c t]; [done |]. cbn [all_chars] in Ht.
  apply andb_prop in Ht as [Hc _]. unfold no_ws_eq in Hc.
  apply andb_prop in Hc as [Hws Heq]. apply negb_true_iff in Hws, Heq.
  cbn [star_greedy]. rewrite Hws. cbn [m_rest]. by rewrite Heq.
Qed.

Lemma ws_eq_then_fails {R} r t prev pos cs (k : mstate -> caps -> option R) :
  all_chars no_ws_eq t = true ->
  rmatch (Seq (Star Js.is_ws) (Seq (Chr (is_char "=")) r)) (MState prev pos t) cs k = None.
Proof.
  intros Ht. cbn [rmatch m_rest m_pos m_prev].
  destruct t as [|c t]; [done |]. cbn [all_chars] in Ht.
  apply andb_prop in Ht as [Hc _]. unfold no_ws_eq in Hc.
  apply andb_prop in Hc as [Hws Heq]. apply negb_true_iff in Hws, Heq.
  cbn [star_greedy]. rewrite Hws. cbn [m_rest]. by rewrite Heq.
Qed.

Lemma search_none_all r (q : ascii -> bool) s :
  (forall t prev pos, all_chars q t = true -> match_here r prev pos t = None) ->
  all_chars q s = true ->
  forall prev pos, search r prev pos s = None.
Proof.
  intros Hm. induction s as [|c s IH]; intros Hs prev pos.
  - cbn [search]. by rewrite Hm.
  - rewrite search_cons, Hm by done. apply IH.
    cbn [all_chars] in Hs. by apply andb_prop in Hs as [_ Hs].
Qed.

Lemma rmatch_wordb {R} st cs (k : mstate -> caps -> option R) :
  rmatch WordB st cs k
  = if xorb (is_word_opt (m_prev st)) (is_word_opt (head (m_rest st))) then k st cs else None.
Proof. reflexivity. Qed.

Lemma no_alt_here t prev pos :
  all_chars no_ws_eq t = true -> match_here ImagesFix.re_alt prev pos t = None.
Proof.
  intros Ht. unfold match_here, ImagesFix.re_alt. cbn [seqs].
  rewrite rmatch_seq, rmatch_wordb. destruct (xorb _ _); [| done].
  rewrite rmatch_seq, rmatch_lit. cbn [m_rest m_pos m_prev].
  destruct (Js.starts_with "alt" t); [| done].
  apply ws_eq_fails. by apply all_chars_drop.
Qed.

Lemma no_role_here t prev pos :
  all_chars no_ws_eq t = true -> match_here ScanImages.roleImgPattern prev pos t = None.
Proof.
  intros Ht. unfold match_here, ScanImages.roleImgPattern. cbn [seqs].
  rewrite rmatch_seq, rmatch_lit_ci. cbn [m_rest m_pos m_prev].
  destruct (starts_with_ci "role" t); [| done].
  apply ws_eq_then_fails. by apply all_chars_drop.
Qed.

Lemma no_img_here t prev pos :
  all_chars no_lt t = true -> match_here ScanImages.imgPattern prev pos t = None.
Proof.
  intros Ht. unfold match_here, ScanImages.imgPattern. cbn [seqs].
  rewrite rmatch_seq, rmatch_lit_ci. cbn [m_rest m_pos m_prev].
  destruct t as [|c t]; [done |]. cbn [all_chars] in Ht.
  apply andb_prop in Ht as [Hc _]. apply negb_true_iff in Hc.
  cbn [starts_with_ci]. by rewrite Hc.
Qed.

Lemma no_Image_here t prev pos :
  all_chars no_lt t = true -> match_here ScanImages.imageCompPattern prev pos t = None.
Proof.
  intros Ht. unfold match_here, ScanImages.imageCompPattern. cbn [seqs].
  rewrite rmatch_seq, rmatch_lit_ci. cbn [m_rest m_pos m_prev].
  destruct t as [|c t]; [done |]. cbn [all_chars] in Ht.
  apply andb_prop in Ht as [Hc _]. apply negb_true_iff in Hc.
  cbn [starts_with_ci]. by rewrite Hc.
Qed.

Lemma star_lazy_skip_class {R} p q (k : mstate -> option R) x : forall prev pos y,
  all_chars p x = true -> all_chars q x = true ->
  (forall c rest prev pos, q c = true -> k (MState prev pos (String c rest)) = None) ->
  star_lazy p k prev pos (x +:+ y)
  = star_lazy p k (last_char prev x) (pos + Js.len x) y.
Proof.
  intros prev pos y Hp Hq Hk. apply star_lazy_skip; [exact Hp |].
  intros x1 c x2 ->. rewrite str_app_cons. apply Hk.
  rewrite all_chars_app in Hq. apply andb_prop in Hq as [_ Hq].
  cbn [all_chars] in Hq. by apply andb_prop in Hq as [Hq _].
Qed.

Lemma icon_tag_eq name : icon_tag name = "<img " +:+ icon_attrs name +:+ ">".
Proof.
  unfold icon_tag, icon_attrs, Js.quoted, dqs. rewrite !str_app_assoc. reflexivity.
Qed.

Lemma tag_end_fails {R} c rest prev pos cs (k : mstate -> caps -> option R) :
  not_tag_end c = true ->
  rmatch (seqs [opt (Chr (is_char "/")); Star Js.is_ws; Chr (is_char ">")])
    (MState prev pos (String c rest)) cs k = None.
Proof.
  unfold not_tag_end. intros H. apply andb_prop in H as [H Hgt].
  apply andb_prop in H as [Hsl Hws]. apply negb_true_iff in Hsl, Hws, Hgt.
  cbn [seqs opt rmatch m_rest m_pos m_prev star_greedy]. by rewrite Hsl, Hws, Hgt.
Qed.

(** a fact about every character, by cases on its eight bits *)
Lemma name_char_not_tag_end c : name_char c = true -> not_tag_end c = true.
Proof. by_ascii_cases c. Qed.

Lemma name_char_no_ws_eq c : name_char c = true -> no_ws_eq c = true.
Proof. by_ascii_cases c. Qed.

Lemma name_char_no_lt c : name_char c = true -> no_lt c = true.
Proof. by_ascii_cases c. Qed.

Lemma name_char_not_gt c : name_char c = true -> ScanImages.not_gt c = true.
Proof. by_ascii_cases c. Qed.

Lemma name_char_not_quote c : name_char c = true -> ImagesFix.not_quote c = true.
Proof. by_ascii_cases c. Qed.

Lemma name_char_neq_gt c : name_char c = true -> negb (Ascii.eqb c ">") = true.
Proof. by_ascii_cases c. Qed.

Lemma name_char_neq_nl c : name_char c = true -> negb (Ascii.eqb c Js.nl) = true.
Proof. by_ascii_cases c. Qed.

Lemma rmatch_chr {R} p prev pos c rest cs (k : mstate -> caps -> option R) :
  rmatch (Chr p) (MState prev pos (String c rest)) cs k
  = if p c then k (MState (Some c) (S pos) rest) cs else None.
Proof. reflexivity. Qed.

Lemma rmatch_group {R} n r st cs (k : mstate -> caps -> option R) :
  rmatch (Group n r) st cs k
  = rmatch r st cs (fun st' cs' => k st' ((n, (m_pos st, m_pos st')) :: cs')).
Proof. reflexivity. Qed.

Lemma rmatch_lazy {R} p prev pos rest cs (k : mstate -> caps -> option R) :
  rmatch (LazyStar p) (MState prev pos rest) cs k
  = star_lazy p (fun st' => k st' cs) prev pos rest.
Proof. reflexivity. Qed.

Lemma rmatch_star {R} p prev pos rest cs (k : mstate -> caps -> option R) :
  rmatch (Star p) (MState prev pos rest) cs k
  = star_greedy p (fun st' => k st' cs) prev pos rest.
Proof. reflexivity. Qed.

Lemma search_here r prev pos s m :
  match_here r prev pos s = Some m -> search r prev pos s = Some m.
Proof. intros H. destruct s; cbn [search]; by rewrite H. Qed.

(** a search runs over a text of a class on whose characters the pattern
    cannot start *)
Lemma search_skip r (q : ascii -> bool) x : forall y prev pos,
  all_chars q x = true ->
  (forall c rest prev pos, q c = true -> match_here r prev pos (String c rest) = None) ->
  search r prev pos (x +:+ y) = search r (last_char prev x) (pos + Js.len x) y.
Proof.
  induction x as [|c x IH]; intros y prev pos Hx Hq.
  - unfold Js.len. cbn. by rewrite Nat.add_0_r.
  - cbn [all_chars] in Hx. apply andb_prop in Hx as [Hc Hx].
    rewrite str_app_cons, search_cons, (Hq _ _ _ _ Hc), IH by done.
    unfold Js.len. cbn [last_char String.length]. by rewrite Nat.add_succ_r.
Qed.

Lemma alt_first c rest prev pos :
  Ascii.eqb "a" c = false -> match_here ImagesFix.re_alt prev pos (String c rest) = None.
Proof.
  intros Hc. unfold match_here, ImagesFix.re_alt. cbn [seqs].
  rewrite rmatch_seq, rmatch_wordb. destruct (xorb _ _); [| done].
  rewrite rmatch_seq, rmatch_lit. cbn [m_rest Js.starts_with]. by rewrite Hc.
Qed.

Lemma role_first c rest prev pos :
  is_char_ci "r" c = false ->
  match_here ScanImages.roleImgPattern prev pos (String c rest) = None.
Proof.
  intros Hc. unfold match_here, ScanImages.roleImgPattern. cbn [seqs].
  rewrite rmatch_seq, rmatch_lit_ci. cbn [m_rest starts_with_ci]. by rewrite Hc.
Qed.

Lemma role_second c1 c2 rest prev pos :
  is_char_ci "o" c2 = false ->
  match_here ScanImages.roleImgPattern prev pos (String c1 (String c2 rest)) = None.
Proof.
  intros Hc. unfold match_here, ScanImages.roleImgPattern. cbn [seqs].
  rewrite rmatch_seq, rmatch_lit_ci. cbn [m_rest starts_with_ci]. rewrite Hc.
  by destruct (is_char_ci "r" c1).
Qed.

Lemma exec_all_none r s : search r None 0 s = None -> exec_all r s = [].
Proof. intros H. unfold exec_all. cbn [exec_all_from]. by rewrite H. Qed.

Lemma str_drop_all s : Js.drop (Js.len s) s = EmptyString.
Proof. rewrite <- (str_app_nil_r s) at 2. apply str_drop_app. Qed.

(** the matches of a pattern that matches the whole text at once *)
Lemma exec_all_whole r s m :
  search r None 0 s = Some m -> index m = 0 -> stop m = Js.len s -> 0 < Js.len s ->
  (forall prev pos, match_here r prev pos EmptyString = None) ->
  exec_all r s = [m].
Proof.
  intros Hs Hi Hst Hlen He. unfold exec_all. cbn [exec_all_from]. rewrite Hs, Hi, Hst.
  replace (Js.len s =? 0) with false by (symmetry; apply Nat.eqb_neq; lia).
  rewrite Nat.sub_0_r, Nat.ltb_irrefl, str_drop_all.
  destruct (Js.len s) as [|n] eqn:Hn; [lia |]. cbn [exec_all_from search]. by rewrite He.
Qed.

Section Icon.
Variable name : string.
Hypothesis Hname : all_chars name_char name = true.

Lemma attrs_class (q : ascii -> bool) :
  (forall c, name_char c = true -> q c = true) ->
  all_chars q ("src=" +:+ dqs) = true -> q Js.dq = true ->
  all_chars q (icon_attrs name) = true.
Proof.
  intros Hq Hpre Hdq. unfold icon_attrs.
  rewrite (all_chars_app q ("src=" +:+ dqs)), (all_chars_app q name), Hpre.
  rewrite (all_chars_impl _ _ _ Hq Hname). cbn. by rewrite Hdq.
Qed.

Lemma len_attrs : Js.len (icon_attrs name) = 6 + Js.len name.
Proof. unfold icon_attrs. rewrite !str_len_app. unfold Js.len. cbn. lia. Qed.

Lemma img_match_here :
  match_here ScanImages.imgPattern None 0 (icon_tag name)
  = Some (MatchResult 0 (12 + Js.len name) [(1, (5, 11 + Js.len name))]).
Proof.
  rewrite icon_tag_eq. unfold match_here, ScanImages.imgPattern. cbn [seqs].
  rewrite rmatch_seq, rmatch_lit_ci.
  change (starts_with_ci "<img" (m_rest (MState None 0 ("<img " +:+ icon_attrs name +:+ ">"))))
    with true.
  cbn [m_rest m_pos m_prev].
  change (Js.drop (Js.len "<img") ("<img " +:+ icon_attrs name +:+ ">"))
    with (String " " (icon_attrs name +:+ ">")).
  change (last_char None (Js.take (Js.len "<img") ("<img " +:+ icon_attrs name +:+ ">")))
    with (Some "g"%char).
  change (0 + Js.len "<img") with 4.
  rewrite rmatch_seq, rmatch_chr. change (Js.is_ws " ") with true. cbv iota.
  rewrite rmatch_seq, rmatch_group, rmatch_lazy.
  rewrite (star_lazy_skip_class ScanImages.not_gt not_tag_end).
  - rewrite len_attrs. cbn. do 2 f_equal.
  - apply attrs_class; [apply name_char_not_gt | reflexivity | reflexivity].
  - apply attrs_class; [apply name_char_not_tag_end | reflexivity | reflexivity].
  - intros c rest prev pos Hc. by apply tag_end_fails.
Qed.
Lemma img_empty prev pos : match_here ScanImages.imgPattern prev pos EmptyString = None.
Proof. reflexivity. Qed.

Lemma len_icon_tag : Js.len (icon_tag name) = 12 + Js.len name.
Proof. rewrite icon_tag_eq, !str_len_app, len_attrs. unfold Js.len. cbn. lia. Qed.

Lemma img_exec_all :
  exec_all ScanImages.imgPattern (icon_tag name)
  = [MatchResult 0 (12 + Js.len name) [(1, (5, 11 + Js.len name))]].
Proof.
  apply exec_all_whole; cbn [index stop].
  - apply search_here, img_match_here.
  - reflexivity.
  - by rewrite len_icon_tag.
  - rewrite len_icon_tag. lia.
  - apply img_empty.
Qed.

Lemma img_attrs :
  group (icon_tag name) (MatchResult 0 (12 + Js.len name) [(1, (5, 11 + Js.len name))]) 1
  = Some (icon_attrs name).
Proof.
  unfold group. cbn [groups lookup_group Nat.eqb]. rewrite icon_tag_eq.
  rewrite (str_drop_app_eq 5 "<img ") by reflexivity.
  replace (11 + Js.len name - 5) with (Js.len (icon_attrs name)) by (rewrite len_attrs; lia).
  by rewrite str_take_app.
Qed.

Lemma attrs_no_alt : test ImagesFix.re_alt (icon_attrs name) = false.
Proof.
  unfold test, exec, icon_attrs.
  rewrite (search_skip _ (fun c => negb (Ascii.eqb "a" c))).
  - rewrite (search_none_all _ no_ws_eq); [done | apply no_alt_here |].
    rewrite all_chars_app, (all_chars_impl _ _ _ name_char_no_ws_eq Hname). reflexivity.
  - reflexivity.
  - intros c rest prev pos Hc. apply alt_first. by apply negb_true_iff.
Qed.

Lemma tag_no_alt : test ImagesFix.re_alt (icon_tag name) = false.
Proof.
  unfold test, exec. rewrite icon_tag_eq. unfold icon_attrs.
  replace ("<img " +:+ (("src=" +:+ dqs) +:+ name +:+ dqs) +:+ ">")
    with (("<img " +:+ "src=" +:+ dqs) +:+ name +:+ dqs +:+ ">")
    by (rewrite !str_app_assoc; reflexivity).
  rewrite (search_skip _ (fun c => negb (Ascii.eqb "a" c))).
  - rewrite (search_none_all _ no_ws_eq); [done | apply no_alt_here |].
    rewrite all_chars_app, (all_chars_impl _ _ _ name_char_no_ws_eq Hname). reflexivity.
  - reflexivity.
  - intros c rest prev pos Hc. apply alt_first. by apply negb_true_iff.
Qed.

Lemma tag_no_role : exec_all ScanImages.roleImgPattern (icon_tag name) = [].
Proof.
  apply exec_all_none. rewrite icon_tag_eq. unfold icon_attrs.
  replace ("<img " +:+ (("src=" +:+ dqs) +:+ name +:+ dqs) +:+ ">")
    with ("<img s" +:+ String "r" (String "c" (("=" +:+ dqs) +:+ name +:+ dqs +:+ ">")))
    by (rewrite !str_app_assoc; reflexivity).
  rewrite (search_skip _ (fun c => negb (is_char_ci "r" c)));
    [| reflexivity | by intros; apply role_first, negb_true_iff].
  rewrite search_cons.
  rewrite (role_second "r" "c") by reflexivity.
  change (String "c" (("=" +:+ dqs) +:+ name +:+ dqs +:+ ">"))
    with (("c=" +:+ dqs) +:+ name +:+ dqs +:+ ">").
  rewrite (search_skip _ (fun c => negb (is_char_ci "r" c)));
    [| reflexivity | by intros; apply role_first, negb_true_iff].
  apply (search_none_all _ no_ws_eq); [apply no_role_here |].
  rewrite all_chars_app, (all_chars_impl _ _ _ name_char_no_ws_eq Hname). reflexivity.
Qed.

Lemma tag_no_Image : exec_all ScanImages.imageCompPattern (icon_tag name) = [].
Proof.
  apply exec_all_none. rewrite icon_tag_eq.
  change ("<img " +:+ icon_attrs name +:+ ">")
    with (String "<" ("img " +:+ icon_attrs name +:+ ">")).
  rewrite search_cons.
  replace (match_here ScanImages.imageCompPattern None 0
             (String "<" ("img " +:+ icon_attrs name +:+ ">"))) with (@None rmatch_result).
  - apply (search_none_all _ no_lt); [apply no_Image_here |].
    rewrite !all_chars_app. rewrite attrs_class; [reflexivity | apply name_char_no_lt | reflexivity | reflexivity].
  - unfold match_here, ScanImages.imageCompPattern. cbn [seqs].
    rewrite rmatch_seq, rmatch_lit_ci. reflexivity.
Qed.

Hypothesis Hicon : Js.includes "icon" name = true.

Lemma rmatch_alt {R} r1 r2 st cs (k : mstate -> caps -> option R) :
  rmatch (Alt r1 r2) st cs k
  = match rmatch r1 st cs k with Some x => Some x | None => rmatch r2 st cs k end.
Proof. reflexivity. Qed.

Lemma name_hinted : test ImagesFix.DECORATIVE_HINTS name = true.
Proof.
  destruct (includes_inv _ _ Hicon) as (a & b & -> & _).
  unfold test, exec.
  destruct (search ImagesFix.DECORATIVE_HINTS None 0 (a +:+ "icon" +:+ b)) eqn:Hs; [done |].
  exfalso. revert Hs. apply search_app_some.
  unfold match_here, ImagesFix.DECORATIVE_HINTS. cbn [alts map].
  rewrite rmatch_alt, rmatch_lit_ci.
  change (starts_with_ci "icon" (m_rest (MState (last_char None a) (0 + Js.len a) ("icon" +:+ b))))
    with true.
  discriminate.
Qed.

Lemma src_match_here :
  match_here ImagesFix.re_src None 0 (icon_attrs name)
  = Some (MatchResult 0 (6 + Js.len name) [(1, (5, 5 + Js.len name))]).
Proof.
  destruct name as [|n0 name'] eqn:En; [discriminate |].
  cbn [all_chars] in Hname. apply andb_prop in Hname as [Hn0 Hname'].
  unfold icon_attrs, dqs.
  change (("src=" +:+ String Js.dq EmptyString) +:+ String n0 name' +:+ String Js.dq EmptyString)
    with (String "s" (String "r" (String "c" (String "=" (String Js.dq
           (String n0 (name' +:+ String Js.dq EmptyString))))))).
  unfold match_here, ImagesFix.re_src. cbn [seqs].
  rewrite rmatch_seq, rmatch_wordb. cbn [m_prev m_rest is_word_opt head xorb].
  change (Js.is_word "s") with true. cbv iota.
  rewrite rmatch_seq, rmatch_lit. cbn [m_rest m_pos m_prev Js.starts_with].
  change (Ascii.eqb "s" "s") with true. change (Ascii.eqb "r" "r") with true.
  change (Ascii.eqb "c" "c") with true. cbv iota.
  cbn [Js.drop Js.len String.length last_char Nat.add].
  rewrite rmatch_seq, rmatch_star. cbn [star_greedy]. change (Js.is_ws "=") with false.
  cbv iota. rewrite rmatch_seq, rmatch_chr. change (is_char "=" "=") with true. cbv iota.
  rewrite rmatch_seq, rmatch_star. cbn [star_greedy]. change (Js.is_ws Js.dq) with false.
  cbv iota. rewrite rmatch_seq, rmatch_chr. change (ImagesFix.quote Js.dq) with true. cbv iota.
  rewrite rmatch_seq, rmatch_group. unfold plus. rewrite rmatch_seq, rmatch_chr.
  rewrite (name_char_not_quote _ Hn0). rewrite rmatch_star.
  apply star_greedy_run.
  - exact (all_chars_impl _ _ _ name_char_not_quote Hname').
  - reflexivity.
  - rewrite rmatch_chr. change (ImagesFix.quote Js.dq) with true. cbv iota.
    reflexivity.
Qed.

Lemma attrs_decorative : ImagesFix.looks_decorative (icon_attrs name) = true.
Proof.
  unfold ImagesFix.looks_decorative, exec.
  rewrite (search_here _ _ _ _ _ src_match_here). unfold ImagesFix.hinted, group.
  cbn [groups lookup_group Nat.eqb]. unfold icon_attrs.
  rewrite (str_drop_app_eq 5 ("src=" +:+ dqs)) by reflexivity.
  replace (5 + Js.len name - 5) with (Js.len name) by lia.
  by rewrite str_take_app, name_hinted.
Qed.

Lemma str_take_all s : Js.take (Js.len s) s = s.
Proof. rewrite <- (str_app_nil_r s) at 2. apply str_take_app. Qed.

Lemma scan_icon fw relPath :
  ScanImages.scanImages fw [(relPath, Some (icon_tag name))]
  = [ScanImages.finding medium relPath 1 ScanImages.decorative_problem
       ("Without alt=" +:+ Js.quoted EmptyString
          +:+ ", screen readers may announce the filename, which is confusing for decorative images.")
       ("Add alt=" +:+ Js.quoted EmptyString +:+ " to mark this image as decorative.")
       true].
Proof.
  cbn [ScanImages.scanImages].
  change (String.eqb (icon_tag name) EmptyString) with false. cbv iota.
  unfold ScanImages.scan_content.
  rewrite img_exec_all, tag_no_Image, tag_no_role. cbn [map concat].
  unfold ScanImages.scan_img. rewrite img_attrs, attrs_no_alt, attrs_decorative.
  cbn [index]. destruct (String.eqb fw "nextjs"); reflexivity.
Qed.

Lemma icon_lines : Js.split_nl (icon_tag name) = [icon_tag name].
Proof.
  apply split_nl_one. rewrite icon_tag_eq, !all_chars_app.
  rewrite attrs_class; [reflexivity | apply name_char_neq_nl | reflexivity | reflexivity].
Qed.

Lemma icon_img_exec :
  exec ImagesFix.re_img (icon_tag name) = Some (MatchResult 0 5 []).
Proof.
  apply search_here. unfold match_here, ImagesFix.re_img.
  rewrite rmatch_seq, rmatch_lit_ci. rewrite icon_tag_eq. reflexivity.
Qed.

Lemma icon_tag_end : Js.indexOf ">" 0 (icon_tag name) = Z.of_nat (11 + Js.len name).
Proof.
  unfold Js.indexOf. cbn [Js.drop]. rewrite icon_tag_eq.
  replace ("<img " +:+ icon_attrs name +:+ ">") with (("<img " +:+ icon_attrs name) +:+ ">")
    by (by rewrite str_app_assoc).
  rewrite find_char_skip.
  - rewrite str_len_app, len_attrs. cbn [Js.find_char].
    change (Ascii.eqb ">" ">") with true. cbv iota. f_equal.
  - rewrite all_chars_app.
    rewrite attrs_class; [reflexivity | apply name_char_neq_gt | reflexivity | reflexivity].
Qed.

Lemma fix_icon path_join projectRoot relPath w :
  files w !! path_join projectRoot relPath = Some (icon_tag name) ->
  ImagesFix.applyFix path_join projectRoot
    (ScanImages.finding medium relPath 1 ScanImages.decorative_problem
       ("Without alt=" +:+ Js.quoted EmptyString
          +:+ ", screen readers may announce the filename, which is confusing for decorative images.")
       ("Add alt=" +:+ Js.quoted EmptyString +:+ " to mark this image as decorative.")
       true) w
  = (fixed_with ("Added alt=" +:+ Js.quoted EmptyString +:+ " (decorative) to <img> in "
                   +:+ relPath +:+ " line 1."),
     writeFileSync (path_join projectRoot relPath)
       ("<img alt=" +:+ Js.quoted EmptyString +:+ " src=" +:+ Js.quoted name +:+ ">")
       (writeFileSync (path_join projectRoot relPath +:+ ".bak") (icon_tag name) w)).
Proof.
  intros Hfile. unfold ImagesFix.applyFix. cbv zeta.
  cbn [file ScanImages.finding problem]. rewrite Hfile, icon_lines.
  change (out_of_range _ [icon_tag name]) with false. cbv iota.
  change (Js.includes "decorative" ScanImages.decorative_problem
          && Js.includes "missing alt" ScanImages.decorative_problem) with true. cbv iota.
  unfold ImagesFix.fixImgAlt. cbv zeta.
  change (line_at [icon_tag name] (Z.to_nat (line_index _))) with (icon_tag name).
  rewrite icon_img_exec. cbn [index stop].
  rewrite icon_tag_end.
  replace (Js.substring (Z.of_nat 0) (Z.of_nat (11 + Js.len name) + 1) (icon_tag name))
    with (icon_tag name).
  2:{ unfold Js.substring.
      replace (Z.to_nat (Z.max 0 (Z.of_nat 0))) with 0 by lia.
      replace (Z.to_nat (Z.max 0 (Z.of_nat (11 + Js.len name) + 1))) with (Js.len (icon_tag name))
        by (rewrite len_icon_tag; lia).
      rewrite Nat.min_0_l, Nat.max_0_l, Nat.sub_0_r. cbn [Js.drop].
      by rewrite str_take_all. }
  rewrite tag_no_alt.
  assert (Htake : Js.take 5 (icon_tag name) = "<img ")
    by (rewrite icon_tag_eq; by apply str_take_app_eq).
  assert (Hdrop : Js.drop 5 (icon_tag name) = icon_attrs name +:+ ">")
    by (rewrite icon_tag_eq; by apply str_drop_app_eq).
  unfold matched. cbn [index stop Nat.sub Js.drop].
  rewrite Htake. change (0 + Js.len "<img ") with 5. rewrite Htake, Hdrop.
  change (Z.to_nat (line_index _)) with 0.
  reflexivity.
Qed.

End Icon.

End WalkFacts.

(** ** A repeated tabindex fix *)

Section AgainFacts.
Import Rx.

Lemma all_chars_take p n : forall s, all_chars p s = true -> all_chars p (Js.take n s) = true.
Proof.
  induction n as [|n IH]; intros s H; [done |].
  destruct s as [|c s]; [done |]. cbn [all_chars Js.take] in *.
  apply andb_prop in H as [Hc H]. by rewrite Hc, IH.
Qed.

(** the lines of a text hold no line separator, and there is at least one *)
Lemma split_nl_lines s :
  Js.split_nl s <> [] /\ Forall (fun l => all_chars not_nl l = true) (Js.split_nl s).
Proof.
  induction s as [|c s [IHne IH]]; [split; [done | by repeat constructor] |].
  cbn [Js.split_nl]. unfold not_nl in *.
  destruct (Ascii.eqb c Js.nl) eqn:Hc.
  - split; [done |]. by constructor.
  - destruct (Js.split_nl s) as [|l ls]; [done |]. split; [done |].
    inversion IH as [|? ? Hl Hls]; subst. constructor; [| done].
    cbn [all_chars]. by rewrite Hc, Hl.
Qed.

Lemma split_nl_app l s :
  all_chars not_nl l = true ->
  Js.split_nl (l +:+ String Js.nl s) = l :: Js.split_nl s.
Proof.
  induction l as [|c l IH]; intros Hl.
  - rewrite str_app_nil_l. cbn [Js.split_nl]. by rewrite Ascii.eqb_refl.
  - cbn [all_chars] in Hl. apply andb_prop in Hl as [Hc Hl].
    rewrite str_app_cons. cbn [Js.split_nl]. unfold not_nl in Hc.
    apply negb_true_iff in Hc. by rewrite Hc, IH.
Qed.

(** splitting what was joined gives the lines back *)
Lemma split_join ls :
  ls <> [] -> Forall (fun l => all_chars not_nl l = true) ls ->
  Js.split_nl (Js.join_nl ls) = ls.
Proof.
  induction ls as [|l ls IH]; intros Hne Hall; [done |].
  inversion Hall as [|? ? Hl Hls]; subst.
  destruct ls as [|l' ls].
  - cbn [Js.join_nl]. by apply split_nl_one.
  - change (Js.join_nl (l :: l' :: ls)) with (l +:+ String Js.nl (Js.join_nl (l' :: ls))).
    rewrite split_nl_app by done. by rewrite IH.
Qed.

Lemma test_tabindex a b :
  test SemanticsFix.re_tabindex (a +:+ ("tabindex=" +:+ Js.quoted "0" +:+ " ") +:+ b) = true.
Proof.
  unfold test, exec.
  pose proof (search_app_some SemanticsFix.re_tabindex a
                (("tabindex=" +:+ Js.quoted "0" +:+ " ") +:+ b) None 0) as H.
  destruct (search _ _ _ _); [done |]. exfalso. apply H; [| done].
  vm_compute. discriminate.
Qed.

Variable path_join : string -> string -> string.
Variable projectRoot : string.
Variable issue : Issue.

(** the tabindex handler, applied again after a success, fails as the
    attribute is there, and leaves the world as the first attempt left it *)
Lemma addTabindex_again w :
  let first := SemanticsFix.applyFix path_join projectRoot issue w in
  Js.includes "onClick handler used as interactive control" (problem issue) = false ->
  success (fst first) = true ->
  SemanticsFix.applyFix path_join projectRoot issue (snd first)
  = (failure "Element already has tabindex.", snd first).
Proof.
  cbv zeta. intros Hclick Hok.
  remember (SemanticsFix.applyFix path_join projectRoot issue w) as first eqn:Hfirst.
  unfold SemanticsFix.applyFix in Hfirst. cbv zeta in Hfirst.
  destruct (files w !! path_join projectRoot (file issue)) as [content|] eqn:Hfile;
    [| by subst first].
  rewrite Hclick in Hfirst.
  destruct (Js.includes "missing tabindex" (problem issue)) eqn:Htab; [| by subst first].
  unfold SemanticsFix.addTabindex in Hfirst. cbv zeta in Hfirst.
  destruct (out_of_range (line_index issue) (Js.split_nl content)) eqn:Hrange;
    [by subst first |].
  destruct (in_range _ _ Hrange) as (idx & ln & Hi & Hidx & Hln & Hat).
  rewrite Hidx, Hat in Hfirst.
  destruct (test SemanticsFix.re_tabindex ln) eqn:Htest; [by subst first |].
  destruct (exec SemanticsFix.re_div_span ln) as [tagMatch|] eqn:Hexec; [| by subst first].
  set (p := Z.to_nat (Js.indexOf_str (matched ln tagMatch) ln
                       + Z.of_nat (Js.len (matched ln tagMatch)))%Z) in Hfirst.
  set (new := Js.take p ln +:+ ("tabindex=" +:+ Js.quoted "0" +:+ " ") +:+ Js.drop p ln)
    in Hfirst.
  set (w2 := writeFileSync _ _ (writeFileSync _ _ w)) in Hfirst.
  subst first. cbn [snd]. clear Hok.
  destruct (split_nl_lines content) as [Hne Hall].
  assert (Hln_nl : all_chars not_nl ln = true).
  { rewrite Forall_forall in Hall. apply Hall. by eapply list_elem_of_lookup_2. }
  assert (Hsplit : Js.split_nl (Js.join_nl (<[idx := new]> (Js.split_nl content)))
                   = <[idx := new]> (Js.split_nl content)).
  { apply split_join.
    - intros Hnil. apply (f_equal length) in Hnil. rewrite length_insert in Hnil.
      by destruct (Js.split_nl content).
    - apply Forall_insert; [exact Hall |]. subst new.
      rewrite !all_chars_app, all_chars_take, all_chars_drop by done. reflexivity. }
  unfold SemanticsFix.applyFix. cbv zeta.
  assert (Hfile2 : files w2 !! path_join projectRoot (file issue)
                   = Some (Js.join_nl (<[idx := new]> (Js.split_nl content)))).
  { subst w2. cbn [writeFileSync files]. apply lookup_insert_eq. }
  rewrite Hfile2, Hclick, Htab, Hsplit. unfold SemanticsFix.addTabindex.
  assert (Hrange2 : out_of_range (line_index issue) (<[idx := new]> (Js.split_nl content)) = false).
  { unfold out_of_range in *. by rewrite length_insert. }
  rewrite Hrange2, Hidx. cbv zeta.
  assert (Hat2 : line_at (<[idx := new]> (Js.split_nl content)) idx = new).
  { unfold line_at. rewrite list_lookup_insert_eq; [done |]. by eapply lookup_lt_Some. }
  rewrite Hat2. subst new. by rewrite test_tabindex.
Qed.

End AgainFacts.

(** ** A repeated image fix *)

Section ImgAgainFacts.
Import Rx.

Lemma match_here_img prev pos y :
  match_here ImagesFix.re_img prev pos y
  = if img_at y then Some (MatchResult pos (pos + 5) []) else None.
Proof.
  unfold match_here, ImagesFix.re_img, img_at. rewrite rmatch_seq, rmatch_lit_ci.
  cbn [m_rest m_pos m_prev].
  destruct (starts_with_ci "<img" y); [| done]. cbn [andb].
  change (Js.len "<img") with 4.
  destruct (Js.drop 4 y) as [|c rest]; [done |]. rewrite rmatch_chr.
  destruct (Js.is_ws c); [| done]. cbn [m_pos]. do 2 f_equal. lia.
Qed.

Lemma search_intro r a : forall b prev pos m,
  match_here r (last_char prev a) (pos + Js.len a) b = Some m ->
  (forall x' y', a +:+ b = x' +:+ y' -> Js.len x' < Js.len a ->
     match_here r (last_char prev x') (pos + Js.len x') y' = None) ->
  search r prev pos (a +:+ b) = Some m.
Proof.
  induction a as [|c a IH]; intros b prev pos m Hm Hnone.
  - rewrite str_app_nil_l. unfold Js.len in Hm. cbn in Hm. rewrite Nat.add_0_r in Hm.
    by apply search_here.
  - rewrite str_app_cons, search_cons.
    pose proof (Hnone EmptyString (String c a +:+ b)) as H0.
    unfold Js.len in H0. cbn [last_char String.length] in H0. rewrite Nat.add_0_r in H0.
    rewrite <- str_app_cons, H0; [| done | lia].
    apply IH.
    + rewrite str_len_cons in Hm. cbn [last_char] in Hm. by rewrite Nat.add_succ_comm.
    + intros x' y' Heq Hlen.
      specialize (Hnone (String c x') y'). rewrite !str_len_cons in Hnone.
      cbn [last_char] in Hnone. rewrite Nat.add_succ_comm. apply Hnone; [| lia].
      by rewrite !str_app_cons, Heq.
Qed.

Lemma str_app_split a : forall b x' y',
  a +:+ b = x' +:+ y' -> Js.len x' < Js.len a ->
  exists c a2, a = x' +:+ String c a2 /\ y' = String c a2 +:+ b.
Proof.
  induction a as [|d a IH]; intros b x' y' Heq Hlen.
  - unfold Js.len in Hlen. cbn in Hlen. lia.
  - destruct x' as [|e x'].
    + exists d, a. by rewrite str_app_nil_l in *.
    + rewrite !str_app_cons in Heq. injection Heq as -> Heq.
      rewrite !str_len_cons in Hlen.
      destruct (IH b x' y' Heq) as (c & a2 & -> & ->); [lia |].
      exists c, a2. by rewrite str_app_cons.
Qed.

Lemma img_at_prefix u v v' : 5 <= Js.len u -> img_at (u +:+ v) = img_at (u +:+ v').
Proof.
  intros H.
  destruct u as [|c1 [|c2 [|c3 [|c4 [|c5 u]]]]]; try (unfold Js.len in H; cbn in H; lia).
  reflexivity.
Qed.

(** the five characters of a tag start, none of them a closing bracket,
    the last one white space *)
Lemma img_at_inv b :
  img_at b = true ->
  exists t5 c r, b = t5 +:+ String c r /\ Js.len t5 = 4 /\ Js.is_ws c = true /\
    all_chars not_gt_char t5 = true.
Proof.
  unfold img_at. intros H. apply andb_prop in H as [Hs Hw].
  destruct b as [|c1 [|c2 [|c3 [|c4 [|c5 r]]]]]; try done;
    try (cbn in Hs; repeat case_match; done).
  exists (String c1 (String c2 (String c3 (String c4 EmptyString)))), c5, r.
  cbn [Js.drop] in Hw. repeat split; [exact Hw |].
  cbn [starts_with_ci] in Hs.
  destruct (is_char_ci "<" c1) eqn:H1; [| done].
  destruct (is_char_ci "i" c2) eqn:H2; [| done].
  destruct (is_char_ci "m" c3) eqn:H3; [| done].
  destruct (is_char_ci "g" c4) eqn:H4; [| done].
  cbn [all_chars].
  assert (G : forall k c, k <> ">"%char -> Js.upper k = k -> Js.upper ">" = ">"%char ->
                is_char_ci k c = true -> not_gt_char c = true).
  { intros k c Hk Hu Hg Hc. unfold is_char_ci in Hc. apply Ascii.eqb_eq in Hc.
    unfold not_gt_char. apply negb_true_iff, Ascii.eqb_neq. intros ->. congruence. }
  rewrite (G "<"%char c1), (G "I"%char c2), (G "M"%char c3), (G "G"%char c4); done.
Qed.

Lemma find_char_found c r : forall pos,
  Js.find_char c pos r <> (-1)%Z ->
  exists x y, r = x +:+ String c y /\
    all_chars (fun d => negb (Ascii.eqb d c)) x = true /\
    Js.find_char c pos r = Z.of_nat (pos + Js.len x).
Proof.
  induction r as [|d r IH]; intros pos H; [done |].
  cbn [Js.find_char] in *. destruct (Ascii.eqb d c) eqn:Hd.
  - apply Ascii.eqb_eq in Hd as ->. exists EmptyString, r.
    unfold Js.len. cbn. by rewrite Nat.add_0_r.
  - destruct (IH (S pos) H) as (x & y & -> & Hx & Hf).
    exists (String d x), y. rewrite str_app_cons, str_len_cons. cbn [all_chars].
    rewrite Hd, Hx, Hf. repeat split. f_equal. lia.
Qed.

Lemma substring_nat a b s :
  a <= b -> Js.substring (Z.of_nat a) (Z.of_nat b) s = Js.take (b - a) (Js.drop a s).
Proof.
  intros H. unfold Js.substring. cbv zeta.
  rewrite !Z.max_r, !Nat2Z.id by lia. by rewrite Nat.min_l, Nat.max_r by lia.
Qed.

Lemma str_take_more u : forall n v,
  Js.len u <= n -> Js.take n (u +:+ v) = u +:+ Js.take (n - Js.len u) v.
Proof.
  induction u as [|c u IH]; intros n v H.
  - rewrite !str_app_nil_l. unfold Js.len. cbn. by rewrite Nat.sub_0_r.
  - rewrite str_len_cons in *. destruct n as [|n]; [lia |].
    rewrite !str_app_cons. cbn [Js.take]. rewrite IH by lia. done.
Qed.

Lemma ws_not_word c : Js.is_ws c = true -> Js.is_word c = false.
Proof. by_ascii_cases c. Qed.

Lemma ws_not_gt c : Js.is_ws c = true -> not_gt_char c = true.
Proof. by_ascii_cases c. Qed.

Lemma last_char_app prev a c : last_char prev (a +:+ String c EmptyString) = Some c.
Proof.
  revert prev. induction a as [|d a IH]; intros prev; [done |].
  rewrite str_app_cons. cbn [last_char]. apply IH.
Qed.

(** the guard finds the attribute that stands right after the tag start *)
Lemma test_alt_after_tag t4 c rest :
  Js.is_ws c = true ->
  test ImagesFix.re_alt ((t4 +:+ String c EmptyString) +:+ ("alt=" +:+ rest)) = true.
Proof.
  intros Hc. unfold test, exec.
  pose proof (search_app_some ImagesFix.re_alt (t4 +:+ String c EmptyString)
                ("alt=" +:+ rest) None 0) as H.
  destruct (search _ _ _ _); [done |]. exfalso. apply H; [| done].
  rewrite last_char_app. unfold match_here, ImagesFix.re_alt.
  cbn [seqs]. rewrite rmatch_seq, rmatch_wordb. cbn [m_prev m_rest is_word_opt].
  rewrite (ws_not_word c Hc). vm_compute. discriminate.
Qed.

Lemma str_snoc t c r : t +:+ String c r = (t +:+ String c EmptyString) +:+ r.
Proof. by rewrite str_app_assoc, str_app_cons, str_app_nil_l. Qed.

(** a line on which an image tag is found: the text before the tag, the
    four characters of the tag name, the white space, the rest; the tag is
    found at the same place when a text is put in after the white space *)
Lemma img_line_split ln m :
  exec ImagesFix.re_img ln = Some m ->
  exists a t4 c r,
    ln = a +:+ (t4 +:+ String c EmptyString) +:+ r /\
    m = MatchResult (Js.len a) (Js.len a + 5) [] /\
    Js.len t4 = 4 /\ Js.is_ws c = true /\ all_chars not_gt_char t4 = true /\
    forall ins,
      exec ImagesFix.re_img (a +:+ (t4 +:+ String c EmptyString) +:+ ins +:+ r) = Some m.
Proof.
  intros Hexec. unfold exec in Hexec.
  destruct (search_some _ _ _ _ _ Hexec) as (a & b & Hln & Hm & Hearlier).
  cbn [last_char] in Hm. rewrite Nat.add_0_l, match_here_img in Hm.
  destruct (img_at b) eqn:Hb; [| done]. injection Hm as <-.
  destruct (img_at_inv b Hb) as (t4 & c & r & Hbeq & Ht4 & Hc & Hgt).
  rewrite str_snoc in Hbeq. exists a, t4, c, r.
  set (t5 := t4 +:+ String c EmptyString) in *.
  assert (Ht5 : Js.len t5 = 5).
  { subst t5. rewrite str_len_app, Ht4. reflexivity. }
  subst b ln. repeat split; try done.
  intros ins. unfold exec. apply search_intro.
  - cbn [last_char]. rewrite Nat.add_0_l, match_here_img.
    rewrite (img_at_prefix t5 _ r) by lia. by rewrite Hb.
  - intros x' y' Heq Hlen.
    destruct (str_app_split _ _ _ _ Heq Hlen) as (d & a2 & -> & ->).
    rewrite match_here_img.
    rewrite <- (str_app_assoc (String d a2) t5).
    rewrite (img_at_prefix (String d a2 +:+ t5) _ r).
    2:{ rewrite str_len_app. lia. }
    specialize (Hearlier x' (String d a2 +:+ t5 +:+ r)).
    rewrite match_here_img in Hearlier. rewrite str_app_assoc.
    destruct (img_at (String d a2 +:+ t5 +:+ r)); [| done].
    exfalso. discriminate Hearlier; [by rewrite !str_app_assoc | ].
    rewrite str_len_app, str_len_cons. lia.
Qed.

(** the line after the insertion, in the pieces of [img_line_split] *)
Lemma img_line_insert a t5 r ins :
  Js.len t5 = 5 ->
  let ln := a +:+ t5 +:+ r in
  let m := MatchResult (Js.len a) (Js.len a + 5) [] in
  Js.take (index m + Js.len (matched ln m)) ln +:+ ins
    +:+ Js.drop (index m + Js.len (matched ln m)) ln
  = a +:+ t5 +:+ ins +:+ r.
Proof.
  intros Ht5. cbv zeta. cbn [index].
  assert (Hmatched : matched (a +:+ t5 +:+ r) (MatchResult (Js.len a) (Js.len a + 5) []) = t5).
  { unfold matched. cbn [index stop]. rewrite str_drop_app.
    replace (Js.len a + 5 - Js.len a) with (Js.len t5) by lia. apply str_take_app. }
  rewrite Hmatched, Ht5.
  replace (Js.take (Js.len a + 5) (a +:+ t5 +:+ r)) with (a +:+ t5).
  2:{ rewrite <- str_app_assoc. replace (Js.len a + 5) with (Js.len (a +:+ t5)).
      - by rewrite str_take_app.
      - rewrite str_len_app. lia. }
  replace (Js.drop (Js.len a + 5) (a +:+ t5 +:+ r)) with r.
  2:{ rewrite <- str_app_assoc. replace (Js.len a + 5) with (Js.len (a +:+ t5)).
      - by rewrite str_drop_app.
      - rewrite str_len_app. lia. }
  by rewrite (str_app_assoc a t5).
Qed.

Lemma img_line_again ln m ins :
  exec ImagesFix.re_img ln = Some m ->
  Js.indexOf ">" (index m) ln <> (-1)%Z ->
  all_chars not_gt_char ins = true ->
  let p := index m + Js.len (matched ln m) in
  let new := Js.take p ln +:+ ("alt=" +:+ ins) +:+ Js.drop p ln in
  exec ImagesFix.re_img new = Some m /\
  test ImagesFix.re_alt
    (Js.substring (Z.of_nat (index m)) (Js.indexOf ">" (index m) new + 1)%Z new) = true.
Proof.
  intros Hexec Hend Hins.
  destruct (img_line_split ln m Hexec) as (a & t4 & c & r & -> & -> & Ht4 & Hc & Hgt & Hexec2).
  set (t5 := t4 +:+ String c EmptyString) in *.
  assert (Ht5 : Js.len t5 = 5).
  { subst t5. rewrite str_len_app, Ht4. reflexivity. }
  assert (Ht5gt : all_chars not_gt_char t5 = true).
  { subst t5. rewrite all_chars_app, Hgt. cbn [all_chars]. by rewrite (ws_not_gt c Hc). }
  cbv zeta. rewrite (img_line_insert a t5 r ("alt=" +:+ ins) Ht5).
  split; [apply Hexec2 |]. cbn [index] in *.
  unfold Js.indexOf in *. rewrite str_drop_app in *.
  rewrite find_char_skip in Hend by exact Ht5gt.
  rewrite find_char_skip by exact Ht5gt.
  rewrite find_char_skip.
  2:{ cbn [all_chars]. exact Hins. }
  destruct (find_char_found _ _ _ Hend) as (x & y & -> & Hx & Hf).
  rewrite find_char_skip by exact Hx. cbn [Js.find_char]. rewrite Ascii.eqb_refl.
  replace (Z.of_nat (Js.len a + Js.len t5 + Js.len ("alt=" +:+ ins) + Js.len x) + 1)%Z
    with (Z.of_nat (Js.len a + (Js.len t5 + Js.len ("alt=" +:+ ins) + Js.len x + 1))) by lia.
  rewrite substring_nat by lia. rewrite str_drop_app.
  replace (Js.len a + (Js.len t5 + Js.len ("alt=" +:+ ins) + Js.len x + 1) - Js.len a)
    with (Js.len t5 + (Js.len ("alt=" +:+ ins) + Js.len x + 1)) by lia.
  rewrite str_take_more by lia.
  replace (Js.len t5 + (Js.len ("alt=" +:+ ins) + Js.len x + 1) - Js.len t5)
    with (Js.len ("alt=" +:+ ins) + (Js.len x + 1)) by lia.
  rewrite str_take_more by lia. rewrite str_app_assoc.
  subst t5. by apply test_alt_after_tag.
Qed.

Lemma find_char_none c s : forall pos,
  Js.find_char c pos s = (-1)%Z <-> all_chars (fun d => negb (Ascii.eqb d c)) s = true.
Proof.
  induction s as [|d s IH]; intros pos; [done |].
  cbn [Js.find_char all_chars]. destruct (Ascii.eqb d c); cbn [negb andb].
  - split; [lia | done].
  - apply IH.
Qed.

Lemma substring_to_zero n s : Js.substring (Z.of_nat n) (-1 + 1)%Z s = Js.take n s.
Proof.
  unfold Js.substring. cbv zeta. change (-1 + 1)%Z with 0%Z.
  rewrite Z.max_r, Nat2Z.id by lia. cbn [Z.max Z.to_nat].
  by rewrite Nat.min_0_r, Nat.max_0_r, Nat.sub_0_r.
Qed.

(** when the tag does not close on the line, the guard looks at the text
    before the tag, before and after the insertion *)
Lemma img_line_open ln m ins :
  exec ImagesFix.re_img ln = Some m ->
  Js.indexOf ">" (index m) ln = (-1)%Z ->
  all_chars not_gt_char ins = true ->
  let p := index m + Js.len (matched ln m) in
  let new := Js.take p ln +:+ ins +:+ Js.drop p ln in
  exec ImagesFix.re_img new = Some m /\
  Js.substring (Z.of_nat (index m)) (Js.indexOf ">" (index m) new + 1)%Z new
  = Js.substring (Z.of_nat (index m)) (Js.indexOf ">" (index m) ln + 1)%Z ln.
Proof.
  intros Hexec Hend Hins.
  destruct (img_line_split ln m Hexec) as (a & t4 & c & r & -> & -> & Ht4 & Hc & Hgt & Hexec2).
  set (t5 := t4 +:+ String c EmptyString) in *.
  assert (Ht5 : Js.len t5 = 5).
  { subst t5. rewrite str_len_app, Ht4. reflexivity. }
  assert (Ht5gt : all_chars not_gt_char t5 = true).
  { subst t5. rewrite all_chars_app, Hgt. cbn [all_chars]. by rewrite (ws_not_gt c Hc). }
  cbv zeta. rewrite (img_line_insert a t5 r ins Ht5).
  split; [apply Hexec2 |]. cbn [index] in *. rewrite Hend.
  assert (Hend2 : Js.indexOf ">" (Js.len a) (a +:+ t5 +:+ ins +:+ r) = (-1)%Z).
  { unfold Js.indexOf in *. rewrite str_drop_app in *.
    apply find_char_none. apply find_char_none in Hend.
    rewrite !all_chars_app in *. apply andb_prop in Hend as [_ Hr].
    fold not_gt_char in *. by rewrite Ht5gt, Hins, Hr. }
  rewrite Hend2, !substring_to_zero.
  by rewrite !str_take_app.
Qed.

Variable path_join : string -> string -> string.
Variable projectRoot : string.
Variable issue : Issue.

(** what a successful run of [fixImgAlt] did *)
Lemma fixImgAlt_success filePath content lines idx dec w :
  success (fst (ImagesFix.fixImgAlt issue filePath content lines idx dec w)) = true ->
  exists m ins,
    exec ImagesFix.re_img (line_at lines idx) = Some m /\
    all_chars not_gt_char ins = true /\ all_chars not_nl ins = true /\
    test ImagesFix.re_alt
      (Js.substring (Z.of_nat (index m))
         (Js.indexOf ">" (index m) (line_at lines idx) + 1)%Z (line_at lines idx)) = false /\
    snd (ImagesFix.fixImgAlt issue filePath content lines idx dec w)
    = writeFileSync filePath
        (Js.join_nl
           (<[idx := Js.take (index m + Js.len (matched (line_at lines idx) m))
                       (line_at lines idx)
                     +:+ ("alt=" +:+ ins)
                     +:+ Js.drop (index m + Js.len (matched (line_at lines idx) m))
                           (line_at lines idx)]> lines))
        (writeFileSync (filePath +:+ ".bak") content w).
Proof.
  unfold ImagesFix.fixImgAlt. cbv zeta.
  destruct (exec ImagesFix.re_img (line_at lines idx)) as [m|]; [| done].
  destruct (test ImagesFix.re_alt _) eqn:Htest; [done |]. intros _.
  exists m. cbn [snd].
  destruct dec; [| destruct (ImagesFix.looks_decorative _)].
  - exists (Js.quoted EmptyString +:+ " "). by repeat split.
  - exists (Js.quoted EmptyString +:+ " "). by repeat split.
  - exists (Js.quoted "TODO: describe image" +:+ " "). by repeat split.
Qed.

Lemma fixImgAlt_again_at filePath content idx dec dec' w ln :
  Js.split_nl content !! idx = Some ln -> closes_on_line ln = true ->
  let first := ImagesFix.fixImgAlt issue filePath content (Js.split_nl content) idx dec w in
  success (fst first) = true ->
  exists content2,
    files (snd first) !! filePath = Some content2 /\
    length (Js.split_nl content2) = length (Js.split_nl content) /\
    ImagesFix.fixImgAlt issue filePath content2 (Js.split_nl content2) idx dec' (snd first)
    = (failure "Image already has an alt attribute.", snd first).
Proof.
  intros Hln Hclose first Hok. subst first.
  destruct (fixImgAlt_success _ _ _ _ _ _ Hok) as (m & ins & Hexec & Hins & Hnl & _ & Hw).
  assert (Hat : line_at (Js.split_nl content) idx = ln) by (unfold line_at; by rewrite Hln).
  rewrite Hat in Hexec, Hw. rewrite Hw.
  unfold closes_on_line in Hclose. rewrite Hexec in Hclose.
  apply negb_true_iff, Z.eqb_neq in Hclose.
  destruct (img_line_again ln m ins Hexec Hclose Hins) as [Hexec2 Htest2].
  cbv zeta in Hexec2, Htest2.
  set (new := Js.take (index m + Js.len (matched ln m)) ln +:+ ("alt=" +:+ ins)
              +:+ Js.drop (index m + Js.len (matched ln m)) ln) in *.
  destruct (split_nl_lines content) as [Hne Hall].
  assert (Hsplit : Js.split_nl (Js.join_nl (<[idx := new]> (Js.split_nl content)))
                   = <[idx := new]> (Js.split_nl content)).
  { apply split_join.
    - intros Hnil. apply (f_equal length) in Hnil. rewrite length_insert in Hnil.
      by destruct (Js.split_nl content).
    - apply Forall_insert; [exact Hall |].
      assert (Hln_nl : all_chars not_nl ln = true).
      { rewrite Forall_forall in Hall. apply Hall. by eapply list_elem_of_lookup_2. }
      subst new. rewrite !all_chars_app, all_chars_take, all_chars_drop by done.
      rewrite andb_true_r. cbn [andb]. exact Hnl. }
  eexists. split; [cbn [writeFileSync files]; apply lookup_insert_eq |].
  rewrite Hsplit. split; [apply length_insert |].
  unfold ImagesFix.fixImgAlt. cbv zeta.
  assert (Hat2 : line_at (<[idx := new]> (Js.split_nl content)) idx = new).
  { unfold line_at. rewrite list_lookup_insert_eq; [done |]. by eapply lookup_lt_Some. }
  rewrite Hat2, Hexec2, Htest2. done.
Qed.

Lemma fixImgAlt_again_open_at filePath content idx dec dec' w ln :
  Js.split_nl content !! idx = Some ln -> closes_on_line ln = false ->
  let first := ImagesFix.fixImgAlt issue filePath content (Js.split_nl content) idx dec w in
  success (fst first) = true ->
  exists content2,
    files (snd first) !! filePath = Some content2 /\
    length (Js.split_nl content2) = length (Js.split_nl content) /\
    success (fst (ImagesFix.fixImgAlt issue filePath content2 (Js.split_nl content2) idx dec'
                    (snd first))) = true.
Proof.
  intros Hln Hclose first Hok. subst first.
  destruct (fixImgAlt_success _ _ _ _ _ _ Hok) as (m & ins & Hexec & Hins & Hnl & Htest & Hw).
  assert (Hat : line_at (Js.split_nl content) idx = ln) by (unfold line_at; by rewrite Hln).
  rewrite Hat in Hexec, Hw, Htest. rewrite Hw.
  unfold closes_on_line in Hclose. rewrite Hexec in Hclose.
  apply negb_false_iff, Z.eqb_eq in Hclose.
  destruct (img_line_open ln m ("alt=" +:+ ins) Hexec Hclose Hins) as [Hexec2 Htag2].
  cbv zeta in Hexec2, Htag2.
  set (new := Js.take (index m + Js.len (matched ln m)) ln +:+ ("alt=" +:+ ins)
              +:+ Js.drop (index m + Js.len (matched ln m)) ln) in *.
  destruct (split_nl_lines content) as [Hne Hall].
  assert (Hsplit : Js.split_nl (Js.join_nl (<[idx := new]> (Js.split_nl content)))
                   = <[idx := new]> (Js.split_nl content)).
  { apply split_join.
    - intros Hnil. apply (f_equal length) in Hnil. rewrite length_insert in Hnil.
      by destruct (Js.split_nl content).
    - apply Forall_insert; [exact Hall |].
      assert (Hln_nl : all_chars not_nl ln = true).
      { rewrite Forall_forall in Hall. apply Hall. by eapply list_elem_of_lookup_2. }
      subst new. rewrite !all_chars_app, all_chars_take, all_chars_drop by done.
      rewrite andb_true_r. cbn [andb]. exact Hnl. }
  eexists. split; [cbn [writeFileSync files]; apply lookup_insert_eq |].
  rewrite Hsplit. split; [apply length_insert |].
  unfold ImagesFix.fixImgAlt. cbv zeta.
  assert (Hat2 : line_at (<[idx := new]> (Js.split_nl content)) idx = new).
  { unfold line_at. rewrite list_lookup_insert_eq; [done |]. by eapply lookup_lt_Some. }
  rewrite Hat2, Hexec2, Htag2, Htest. done.
Qed.

(** the branch of [applyFix] an image finding takes depends on its problem
    text alone *)
Lemma applyFix_img :
  (Js.includes "decorative" (problem issue) || Js.includes "<img>" (problem issue))
    && Js.includes "missing alt" (problem issue) = true ->
  exists dec, forall w content,
    files w !! path_join projectRoot (file issue) = Some content ->
    out_of_range (line_index issue) (Js.split_nl content) = false ->
    ImagesFix.applyFix path_join projectRoot issue w
    = ImagesFix.fixImgAlt issue (path_join projectRoot (file issue)) content
        (Js.split_nl content) (Z.to_nat (line_index issue)) dec w.
Proof.
  intros Hbr. apply andb_prop in Hbr as [Hkind Hmissing].
  destruct (Js.includes "decorative" (problem issue)) eqn:Hdec.
  - exists true. intros w content Hfile Hrange. unfold ImagesFix.applyFix. cbv zeta.
    by rewrite Hfile, Hrange, Hdec, Hmissing.
  - cbn [orb] in Hkind. exists false. intros w content Hfile Hrange.
    unfold ImagesFix.applyFix. cbv zeta.
    by rewrite Hfile, Hrange, Hdec, Hkind, Hmissing.
Qed.

(** the image handler, applied again after a success: when the tag closes
    on the target line, the second attempt fails as the attribute is there
    and leaves the world as the first attempt left it; when the tag closes
    on a later line, the second attempt succeeds again *)
Lemma img_fix_again w content :
  let first := ImagesFix.applyFix path_join projectRoot issue w in
  (Js.includes "decorative" (problem issue) || Js.includes "<img>" (problem issue))
    && Js.includes "missing alt" (problem issue) = true ->
  files w !! path_join projectRoot (file issue) = Some content ->
  success (fst first) = true ->
  if closes_on_line (target_line content issue)
  then ImagesFix.applyFix path_join projectRoot issue (snd first)
       = (failure "Image already has an alt attribute.", snd first)
  else success (fst (ImagesFix.applyFix path_join projectRoot issue (snd first))) = true.
Proof.
  cbv zeta. intros Hbr Hfile Hok.
  destruct (out_of_range (line_index issue) (Js.split_nl content)) eqn:Hrange.
  { unfold ImagesFix.applyFix in Hok. cbv zeta in Hok. by rewrite Hfile, Hrange in Hok. }
  destruct (applyFix_img Hbr) as [dec Hrun].
  rewrite (Hrun w content Hfile Hrange) in *.
  destruct (in_range _ _ Hrange) as (idx & ln & Hi & Hidx & Hln & Hat).
  unfold target_line. rewrite Hidx in *. rewrite Hat.
  destruct (closes_on_line ln) eqn:Hclose.
  - destruct (fixImgAlt_again_at _ content idx dec dec w ln Hln Hclose Hok)
      as (content2 & Hfile2 & Hlen & Hagain).
    rewrite (Hrun _ content2 Hfile2); [exact Hagain |].
    unfold out_of_range in *. by rewrite Hlen.
  - destruct (fixImgAlt_again_open_at _ content idx dec dec w ln Hln Hclose Hok)
      as (content2 & Hfile2 & Hlen & Hagain).
    rewrite (Hrun _ content2 Hfile2); [exact Hagain |].
    unfold out_of_range in *. by rewrite Hlen.
Qed.

End ImgAgainFacts.

(** ** Claims about the decorative-image scenario *)




(** * Further properties *)

(** ** The report of the aggregator *)

Section ReportFacts.
Import Report ReportDoc.

Lemma body_with_id k i : body (with_id k i) = body i.
Proof. reflexivity. Qed.

Lemma body_with_framework fw i : body (with_framework fw i) = body i.
Proof. reflexivity. Qed.

Lemma sort_key_with_id k i : sort_key (with_id k i) = sort_key i.
Proof. reflexivity. Qed.

Lemma sort_key_with_framework fw i : sort_key (with_framework fw i) = sort_key i.
Proof. reflexivity. Qed.

Lemma assign_ids_body k l : map body (assign_ids k l) = map body l.
Proof. revert k. induction l as [|x l IH]; intros k; [done |]. cbn. by rewrite IH. Qed.

Lemma assign_ids_sorted k l :
  StronglySorted ranked_le l -> StronglySorted ranked_le (assign_ids k l).
Proof.
  intros H. revert k. induction H as [|x l Hs IH Hall]; intros k; [constructor |].
  cbn [assign_ids]. constructor; [apply IH |].
  assert (G : forall n, Forall (ranked_le (with_id k x)) (assign_ids n l)).
  { clear IH Hs. induction Hall as [|y l Hy Hl IH]; intros n; [constructor |].
    cbn [assign_ids]. constructor; [| apply IH]. exact Hy. }
  apply G.
Qed.

Lemma with_key_assign_ids key k l :
  map body (with_key key (assign_ids k l)) = map body (with_key key l).
Proof.
  revert k. induction l as [|x l IH]; intros k; [done |].
  unfold with_key in *. cbn [assign_ids List.filter]. rewrite sort_key_with_id.
  destruct (bool_decide (sort_key x = key)); cbn [map]; by rewrite IH.
Qed.

Lemma with_key_with_framework key fw l :
  map body (with_key key (map (with_framework fw) l)) = map body (with_key key l).
Proof.
  induction l as [|x l IH]; [done |].
  unfold with_key in *. cbn [map List.filter]. rewrite sort_key_with_framework.
  destruct (bool_decide (sort_key x = key)); cbn [map]; by rewrite IH.
Qed.

Lemma generateReport_body fw scanned :
  map body (generateReport_issues fw scanned) ≡ₚ map body scanned.
Proof.
  unfold generateReport_issues. rewrite assign_ids_body, (sort_perm _), map_map.
  by rewrite (map_ext _ body (body_with_framework fw)).
Qed.

Lemma generateReport_sorted fw scanned :
  StronglySorted ranked_le (generateReport_issues fw scanned).
Proof. apply assign_ids_sorted, sort_sorted. Qed.

(** X1: findings that reach the aggregator without an identifier get the
    identifiers SEO-001, SEO-002, ... in the order of the sorted array; the
    identifiers are pairwise distinct, and the number of an identifier
    reads back as the position, counted from 1. *)
Theorem report_ids_sequential (fw : string) (scanned : list Issue) :
  Forall (fun i => id i = None) scanned ->
  map id (generateReport_issues fw scanned)
  = map (fun j => Some (make_id j)) (seq 0 (length scanned)) /\
  NoDup (map id (generateReport_issues fw scanned)) /\
  forall j, id_number (make_id j) = Some (j + 1).
Proof.
  intros H. split; [by apply generateReport_ids |].
  split; [by apply generateReport_ids_distinct |].
  apply id_number_make_id.
Qed.

Lemma report_ids_sequential_witness :
  let scanned := [Sample.scanned high "images" "a.html" 4 "p";
                  Sample.scanned low "title" "b.html" 1 "q"] in
  Forall (fun i => id i = None) scanned /\
  map id (generateReport_issues "html" scanned) = [Some "SEO-001"; Some "SEO-002"].
Proof.
  cbv zeta. split; [by repeat constructor |].
  refine (eq_trans (proj1 (report_ids_sequential "html" _ _)) _).
  - by repeat constructor.
  - reflexivity.
Defined.

(** X2: the issues of the report are the scanned findings rearranged:
    ordered by the position of the category in [CATEGORIES] and then by the
    severity rank as the comparator reads it, findings of equal position and
    rank in the order in which they were scanned. *)
Theorem report_sorted_stable (fw : string) (scanned : list Issue) :
  map body (generateReport_issues fw scanned) ≡ₚ map body scanned /\
  StronglySorted ranked_le (generateReport_issues fw scanned) /\
  forall key,
    map body (with_key key (generateReport_issues fw scanned))
    = map body (with_key key scanned).
Proof.
  split; [apply generateReport_body | split; [apply generateReport_sorted |]].
  intros key. unfold generateReport_issues.
  by rewrite with_key_assign_ids, sort_stable, with_key_with_framework.
Qed.

Lemma assign_ids_elem x l : forall k,
  x ∈ l -> exists n, with_id n x ∈ assign_ids k l.
Proof.
  induction l as [|y l IH]; intros k Hx; [by apply elem_of_nil in Hx |].
  apply elem_of_cons in Hx as [-> | Hx].
  - exists k. cbn. by left.
  - destruct (IH (S k) Hx) as [n Hn]. exists n. cbn. by right.
Qed.

(** X3: the aggregator keeps every scanned finding: the report has an issue
    with the same content, with the finding's own identifier when it came
    with one (the sequential identifier is then not used), with the
    finding's own framework when it names one, and with the framework of the
    run otherwise. *)
Theorem report_keeps_findings (fw : string) (scanned : list Issue) (i : Issue) :
  i ∈ scanned ->
  exists o,
    o ∈ generateReport_issues fw scanned /\ body o = body i /\
    (forall own, id i = Some own -> id o = Some own) /\
    (forall f, framework i = Some f -> f <> EmptyString -> framework o = Some f) /\
    (framework i = None \/ framework i = Some EmptyString -> framework o = Some fw).
Proof.
  intros Hi. unfold generateReport_issues.
  assert (Hs : with_framework fw i ∈ sort compare (map (with_framework fw) scanned)).
  { rewrite (sort_perm _). apply list_elem_of_fmap. by exists i. }
  destruct (assign_ids_elem _ _ 0 Hs) as [n Hn].
  exists (with_id n (with_framework fw i)). split; [exact Hn |].
  split; [reflexivity |]. split; [| split].
  - intros own Hown. cbn. by rewrite Hown.
  - intros f Hf Hne. cbn. rewrite Hf.
    destruct (String.eqb_spec f EmptyString); [done | reflexivity].
  - intros [Hf | Hf]; cbn; by rewrite Hf.
Qed.

Lemma report_keeps_findings_witness :
  let i := Example.issue "SEO-007" "images" true in
  i ∈ [i] /\
  exists o, o ∈ generateReport_issues "react" [i] /\ id o = Some "SEO-007" /\
            framework o = Some "react".
Proof.
  cbv zeta.
  split; [by left |].
  destruct (report_keeps_findings "react" [Example.issue "SEO-007" "images" true]
              (Example.issue "SEO-007" "images" true)) as (o & Ho & _ & Hid & _ & Hfw).
  - by left.
  - exists o. split; [exact Ho |]. split; [by apply Hid | apply Hfw; by left].
Defined.

(** counting *)
Lemma count_cons p x l : count p (x :: l) = (if p x then 1 else 0) + count p l.
Proof. unfold count. cbn [List.filter]. by destruct (p x). Qed.

Lemma count_le p l : count p l <= length l.
Proof.
  induction l as [|x l IH]; [done |]. rewrite count_cons. cbn [length].
  destruct (p x); lia.
Qed.

Lemma count_all p l : count p l = length l <-> Forall (fun i => p i = true) l.
Proof.
  induction l as [|x l IH]; [split; [constructor | done] |].
  rewrite count_cons. cbn [length]. pose proof (count_le p l).
  destruct (p x) eqn:Hx; split.
  - intros H1. constructor; [done |]. apply IH. lia.
  - intros H1. inversion H1; subst. apply IH in H4. lia.
  - lia.
  - intros H1. inversion H1; subst. congruence.
Qed.

(** a finding is counted in the row of its category, and in no other *)
Lemma category_rows x :
  list_sum (map (fun cat => if in_category cat x then 1 else 0) CATEGORIES)
  = if known x then 1 else 0.
Proof.
  unfold known, in_category, CATEGORIES. cbn [map list_sum].
  repeat match goal with
         | |- context [String.eqb (category x) ?c] =>
             destruct (String.eqb_spec (category x) c) as [->|?]; [reflexivity |]
         end.
  rewrite bool_decide_eq_false_2; [reflexivity |].
  rewrite !elem_of_cons, elem_of_nil. tauto.
Qed.

Lemma rows_cons (cs : list string) x l :
  list_sum (map (fun cat => count (in_category cat) (x :: l)) cs)
  = list_sum (map (fun cat => if in_category cat x then 1 else 0) cs)
    + list_sum (map (fun cat => count (in_category cat) l) cs).
Proof.
  induction cs as [|c cs IH]; [reflexivity |].
  rewrite !map_cons.
  repeat match goal with
         | |- context [list_sum (?n :: ?r)] => change (list_sum (n :: r)) with (n + list_sum r)
         end.
  rewrite count_cons, IH. lia.
Qed.

Lemma total_rows l :
  total (map (fun cat => (cat, count (in_category cat) l)) CATEGORIES) = count known l.
Proof.
  unfold total. rewrite map_map. cbn [snd].
  induction l as [|x l IH]; [reflexivity |].
  by rewrite rows_cons, category_rows, IH, count_cons.
Qed.

(** X5: in the summary of a report, the four severity counts add up to the
    total; the counts of the category table add up to the number of issues
    whose category is one of [CATEGORIES], so the table accounts for every
    issue exactly when no issue has another category; and the auto-fixable
    count is at most the total. *)
Theorem summary_counts (allIssues : list Issue) :
  let s := summarize allIssues in
  totalIssues s
  = n_critical (bySeverity s) + n_high (bySeverity s)
    + n_medium (bySeverity s) + n_low (bySeverity s) /\
  total (byCategory s) = count known allIssues /\
  total (byCategory s) <= totalIssues s /\
  (total (byCategory s) = totalIssues s <-> Forall (fun i => known i = true) allIssues) /\
  autoFixable s <= totalIssues s.
Proof.
  cbv zeta. unfold summarize.
  cbn [totalIssues bySeverity byCategory autoFixable n_critical n_high n_medium n_low].
  rewrite total_rows. split; [| split; [done | split; [apply count_le | split]]].
  - induction allIssues as [|x l IH]; [reflexivity |].
    rewrite !count_cons. cbn [length]. rewrite IH. unfold has_severity.
    destruct (severity x); repeat case_bool_decide; try done; lia.
  - apply count_all.
  - apply count_le.
Qed.

(** the position of the category of a finding in [CATEGORIES] *)
Lemma in_category_index k cat :
  CATEGORIES !! k = Some cat ->
  forall i, in_category cat i = (indexOf CATEGORIES (category i) =? Z.of_nat k)%Z.
Proof.
  intros Hk i. unfold in_category, indexOf, CATEGORIES in *.
  do 9 (destruct k as [|k]; [injection Hk as <-; cbn [indexOf_from];
    repeat match goal with
           | |- context [String.eqb ?c (category i)] =>
               destruct (String.eqb_spec c (category i)) as [<-|?]; [reflexivity |]
           end;
    by apply String.eqb_neq |]).
  done.
Qed.

Lemma known_index i :
  known i = existsb (Z.eqb (indexOf CATEGORIES (category i))) (map Z.of_nat (seq 0 9)).
Proof.
  unfold known, indexOf, CATEGORIES. cbn [indexOf_from].
  repeat match goal with
         | |- context [String.eqb ?c (category i)] =>
             destruct (String.eqb_spec c (category i)) as [<-|?];
               [by rewrite bool_decide_eq_true_2 by (rewrite !elem_of_cons; tauto) |]
         end.
  rewrite bool_decide_eq_false_2; [reflexivity |].
  rewrite !elem_of_cons, elem_of_nil. intuition congruence.
Qed.

(** a list ordered by a position, cut into the parts of increasing
    positions *)
Lemma sorted_part_first {A} (pos : A -> Z) (k : Z) (ks : list Z) (l : list A) :
  Forall (Z.lt k) ks ->
  StronglySorted (fun a b => (pos a <= pos b)%Z) l ->
  List.filter (fun a => (pos a =? k)%Z) l
    ++ List.filter (fun a => existsb (Z.eqb (pos a)) ks) l
  = List.filter (fun a => (pos a =? k)%Z || existsb (Z.eqb (pos a)) ks) l.
Proof.
  intros Hlt Hl. induction Hl as [|x l Hl IHl Hx]; [done |].
  cbn [List.filter]. rewrite <- IHl. clear IHl.
  rewrite List.Forall_forall in Hlt.
  destruct (Z.eqb_spec (pos x) k) as [Hk | Hk]; cbn [orb].
  { destruct (existsb (Z.eqb (pos x)) ks) eqn:Hin; [| done].
    apply existsb_exists in Hin as (k' & Hk' & Heq). apply Z.eqb_eq in Heq.
    apply Hlt in Hk'. lia. }
  destruct (existsb (Z.eqb (pos x)) ks) eqn:Hin; [| done].
  apply existsb_exists in Hin as (k' & Hk' & Heq). apply Z.eqb_eq in Heq.
  apply Hlt in Hk'.
  assert (Hnone : List.filter (fun a => (pos a =? k)%Z) l = []).
  { clear Hl. induction Hx as [|y l Hy Hx IHx]; [done |].
    cbn [List.filter]. destruct (Z.eqb_spec (pos y) k); [lia | exact IHx]. }
  by rewrite Hnone.
Qed.

Lemma sorted_parts {A} (pos : A -> Z) (ks : list Z) :
  StronglySorted Z.lt ks ->
  forall l, StronglySorted (fun a b => (pos a <= pos b)%Z) l ->
  concat (map (fun k => List.filter (fun a => (pos a =? k)%Z) l) ks)
  = List.filter (fun a => existsb (Z.eqb (pos a)) ks) l.
Proof.
  induction 1 as [|k ks Hks IH Hlt]; intros l Hl.
  - cbn. clear Hl. induction l as [|x l IHl]; [done | exact IHl].
  - cbn [map concat existsb]. rewrite (IH l Hl). by apply sorted_part_first.
Qed.

Lemma elem_of_concat {A} (x : A) (ls : list (list A)) :
  x ∈ concat ls <-> exists l, x ∈ l /\ l ∈ ls.
Proof.
  rewrite list_elem_of_In, in_concat. split; intros (l & H1 & H2); exists l.
  - by rewrite !list_elem_of_In.
  - by rewrite <- !list_elem_of_In.
Qed.

(** the block of an issue that a section renders is in the markdown text *)
Lemma rendered_in_markdown (report : ReportObj) (i : Issue) (l : string) :
  i ∈ rendered report -> l ∈ issue_block i -> l ∈ markdown_lines report.
Proof.
  intros Hi Hl. unfold rendered in Hi. apply elem_of_concat in Hi as (found & Hi & Hfound).
  apply list_elem_of_fmap in Hfound as (cat & -> & Hcat).
  unfold markdown_lines. cbv zeta. rewrite !elem_of_app. right. right. right. left.
  apply elem_of_concat. exists (section report cat). split; [| by apply list_elem_of_fmap_2].
  unfold section. rewrite elem_of_app. right.
  destruct (catIssues cat report) as [|x found] eqn:Hfound; [by apply elem_of_nil in Hi |].
  apply elem_of_concat. exists (issue_block i). split; [done |].
  by apply list_elem_of_fmap_2.
Qed.


Lemma known_nonneg i : known i = true <-> (0 <= indexOf CATEGORIES (category i))%Z.
Proof.
  unfold known, indexOf, CATEGORIES. cbn [indexOf_from].
  repeat match goal with
         | |- context [String.eqb ?c (category i)] =>
             destruct (String.eqb_spec c (category i)) as [<-|?];
               [rewrite bool_decide_eq_true_2 by (rewrite !elem_of_cons; tauto); split; [lia | done] |]
         end.
  rewrite bool_decide_eq_false_2; [split; [done | lia] |].
  rewrite !elem_of_cons, elem_of_nil. intuition congruence.
Qed.

(** X4: a finding whose category is none of [CATEGORIES] has the position
    -1 and sorts before the findings of every known category: in the issues
    array, whatever follows a finding of a known category has a known
    category too. *)
Theorem unknown_categories_first (fw : string) (scanned pre post : list Issue)
    (a b : Issue) :
  generateReport_issues fw scanned = pre ++ a :: post ->
  b ∈ post -> known a = true -> known b = true.
Proof.
  intros Hout Hb Ha. pose proof (generateReport_sorted fw scanned) as Hs.
  rewrite Hout in Hs. clear Hout.
  induction pre as [|x pre IH]; cbn in Hs; inversion Hs as [|? ? Hs' Hall]; subst;
    [| by apply IH].
  rewrite List.Forall_forall in Hall. apply list_elem_of_In, Hall in Hb.
  apply known_nonneg. apply known_nonneg in Ha.
  unfold ranked_le, key_le, sort_key in Hb. cbn [fst snd] in Hb. lia.
Qed.

Lemma unknown_categories_first_witness :
  let scanned := [Sample.scanned high "images" "a.html" 4 "p";
                  Sample.scanned high "colors" "b.html" 1 "q";
                  Sample.scanned low "title" "c.html" 2 "r"] in
  map category (generateReport_issues "html" scanned) = ["colors"; "title"; "images"] /\
  forall b, b ∈ drop 2 (generateReport_issues "html" scanned) -> known b = true.
Proof.
  cbv zeta. split; [reflexivity |]. intros b Hb.
  set (scanned := [Sample.scanned high "images" "a.html" 4 "p";
                   Sample.scanned high "colors" "b.html" 1 "q";
                   Sample.scanned low "title" "c.html" 2 "r"]) in *.
  set (out := generateReport_issues "html" scanned) in *.
  apply (unknown_categories_first "html" scanned (take 1 out) (drop 2 out)
           (default (Example.issue "SEO-000" "title" true) (out !! 1)) b);
    [vm_compute; reflexivity | exact Hb | vm_compute; reflexivity].
Defined.

End ReportFacts.

(** ** The fix handlers, applied and applied again *)

Section HandlerEffects.
Import Rx.
Variable path_join : string -> string -> string.
Variable projectRoot : string.
Variable issue : Issue.

(** X7: the tabindex fix is idempotent: once it has succeeded on a finding,
    a second attempt on the same finding returns the failure that says the
    element already has a tabindex, and writes nothing. *)
Theorem tabindex_fix_once (w : World) :
  let first := SemanticsFix.applyFix path_join projectRoot issue w in
  let second := SemanticsFix.applyFix path_join projectRoot issue (snd first) in
  Js.includes "onClick handler used as interactive control" (problem issue) = false ->
  success (fst first) = true ->
  success (fst second) = false /\
  reason (fst second) = Some "Element already has tabindex." /\
  snd second = snd first /\
  new_events (snd first) (snd second) = [].
Proof.
  cbv zeta. intros Hclick Hok.
  rewrite (addTabindex_again path_join projectRoot issue w Hclick Hok).
  cbn [fst snd]. repeat split. apply new_events_same.
Qed.

Lemma str_len_take n : forall s, n <= Js.len s -> Js.len (Js.take n s) = n.
Proof.
  induction n as [|n IH]; intros s H; [done |].
  destruct s as [|c s]; [unfold Js.len in H; cbn in H; lia |].
  rewrite str_len_cons in H. cbn [Js.take]. rewrite str_len_cons, IH; [done | lia].
Qed.

(** where [fixImgAlt] finds the tag: at the first place of the line where
    an image tag can be read *)
Lemma exec_img_first ln m :
  exec ImagesFix.re_img ln = Some m ->
  stop m = index m + 5 /\ index m + 5 <= Js.len ln /\
  img_at (Js.drop (index m) ln) = true /\
  (forall q, q < index m -> img_at (Js.drop q ln) = false) /\
  Js.len (matched ln m) = 5.
Proof.
  intros Hexec. unfold exec in Hexec.
  destruct (search_some _ _ _ _ _ Hexec) as (a & b & -> & Hm & Hearlier).
  cbn [last_char] in Hm. rewrite Nat.add_0_l, match_here_img in Hm.
  destruct (img_at b) eqn:Hb; [| done]. injection Hm as <-. cbn [index stop].
  destruct (img_at_inv b Hb) as (t4 & c & r & -> & Ht4 & Hc & Hgt).
  split; [done |]. split; [rewrite !str_len_app, Ht4, str_len_cons; lia |].
  split; [by rewrite str_drop_app |]. split.
  - intros q Hq.
    specialize (Hearlier (Js.take q (a +:+ t4 +:+ String c r))
                         (Js.drop q (a +:+ t4 +:+ String c r))).
    rewrite match_here_img in Hearlier.
    destruct (img_at (Js.drop q (a +:+ t4 +:+ String c r))); [| done].
    exfalso. discriminate Hearlier; [by rewrite str_take_drop |].
    rewrite str_len_take; [done |]. rewrite str_len_app. lia.
  - unfold matched. cbn [index stop]. rewrite str_drop_app.
    rewrite str_len_take; [lia |]. rewrite str_len_app, Ht4, str_len_cons. lia.
Qed.

(** X8: what a successful image fix does: on the target line it inserts
    the attribute [alt], with an empty value or the placeholder text and
    followed by a space, right after the first image tag start of the line
    (the tag name and the white space after it); it changes no other line,
    and it writes the old content to the [.bak] file before.  The value is
    empty when the problem text speaks of a decorative image. *)
Theorem image_fix_inserts_alt (w : World) (content : string) :
  let filePath := path_join projectRoot (file issue) in
  let first := ImagesFix.applyFix path_join projectRoot issue w in
  (Js.includes "decorative" (problem issue) || Js.includes "<img>" (problem issue))
    && Js.includes "missing alt" (problem issue) = true ->
  files w !! filePath = Some content ->
  success (fst first) = true ->
  exists idx ln p v,
    line issue = S idx /\ Js.split_nl content !! idx = Some ln /\
    5 <= p <= Js.len ln /\ img_at (Js.drop (p - 5) ln) = true /\
    (forall q, q < p - 5 -> img_at (Js.drop q ln) = false) /\
    (v = EmptyString \/ v = "TODO: describe image") /\
    (Js.includes "decorative" (problem issue) = true -> v = EmptyString) /\
    snd first
    = writeFileSync filePath
        (Js.join_nl (<[idx := Js.take p ln +:+ ("alt=" +:+ Js.quoted v +:+ " ")
                                +:+ Js.drop p ln]> (Js.split_nl content)))
        (writeFileSync (filePath +:+ ".bak") content w).
Proof.
  cbv zeta. intros Hbr Hfile Hok.
  destruct (out_of_range (line_index issue) (Js.split_nl content)) eqn:Hrange.
  { unfold ImagesFix.applyFix in Hok. cbv zeta in Hok. by rewrite Hfile, Hrange in Hok. }
  destruct (in_range _ _ Hrange) as (idx & ln & Hi & Hidx & Hln & Hat).
  assert (Hline : line issue = S idx).
  { unfold line_index in Hi. destruct (line issue =? 0) eqn:H0; [lia |].
    apply Nat.eqb_neq in H0. lia. }
  unfold ImagesFix.applyFix in *. cbv zeta in *. rewrite Hfile, Hrange, Hidx in *.
  apply andb_prop in Hbr as [Hkind Hmissing]. rewrite Hmissing, !andb_true_r in *.
  assert (Hrun : exists dec,
            (Js.includes "decorative" (problem issue) = true -> dec = true) /\
            (if Js.includes "decorative" (problem issue)
             then ImagesFix.fixImgAlt issue (path_join projectRoot (file issue)) content
                    (Js.split_nl content) idx true w
             else if Js.includes "<img>" (problem issue)
                  then ImagesFix.fixImgAlt issue (path_join projectRoot (file issue)) content
                         (Js.split_nl content) idx false w
                  else if Js.includes "Image component missing alt" (problem issue)
                       then ImagesFix.fixNextImageAlt issue
                              (path_join projectRoot (file issue)) content
                              (Js.split_nl content) idx w
                       else (failure "This image issue requires manual review.", w))
            = ImagesFix.fixImgAlt issue (path_join projectRoot (file issue)) content
                (Js.split_nl content) idx dec w).
  { destruct (Js.includes "decorative" (problem issue)); [by exists true |].
    cbn [orb] in Hkind. rewrite Hkind. by exists false. }
  destruct Hrun as (dec & Hdec & Hrun). rewrite Hrun in *. clear Hrun.
  unfold ImagesFix.fixImgAlt in *. cbv zeta in *. rewrite Hat in *.
  destruct (exec ImagesFix.re_img ln) as [m|] eqn:Hexec; [| done].
  destruct (test ImagesFix.re_alt _); [done |].
  destruct (exec_img_first ln m Hexec) as (Hstop & Hlen & Hat_img & Hfirst & Hmatched).
  rewrite Hmatched. cbn [snd].
  exists idx, ln, (index m + 5).
  exists (if dec then EmptyString
          else if ImagesFix.looks_decorative
                    (Js.substring (Z.of_nat (index m)) (Js.indexOf ">" (index m) ln + 1)%Z ln)
               then EmptyString else "TODO: describe image").
  replace (index m + 5 - 5) with (index m) by lia.
  split; [done |]. split; [done |]. split; [lia |]. split; [done |]. split; [done |].
  split; [destruct dec; [by left |]; destruct (ImagesFix.looks_decorative _); auto |].
  split; [intros Hd; by rewrite (Hdec Hd) |]. reflexivity.
Qed.

(** X9: the image fix applied again after a success.  When a closing
    bracket stands on the target line at or after the start of the tag, the
    second attempt returns the failure that says the image already has an
    [alt] attribute, and writes nothing; when the tag closes on a later
    line, the guard does not see the attribute and the second attempt
    succeeds again. *)
Theorem image_fix_again (w : World) (content : string) :
  let first := ImagesFix.applyFix path_join projectRoot issue w in
  let second := ImagesFix.applyFix path_join projectRoot issue (snd first) in
  (Js.includes "decorative" (problem issue) || Js.includes "<img>" (problem issue))
    && Js.includes "missing alt" (problem issue) = true ->
  files w !! path_join projectRoot (file issue) = Some content ->
  success (fst first) = true ->
  (closes_on_line (target_line content issue) = true ->
   reason (fst second) = Some "Image already has an alt attribute." /\
   success (fst second) = false /\ snd second = snd first) /\
  (closes_on_line (target_line content issue) = false -> success (fst second) = true).
Proof.
  cbv zeta. intros Hbr Hfile Hok.
  pose proof (img_fix_again path_join projectRoot issue w content Hbr Hfile Hok) as H.
  split; intros Hc; rewrite Hc in H; [by rewrite H | exact H].
Qed.

Lemma match_here_Image prev pos y :
  match_here ImagesFix.re_Image prev pos y
  = if Image_at y then Some (MatchResult pos (pos + 7) []) else None.
Proof.
  unfold match_here, ImagesFix.re_Image, Image_at. rewrite rmatch_seq, rmatch_lit.
  cbn [m_rest m_pos m_prev].
  destruct (Js.starts_with "<Image" y); [| done]. cbn [andb].
  change (Js.len "<Image") with 6.
  destruct (Js.drop 6 y) as [|c rest]; [done |]. rewrite rmatch_chr.
  destruct (Js.is_ws c); [| done]. cbn [m_pos]. do 2 f_equal. lia.
Qed.

Lemma Image_at_inv b :
  Image_at b = true ->
  exists c r, b = ("<Image" +:+ String c EmptyString) +:+ r /\ Js.is_ws c = true.
Proof.
  unfold Image_at. intros H. apply andb_prop in H as [Hs Hw].
  apply starts_with_inv in Hs. change (Js.len "<Image") with 6 in Hs.
  destruct (Js.drop 6 b) as [|c r]; [done |]. exists c, r. by rewrite Hs at 1.
Qed.

(** a line on which the component is found, in pieces, and the line after
    the insertion *)
Lemma Image_line_split ln m ins :
  exec ImagesFix.re_Image ln = Some m ->
  exists a c r,
    ln = (a +:+ "<Image" +:+ String c EmptyString) +:+ r /\ Js.is_ws c = true /\
    Js.take (index m + Js.len (matched ln m)) ln +:+ ins
      +:+ Js.drop (index m + Js.len (matched ln m)) ln
    = (a +:+ "<Image" +:+ String c EmptyString) +:+ ins +:+ r /\
    exec ImagesFix.re_Image ((a +:+ "<Image" +:+ String c EmptyString) +:+ ins +:+ r)
    <> None.
Proof.
  intros Hexec. unfold exec in Hexec.
  destruct (search_some _ _ _ _ _ Hexec) as (a & b & -> & Hm & _).
  cbn [last_char] in Hm. rewrite Nat.add_0_l, match_here_Image in Hm.
  destruct (Image_at b) eqn:Hb; [| done]. injection Hm as <-.
  destruct (Image_at_inv b Hb) as (c & r & -> & Hc).
  exists a, c, r. set (t7 := "<Image" +:+ String c EmptyString) in *.
  assert (Ht7 : Js.len t7 = 7) by reflexivity.
  split; [by rewrite !str_app_assoc |]. split; [exact Hc |]. split.
  - cbn [index].
    assert (Hmatched : matched (a +:+ t7 +:+ r) (MatchResult (Js.len a) (Js.len a + 7) []) = t7).
    { unfold matched. cbn [index stop]. rewrite str_drop_app.
      replace (Js.len a + 7 - Js.len a) with (Js.len t7) by lia. apply str_take_app. }
    rewrite Hmatched, Ht7.
    replace (Js.len a + 7) with (Js.len (a +:+ t7)) by (rewrite str_len_app; lia).
    rewrite <- (str_app_assoc a t7 r). by rewrite str_take_app, str_drop_app.
  - unfold exec. rewrite (str_app_assoc a t7).
    apply search_app_some. rewrite match_here_Image.
    assert (Hat : Image_at (t7 +:+ ins +:+ r) = true).
    { unfold Image_at. subst t7. rewrite (str_app_assoc "<Image"), starts_with_app.
      change 6 with (Js.len "<Image"). rewrite str_drop_app, str_app_cons.
      by rewrite Hc. }
    by rewrite Hat.
Qed.

(** X10: the fix of a Next.js image component is idempotent: once it has
    succeeded on a finding, a second attempt on the same finding returns the
    failure that says the component already has an [alt] attribute, and
    writes nothing, also when the component closes on a later line. *)
Theorem Image_fix_once (w : World) :
  let first := ImagesFix.applyFix path_join projectRoot issue w in
  let second := ImagesFix.applyFix path_join projectRoot issue (snd first) in
  Js.includes "decorative" (problem issue) = false ->
  Js.includes "<img>" (problem issue) = false ->
  success (fst first) = true ->
  reason (fst second) = Some "Image component already has an alt attribute." /\
  success (fst second) = false /\ snd second = snd first.
Proof.
  cbv zeta. intros Hdec Himg Hok.
  remember (ImagesFix.applyFix path_join projectRoot issue w) as first eqn:Hfirst.
  unfold ImagesFix.applyFix in Hfirst. cbv zeta in Hfirst.
  destruct (files w !! path_join projectRoot (file issue)) as [content|] eqn:Hfile;
    [| by subst first].
  destruct (out_of_range (line_index issue) (Js.split_nl content)) eqn:Hrange;
    [by subst first |].
  rewrite Hdec, Himg in Hfirst. cbn [andb] in Hfirst.
  destruct (Js.includes "Image component missing alt" (problem issue)) eqn:Hcomp;
    [| by subst first].
  destruct (in_range _ _ Hrange) as (idx & ln & Hi & Hidx & Hln & Hat).
  rewrite Hidx in Hfirst. unfold ImagesFix.fixNextImageAlt in Hfirst.
  cbv zeta in Hfirst. rewrite Hat in Hfirst.
  destruct (exec ImagesFix.re_Image ln) as [m|] eqn:Hexec; [| by subst first].
  destruct (test ImagesFix.re_alt _ || test ImagesFix.re_alt ln); [by subst first |].
  destruct (Image_line_split ln m ("alt=" +:+ Js.quoted "TODO: describe image" +:+ " ") Hexec)
    as (a & c & r & Hsplit & Hc & Hnew & Hexec2).
  rewrite Hnew in Hfirst.
  set (new := (a +:+ "<Image" +:+ String c EmptyString)
              +:+ ("alt=" +:+ Js.quoted "TODO: describe image" +:+ " ") +:+ r) in *.
  subst first. cbn [snd]. clear Hok.
  set (w2 := writeFileSync _ _ (writeFileSync _ _ w)).
  destruct (split_nl_lines content) as [Hne Hall].
  assert (Hln_nl : all_chars not_nl ln = true).
  { rewrite Forall_forall in Hall. apply Hall. by eapply list_elem_of_lookup_2. }
  assert (Hsplit2 : Js.split_nl (Js.join_nl (<[idx := new]> (Js.split_nl content)))
                    = <[idx := new]> (Js.split_nl content)).
  { apply split_join.
    - intros Hnil. apply (f_equal length) in Hnil. rewrite length_insert in Hnil.
      by destruct (Js.split_nl content).
    - apply Forall_insert; [exact Hall |]. subst new.
      rewrite Hsplit, !all_chars_app in Hln_nl.
      apply andb_prop in Hln_nl as [Ha Hr]. rewrite !all_chars_app, Hr.
      apply andb_prop in Ha as [Ha Hi7]. by rewrite Ha, Hi7. }
  unfold ImagesFix.applyFix. cbv zeta.
  assert (Hfile2 : files w2 !! path_join projectRoot (file issue)
                   = Some (Js.join_nl (<[idx := new]> (Js.split_nl content)))).
  { subst w2. cbn [writeFileSync files]. apply lookup_insert_eq. }
  rewrite Hfile2, Hsplit2, Hdec, Himg, Hcomp. cbn [andb].
  assert (Hrange2 : out_of_range (line_index issue) (<[idx := new]> (Js.split_nl content)) = false).
  { unfold out_of_range in *. by rewrite length_insert. }
  rewrite Hrange2, Hidx. unfold ImagesFix.fixNextImageAlt. cbv zeta.
  assert (Hat2 : line_at (<[idx := new]> (Js.split_nl content)) idx = new).
  { unfold line_at. rewrite list_lookup_insert_eq; [done |]. by eapply lookup_lt_Some. }
  rewrite Hat2.
  destruct (exec ImagesFix.re_Image new) as [m2|] eqn:Hm2; [| done].
  assert (Hguard : test ImagesFix.re_alt new = true).
  { subst new. rewrite <- (str_app_assoc a "<Image"). apply test_alt_after_tag, Hc. }
  rewrite Hguard, orb_true_r. done.
Qed.

End HandlerEffects.

Lemma tabindex_fix_once_witness :
  let first := SemanticsFix.applyFix Example.join "/site" Fixture.missing_tabindex
                 (Sample.site Fixture.menu_page) in
  success (fst first) = true /\
  files (snd first) !! "/site/index.html"
  = Some ("<div tabindex=" +:+ Js.quoted "0" +:+ " role=" +:+ Js.quoted "button"
            +:+ ">Menu</div>") /\
  snd (SemanticsFix.applyFix Example.join "/site" Fixture.missing_tabindex (snd first))
  = snd first.
Proof.
  cbv zeta. split; [vm_compute; reflexivity |]. split; [vm_compute; reflexivity |].
  apply (tabindex_fix_once Example.join "/site" Fixture.missing_tabindex
           (Sample.site Fixture.menu_page)); vm_compute; reflexivity.
Defined.

Lemma image_fix_inserts_alt_witness :
  let first := ImagesFix.applyFix Example.join "/site" Fixture.logo_missing_alt
                 (Sample.site Fixture.logo_page) in
  success (fst first) = true /\
  exists idx ln p v,
    Js.split_nl Fixture.logo_page !! idx = Some ln /\
    files (snd first) !! "/site/index.html"
    = Some (Js.join_nl (<[idx := Js.take p ln +:+ ("alt=" +:+ Js.quoted v +:+ " ")
                                   +:+ Js.drop p ln]> (Js.split_nl Fixture.logo_page))).
Proof.
  cbv zeta. split; [vm_compute; reflexivity |].
  destruct (image_fix_inserts_alt Example.join "/site" Fixture.logo_missing_alt
              (Sample.site Fixture.logo_page) Fixture.logo_page)
    as (idx & ln & p & v & _ & Hln & _ & _ & _ & _ & _ & Hw);
    [vm_compute; reflexivity | vm_compute; reflexivity | vm_compute; reflexivity |].
  exists idx, ln, p, v. split; [exact Hln |]. rewrite Hw.
  cbn [writeFileSync files]. apply lookup_insert_eq.
Defined.

Lemma image_fix_again_witness :
  let first := ImagesFix.applyFix Example.join "/site" Fixture.logo_missing_alt
                 (Sample.site Fixture.logo_page) in
  closes_on_line (target_line Fixture.logo_page Fixture.logo_missing_alt) = true /\
  snd (ImagesFix.applyFix Example.join "/site" Fixture.logo_missing_alt (snd first))
  = snd first.
Proof.
  cbv zeta. split; [vm_compute; reflexivity |].
  apply (image_fix_again Example.join "/site" Fixture.logo_missing_alt
           (Sample.site Fixture.logo_page) Fixture.logo_page); vm_compute; reflexivity.
Defined.

Lemma Image_fix_once_witness :
  let first := ImagesFix.applyFix Example.join "/site" Fixture.image_missing_alt
                 (Sample.site Fixture.hero_page) in
  success (fst first) = true /\
  files (snd first) !! "/site/index.html"
  = Some ("<Image alt=" +:+ Js.quoted "TODO: describe image" +:+ " src="
            +:+ Js.quoted "/hero.png" +:+ " />") /\
  snd (ImagesFix.applyFix Example.join "/site" Fixture.image_missing_alt (snd first))
  = snd first.
Proof.
  cbv zeta. split; [vm_compute; reflexivity |]. split; [vm_compute; reflexivity |].
  apply (Image_fix_once Example.join "/site" Fixture.image_missing_alt
           (Sample.site Fixture.hero_page)); vm_compute; reflexivity.
Defined.

(** ** Runs of the orchestrators *)

Section RunShape.
Import FixCommon Dispatch.
Variable env : Env.

(** the SEO loop in a dry run: a pure classification of the targets *)
Lemma seo_dry_loop targets : forall b w,
  dryRun env = true ->
  loop (SeoFix.step env) targets (b, w)
  = (mkBuckets
       (b_fixed b ++ map preview_entry (List.filter seo_eligible targets))
       (b_skipped b
        ++ map (fun i => skipped_entry i "Auto-fix not available for this issue.")
             (List.filter seo_not_fixable targets))
       (b_manual b
        ++ map (fun i => manual_entry i
                  "Rendering fixes require manual review and cannot be safely auto-applied.")
             (List.filter is_rendering targets)), w).
Proof.
  induction targets as [|i targets IH]; intros b w Hdry.
  - cbn. rewrite !app_nil_r. by destruct b.
  - rewrite loop_cons. unfold SeoFix.step at 2.
    cbn [List.filter]. unfold seo_eligible, seo_not_fixable, is_rendering at 1.
    destruct (String.eqb (category i) "rendering"); cbn [negb andb].
    + rewrite IH by done. cbn [push_manual b_fixed b_skipped b_manual map].
      by rewrite <- app_assoc.
    + destruct (autoFixPossible i); cbn [negb].
      * rewrite Hdry, IH by done. unfold preview.
        cbn [push_fixed b_fixed b_skipped b_manual map]. by rewrite <- app_assoc.
      * rewrite IH by done. cbn [push_skipped b_fixed b_skipped b_manual map].
        by rewrite <- app_assoc.
Qed.

Lemma a11y_dry_loop targets : forall b w,
  dryRun env = true ->
  loop (A11yFix.step env) targets (b, w)
  = (mkBuckets
       (b_fixed b ++ map preview_entry (List.filter autoFixPossible targets))
       (b_skipped b)
       (b_manual b
        ++ map (fun i => manual_entry i "Auto-fix not available — manual review required.")
             (List.filter not_fixable targets)), w).
Proof.
  induction targets as [|i targets IH]; intros b w Hdry.
  - cbn. rewrite !app_nil_r. by destruct b.
  - rewrite loop_cons. unfold A11yFix.step at 2.
    cbn [List.filter]. unfold not_fixable at 1.
    destruct (autoFixPossible i); cbn [negb].
    + rewrite Hdry, IH by done. unfold preview.
      cbn [push_fixed b_fixed b_skipped b_manual map]. by rewrite <- app_assoc.
    + rewrite IH by done. cbn [push_manual b_fixed b_skipped b_manual map].
      by rewrite <- app_assoc.
Qed.

(** X11: the result of a dry run is a classification of the targets, in
    their order.  SEO: the rendering findings under recommendations, the
    other findings that are not auto-fixable under skipped, the rest
    previewed under fixed.  Accessibility: the findings that are not
    auto-fixable under manualReview, the rest previewed under fixed, and
    nothing under skipped. *)
Theorem dry_run_classifies (w : World) (targets : list Issue) :
  dryRun env = true -> targets <> [] ->
  (seo_targeted env w targets ->
   fst (SeoFix.applyFixes env w)
   = Printed (mkOutput true None (Some (filter env)) (Some (length targets))
       (map preview_entry (List.filter seo_eligible targets))
       (map (fun i => skipped_entry i "Auto-fix not available for this issue.")
          (List.filter seo_not_fixable targets))
       (map (fun i => manual_entry i
               "Rendering fixes require manual review and cannot be safely auto-applied.")
          (List.filter is_rendering targets)))) /\
  (a11y_targeted env w targets ->
   fst (A11yFix.applyFixes env w)
   = Printed (mkOutput true None (Some (filter env)) (Some (length targets))
       (map preview_entry (List.filter autoFixPossible targets))
       []
       (map (fun i => manual_entry i "Auto-fix not available — manual review required.")
          (List.filter not_fixable targets)))).
Proof.
  intros Hdry Hne. split; intros Htg.
  - unfold SeoFix.applyFixes. rewrite (applyFixes_with_run env _ _ _ _ _ _ _ _ _ Htg Hne).
    cbn zeta. rewrite seo_dry_loop by done. by rewrite Hdry.
  - unfold A11yFix.applyFixes. rewrite (applyFixes_with_run env _ _ _ _ _ _ _ _ _ Htg Hne).
    cbn zeta. rewrite a11y_dry_loop by done. by rewrite Hdry.
Qed.

(** the log after a step outside a dry run *)
Lemma attempt_log sm i b w :
  log (snd (attempt env sm i (b, w)))
  = log w ++ spawn_of env sm (fun _ => true) i.
Proof.
  rewrite attempt_snd. unfold spawn_of.
  destruct (applyCategoryFix_log env sm i w) as [[Hs Hw] | (s & Hs & Hlog)]; rewrite Hs.
  - by rewrite Hw, app_nil_r.
  - exact Hlog.
Qed.

Lemma seo_step_log i b w :
  dryRun env = false ->
  log (snd (SeoFix.step env i (b, w)))
  = log w ++ spawn_of env SeoFix.scriptMap seo_eligible i.
Proof.
  intros Hdry. unfold SeoFix.step, spawn_of at 1, seo_eligible.
  destruct (String.eqb (category i) "rendering"); cbn [negb andb];
    [by rewrite app_nil_r |].
  destruct (autoFixPossible i); cbn [negb]; [| by rewrite app_nil_r].
  rewrite Hdry. apply attempt_log.
Qed.

Lemma a11y_step_log i b w :
  dryRun env = false ->
  log (snd (A11yFix.step env i (b, w)))
  = log w ++ spawn_of env A11yFix.scriptMap autoFixPossible i.
Proof.
  intros Hdry. unfold A11yFix.step, spawn_of at 1.
  destruct (autoFixPossible i); cbn [negb]; [| by rewrite app_nil_r].
  rewrite Hdry. apply attempt_log.
Qed.

Lemma loop_log_exact step (spawn : Issue -> list Event) targets :
  (forall i b w, log (snd (step i (b, w))) = log w ++ spawn i) ->
  forall st, log (snd (loop step targets st)) = log (snd st) ++ concat (map spawn targets).
Proof.
  intros Hstep. induction targets as [|i targets IH]; intros st.
  - cbn. by rewrite app_nil_r.
  - rewrite loop_cons, IH. destruct st as [b w]. rewrite Hstep. cbn [snd map concat].
    by rewrite <- app_assoc.
Qed.

(** X12: outside a dry run, a run starts one handler process for each
    target that passes the gates of the loop body and whose category has a
    script, in the order of the targets and with the script of the category,
    never two for one target; it then writes the fix report, and does
    nothing else to the log of the world. *)
Theorem run_starts_each_handler_once (w : World) (targets : list Issue) :
  dryRun env = false -> targets <> [] ->
  (seo_targeted env w targets ->
   exists text,
     new_events w (snd (SeoFix.applyFixes env w))
     = concat (map (spawn_of env SeoFix.scriptMap seo_eligible) targets)
       ++ [Write (path_join env (projectRoot env) "fix-report.md") text]) /\
  (a11y_targeted env w targets ->
   exists text,
     new_events w (snd (A11yFix.applyFixes env w))
     = concat (map (spawn_of env A11yFix.scriptMap autoFixPossible) targets)
       ++ [Write (path_join env (projectRoot env) "a11y-fix-report.md") text]).
Proof.
  intros Hdry Hne. split; intros Htg.
  - unfold SeoFix.applyFixes. rewrite (applyFixes_with_run env _ _ _ _ _ _ _ _ _ Htg Hne).
    cbn zeta. rewrite Hdry. eexists. apply new_events_app.
    cbn [snd writeFileSync log].
    rewrite (loop_log_exact _ _ targets (fun i b w => seo_step_log i b w Hdry)).
    cbn [snd]. by rewrite <- app_assoc.
  - unfold A11yFix.applyFixes. rewrite (applyFixes_with_run env _ _ _ _ _ _ _ _ _ Htg Hne).
    cbn zeta. rewrite Hdry. eexists. apply new_events_app.
    cbn [snd writeFileSync log].
    rewrite (loop_log_exact _ _ targets (fun i b w => a11y_step_log i b w Hdry)).
    cbn [snd]. by rewrite <- app_assoc.
Qed.

Lemma attempt_files_last sm : files_last (attempt env sm).
Proof.
  intros i b w. cbv zeta. unfold attempt.
  destruct (applyCategoryFix env sm i w) as [[[r|]|msg] w'].
  - destruct (success r); cbn [fst push_fixed push_skipped b_fixed b_skipped b_manual].
    + left. unfold fixed_keys. by rewrite map_app.
    + right; left. unfold skipped_keys. by rewrite map_app.
  - right; left. cbn. unfold skipped_keys. by rewrite map_app.
  - right; left. cbn. unfold skipped_keys. by rewrite map_app.
Qed.

Lemma seo_files_last : files_last (SeoFix.step env).
Proof.
  intros i b w. cbv zeta. unfold SeoFix.step.
  destruct (String.eqb (category i) "rendering").
  { right; right. cbn. unfold manual_keys. by rewrite map_app. }
  destruct (negb (autoFixPossible i)).
  { right; left. cbn. unfold skipped_keys. by rewrite map_app. }
  destruct (dryRun env); [| apply attempt_files_last].
  left. cbn. unfold fixed_keys. by rewrite map_app.
Qed.

Lemma a11y_files_last : files_last (A11yFix.step env).
Proof.
  intros i b w. cbv zeta. unfold A11yFix.step.
  destruct (negb (autoFixPossible i)).
  { right; right. cbn. unfold manual_keys. by rewrite map_app. }
  destruct (dryRun env); [| apply attempt_files_last].
  left. cbn. unfold fixed_keys. by rewrite map_app.
Qed.

Lemma loop_follows step targets :
  files_last step ->
  forall st, exists F S M,
    fixed_keys (b_fixed (fst (loop step targets st))) = fixed_keys (b_fixed (fst st)) ++ F /\
    skipped_keys (b_skipped (fst (loop step targets st)))
    = skipped_keys (b_skipped (fst st)) ++ S /\
    manual_keys (b_manual (fst (loop step targets st)))
    = manual_keys (b_manual (fst st)) ++ M /\
    F `sublist_of` map key targets /\ S `sublist_of` map key targets /\
    M `sublist_of` map key targets.
Proof.
  intros Hstep. induction targets as [|i targets IH]; intros st.
  - exists [], [], []. cbn. by rewrite !app_nil_r.
  - rewrite loop_cons. destruct (IH (step i st)) as (F & S & M & HF & HS & HM & sF & sS & sM).
    destruct st as [b w]. rewrite HF, HS, HM. cbn [fst map].
    destruct (Hstep i b w) as [(-> & -> & ->) | [(-> & -> & ->) | (-> & -> & ->)]].
    + exists (key i :: F), S, M. rewrite <- !app_assoc.
      repeat split; [by apply sublist_skip | by apply sublist_cons | by apply sublist_cons].
    + exists F, (key i :: S), M. rewrite <- !app_assoc.
      repeat split; [by apply sublist_cons | by apply sublist_skip | by apply sublist_cons].
    + exists F, S, (key i :: M). rewrite <- !app_assoc.
      repeat split; [by apply sublist_cons | by apply sublist_cons | by apply sublist_skip].
Qed.

(** X13: in the result of a run, dry or not, each of the three lists names
    its findings in the order of the targets: each list is the target
    list with some findings left out. *)
Theorem lists_follow_targets (w : World) (targets : list Issue) :
  targets <> [] ->
  (seo_targeted env w targets ->
   exists o, fst (SeoFix.applyFixes env w) = Printed o /\
     fixed_keys (fixed o) `sublist_of` map key targets /\
     skipped_keys (skipped o) `sublist_of` map key targets /\
     manual_keys (manual o) `sublist_of` map key targets) /\
  (a11y_targeted env w targets ->
   exists o, fst (A11yFix.applyFixes env w) = Printed o /\
     fixed_keys (fixed o) `sublist_of` map key targets /\
     skipped_keys (skipped o) `sublist_of` map key targets /\
     manual_keys (manual o) `sublist_of` map key targets).
Proof.
  intros Hne. split; intros Htg.
  - unfold SeoFix.applyFixes. rewrite (applyFixes_with_run env _ _ _ _ _ _ _ _ _ Htg Hne).
    cbn zeta. eexists. split; [reflexivity |]. cbn [fixed skipped manual].
    destruct (loop_follows _ targets seo_files_last (mkBuckets [] [] [], w))
      as (F & S & M & -> & -> & -> & sF & sS & sM). done.
  - unfold A11yFix.applyFixes. rewrite (applyFixes_with_run env _ _ _ _ _ _ _ _ _ Htg Hne).
    cbn zeta. eexists. split; [reflexivity |]. cbn [fixed skipped manual].
    destruct (loop_follows _ targets a11y_files_last (mkBuckets [] [] [], w))
      as (F & S & M & -> & -> & -> & sF & sS & sM). done.
Qed.

Lemma filter_sublist {A} (p : A -> bool) (l : list A) : List.filter p l `sublist_of` l.
Proof.
  induction l as [|x l IH]; [done |]. cbn [List.filter].
  destruct (p x); [by apply sublist_skip | by apply sublist_cons].
Qed.

(** X14: what [select] makes of a filter.  The filter [all], in any
    letter case, selects every finding of the report; a filter that reads
    as an identifier selects the findings whose identifier is the filter up
    to letter case, and the selection throws when a finding of the report
    has no identifier; any other filter selects the findings whose category
    is the filter in lower case.  What is selected is always the report with
    some findings left out, in the order of the report. *)
Theorem selection_spec (prefix filter : string) (allIssues : list Issue) :
  match select prefix filter allIssues with
  | Some targets =>
      targets `sublist_of` allIssues /\
      (Js.toLowerCase filter = "all" -> targets = allIssues) /\
      (Js.toLowerCase filter <> "all" -> is_id_filter prefix filter = true ->
       forall i, i ∈ targets <->
         i ∈ allIssues /\
         exists own, id i = Some own /\ Js.toUpperCase own = Js.toUpperCase filter) /\
      (Js.toLowerCase filter <> "all" -> is_id_filter prefix filter = false ->
       targets
       = List.filter (fun i => String.eqb (category i) (Js.toLowerCase filter)) allIssues)
  | None =>
      Js.toLowerCase filter <> "all" /\ is_id_filter prefix filter = true /\
      exists i, i ∈ allIssues /\ id i = None
  end.
Proof.
  unfold select, is_id_filter.
  destruct (String.eqb_spec (Js.toLowerCase filter) "all") as [Hall | Hall].
  { split; [done |]. split; [done |]. split; intros; done. }
  destruct (Rx.test (re_id prefix) filter).
  - assert (G : match filter_by_id filter allIssues with
                | Some targets =>
                    targets `sublist_of` allIssues /\
                    forall i, i ∈ targets <->
                      i ∈ allIssues /\
                      exists own, id i = Some own /\
                                  Js.toUpperCase own = Js.toUpperCase filter
                | None => exists i, i ∈ allIssues /\ id i = None
                end).
    { induction allIssues as [|x l IH]; cbn [filter_by_id].
      - split; [done |]. intros i. split; [by intros H%elem_of_nil | by intros [H%elem_of_nil _]].
      - destruct (id x) as [own|] eqn:Hid; [| exists x; split; [by left | done]].
        destruct (filter_by_id filter l) as [rest|].
        + destruct IH as [Hsub Hiff].
          destruct (String.eqb_spec (Js.toUpperCase own) (Js.toUpperCase filter)) as [He|He].
          * split; [by apply sublist_skip |]. intros i. rewrite !elem_of_cons, Hiff.
            split.
            -- intros [-> | [Hi Hown]]; [split; [by left | by exists own] |].
               split; [by right | exact Hown].
            -- intros [[-> | Hi] Hown]; [by left | right; by split].
          * split; [by apply sublist_cons |]. intros i. rewrite elem_of_cons, Hiff.
            split.
            -- intros [Hi Hown]. split; [by right | exact Hown].
            -- intros [[-> | Hi] (own' & Hown' & Heq)]; [congruence |].
               split; [exact Hi | by exists own'].
        + destruct IH as (i & Hi & Hnone). exists i. split; [by right | done]. }
    destruct (filter_by_id filter allIssues) as [targets|].
    + destruct G as [Hsub Hiff]. split; [done |]. split; [done |]. split; [done | done].
    + done.
  - split; [apply filter_sublist |]. split; [done |]. split; [done | done].
Qed.


(** X16: a finding that passes the gates of the loop body but whose
    category has no fix script (for SEO, the categories url-structure and
    gtm among others) is previewed in a dry run as a fix that would be
    applied, while the run that applies fixes files it under skipped, with
    the reason that there is no fix script for its category, and starts no
    handler for it. *)
Theorem preview_promises_unscripted_fix (w : World) (targets : list Issue) (i : Issue) :
  i ∈ targets -> autoFixPossible i = true ->
  is_inherited (category i) = false ->
  (seo_targeted env w targets -> category i <> "rendering" ->
   lookup_script SeoFix.scriptMap (category i) = None ->
   exists o, fst (SeoFix.applyFixes env w) = Printed o /\
     if dryRun env then preview_entry i ∈ fixed o
     else skipped_entry i ("No fix script for category: " +:+ category i) ∈ skipped o) /\
  (a11y_targeted env w targets ->
   lookup_script A11yFix.scriptMap (category i) = None ->
   exists o, fst (A11yFix.applyFixes env w) = Printed o /\
     if dryRun env then preview_entry i ∈ fixed o
     else skipped_entry i ("No fix script for category: " +:+ category i) ∈ skipped o).
Proof.
  intros Hin Hauto Hinh. split.
  - intros Htg Hcat Hscript. apply list_elem_of_split in Hin as (pre & post & ->).
    unfold SeoFix.applyFixes.
    rewrite (applyFixes_with_run env _ _ _ _ _ _ _ _ _ Htg) by (by destruct pre).
    cbn zeta. eexists. split; [reflexivity |]. cbn [fixed skipped].
    pose proof (loop_entry (SeoFix.step env) pre i post (mkBuckets [] [] [], w)
                  (seo_monotone env)) as (Hf & Hs & _).
    apply String.eqb_neq in Hcat.
    destruct (dryRun env) eqn:Hdry; [apply Hf | apply Hs];
      destruct (loop (SeoFix.step env) pre _) as [b1 w1]; unfold SeoFix.step;
      rewrite Hcat, Hauto, Hdry; cbn [negb].
    + cbn. apply elem_of_app. right. by left.
    + unfold attempt, applyCategoryFix. rewrite Hscript, Hinh. cbn.
      apply elem_of_app. right. by left.
  - intros Htg Hscript. apply list_elem_of_split in Hin as (pre & post & ->).
    unfold A11yFix.applyFixes.
    rewrite (applyFixes_with_run env _ _ _ _ _ _ _ _ _ Htg) by (by destruct pre).
    cbn zeta. eexists. split; [reflexivity |]. cbn [fixed skipped].
    pose proof (loop_entry (A11yFix.step env) pre i post (mkBuckets [] [] [], w)
                  (a11y_monotone env)) as (Hf & Hs & _).
    destruct (dryRun env) eqn:Hdry; [apply Hf | apply Hs];
      destruct (loop (A11yFix.step env) pre _) as [b1 w1]; unfold A11yFix.step;
      rewrite Hauto, Hdry; cbn [negb].
    + cbn. apply elem_of_app. right. by left.
    + unfold attempt, applyCategoryFix. rewrite Hscript, Hinh. cbn.
      apply elem_of_app. right. by left.
Qed.

End RunShape.

Lemma dry_run_classifies_witness :
  let a := Example.issue "SEO-001" "rendering" true in
  let b := Example.issue "SEO-002" "images" true in
  let c := Example.issue "SEO-003" "title" false in
  let env := Example.env [a; b; c] "all" true in
  exists o, fst (SeoFix.applyFixes env Example.world) = Printed o /\
            fixed o = [preview_entry b] /\
            skipped o = [skipped_entry c "Auto-fix not available for this issue."] /\
            length (manual o) = 1.
Proof.
  cbv zeta. eexists. split.
  - apply (dry_run_classifies
             (Example.env [Example.issue "SEO-001" "rendering" true;
                           Example.issue "SEO-002" "images" true;
                           Example.issue "SEO-003" "title" false] "all" true)
             Example.world
             [Example.issue "SEO-001" "rendering" true;
              Example.issue "SEO-002" "images" true;
              Example.issue "SEO-003" "title" false]);
      [reflexivity | discriminate |].
    exists "{}", [Example.issue "SEO-001" "rendering" true;
                  Example.issue "SEO-002" "images" true;
                  Example.issue "SEO-003" "title" false].
    repeat split; reflexivity.
  - repeat split; reflexivity.
Defined.

Lemma run_starts_each_handler_once_witness :
  let a := Example.issue "SEO-001" "images" true in
  let b := Example.issue "SEO-002" "gtm" true in
  let c := Example.issue "SEO-003" "title" true in
  let env := Example.env [a; b; c] "all" false in
  exists text,
    new_events Example.world (snd (SeoFix.applyFixes env Example.world))
    = [Spawn "/plugin/scripts/apply-image-fix.js" a;
       Spawn "/plugin/scripts/apply-meta-fix.js" c;
       Write "/site/fix-report.md" text].
Proof.
  cbv zeta.
  destruct (run_starts_each_handler_once
              (Example.env [Example.issue "SEO-001" "images" true;
                            Example.issue "SEO-002" "gtm" true;
                            Example.issue "SEO-003" "title" true] "all" false)
              Example.world
              [Example.issue "SEO-001" "images" true;
               Example.issue "SEO-002" "gtm" true;
               Example.issue "SEO-003" "title" true]) as [Hseo _];
    [reflexivity | discriminate |].
  destruct Hseo as [text Htext].
  - exists "{}", [Example.issue "SEO-001" "images" true;
                  Example.issue "SEO-002" "gtm" true;
                  Example.issue "SEO-003" "title" true].
    repeat split; reflexivity.
  - exists text. exact Htext.
Defined.

Lemma lists_follow_targets_witness :
  let a := Example.issue "A11Y-001" "images" true in
  let b := Example.issue "A11Y-002" "forms" false in
  let env := Example.env [a; b] "all" false in
  exists o, fst (A11yFix.applyFixes env Example.world) = Printed o /\
            manual_keys (manual o) `sublist_of` map key [a; b].
Proof.
  cbv zeta.
  destruct (lists_follow_targets
              (Example.env [Example.issue "A11Y-001" "images" true;
                            Example.issue "A11Y-002" "forms" false] "all" false)
              Example.world
              [Example.issue "A11Y-001" "images" true;
               Example.issue "A11Y-002" "forms" false]) as [_ Ha11y]; [discriminate |].
  destruct Ha11y as (o & Ho & _ & _ & Hm).
  - exists "{}", [Example.issue "A11Y-001" "images" true;
                  Example.issue "A11Y-002" "forms" false].
    repeat split; reflexivity.
  - exists o. split; [exact Ho | exact Hm].
Defined.

Lemma preview_promises_unscripted_fix_witness :
  let i := Example.issue "SEO-004" "gtm" true in
  (exists o, fst (SeoFix.applyFixes (Example.env [i] "all" true) Example.world) = Printed o /\
             preview_entry i ∈ fixed o) /\
  (exists o, fst (SeoFix.applyFixes (Example.env [i] "all" false) Example.world) = Printed o /\
             skipped_entry i "No fix script for category: gtm" ∈ skipped o).
Proof.
  cbv zeta. split.
  - apply (preview_promises_unscripted_fix
             (Example.env [Example.issue "SEO-004" "gtm" true] "all" true) Example.world
             [Example.issue "SEO-004" "gtm" true] (Example.issue "SEO-004" "gtm" true));
      try reflexivity; try discriminate; [by left |].
    exists "{}", [Example.issue "SEO-004" "gtm" true]. repeat split; reflexivity.
  - apply (preview_promises_unscripted_fix
             (Example.env [Example.issue "SEO-004" "gtm" true] "all" false) Example.world
             [Example.issue "SEO-004" "gtm" true] (Example.issue "SEO-004" "gtm" true));
      try reflexivity; try discriminate; [by left |].
    exists "{}", [Example.issue "SEO-004" "gtm" true]. repeat split; reflexivity.
Defined.

(** ** The image scanner *)

Section ScanFacts.
Import Rx ScanImages.

Lemma split_nl_length s : 1 <= length (Js.split_nl s).
Proof.
  induction s as [|c s IH]; [done |]. cbn [Js.split_nl].
  destruct (Ascii.eqb c Js.nl); [cbn; lia |].
  destruct (Js.split_nl s); [cbn; lia | done].
Qed.

Lemma split_nl_take n : forall s,
  length (Js.split_nl (Js.take n s)) <= length (Js.split_nl s).
Proof.
  induction n as [|n IH]; intros s; [apply split_nl_length |].
  destruct s as [|c s]; [done |]. cbn [Js.take Js.split_nl].
  specialize (IH s). pose proof (split_nl_length s). pose proof (split_nl_length (Js.take n s)).
  destruct (Ascii.eqb c Js.nl); [cbn; lia |].
  destruct (Js.split_nl (Js.take n s)), (Js.split_nl s); cbn in *; lia.
Qed.

Lemma lineNum_within content idx :
  1 <= lineNum content idx <= length (Js.split_nl content).
Proof.
  unfold lineNum. replace (Js.substring 0 (Z.of_nat idx) content) with (Js.take idx content).
  - split; [apply split_nl_length | apply split_nl_take].
  - unfold Js.substring. cbv zeta.
    replace (Z.to_nat (Z.max 0 (Z.of_nat idx))) with idx by lia.
    replace (Z.to_nat (Z.max 0 0)) with 0 by lia.
    by rewrite Nat.min_0_l, Nat.max_0_l, Nat.sub_0_r.
Qed.

Lemma within_in_range f content :
  within_lines f content -> out_of_range (line_index f) (Js.split_nl content) = false.
Proof.
  unfold within_lines, out_of_range, line_index. intros [H1 H2].
  destruct (Nat.eqb_spec (line f) 0); [lia |].
  apply orb_false_intro; [apply Z.ltb_ge | apply Z.leb_gt]; lia.
Qed.

Lemma finding_well_formed sev relPath content idx prob imp fx auto :
  sev <> low -> (auto = false <-> sev = high) ->
  well_formed relPath content (finding sev relPath (lineNum content idx) prob imp fx auto).
Proof.
  intros Hlow Hauto. unfold well_formed, finding. cbn.
  pose proof (lineNum_within content idx) as Hw.
  repeat split; try done; try apply Hw; try apply Hauto.
  by apply within_in_range.
Qed.

Lemma scan_content_well_formed fw relPath content f :
  f ∈ scan_content fw relPath content -> well_formed relPath content f.
Proof.
  unfold scan_content. rewrite !elem_of_app. intros [H | [H | H]].
  - apply elem_of_concat in H as (l & Hf & Hl).
    apply list_elem_of_fmap in Hl as (m & -> & _). unfold scan_img in Hf.
    destruct (test ImagesFix.re_alt _); [by apply elem_of_nil in Hf |].
    destruct (ImagesFix.looks_decorative _);
      apply list_elem_of_singleton in Hf as ->; by apply finding_well_formed.
  - destruct (String.eqb fw "nextjs"); [| by apply elem_of_nil in H].
    apply elem_of_concat in H as (l & Hf & Hl).
    apply list_elem_of_fmap in Hl as (m & -> & _). unfold scan_Image in Hf.
    destruct (test ImagesFix.re_alt _); [by apply elem_of_nil in Hf |].
    apply list_elem_of_singleton in Hf as ->. by apply finding_well_formed.
  - apply elem_of_concat in H as (l & Hf & Hl).
    apply list_elem_of_fmap in Hl as (m & -> & _). unfold scan_role in Hf.
    destruct (negb _ && negb _ && negb _); [| by apply elem_of_nil in Hf].
    apply list_elem_of_singleton in Hf as ->. by apply finding_well_formed.
Qed.

(** X17: every finding of the image scanner comes from a source file that
    was read and is not empty; it has the category images, the criterion
    1.1.1 at level A, no identifier and no framework yet, and a severity
    that is never low, a finding being left to manual review exactly when
    its severity is high; and its line is a line of the file, so that the
    fix handler, given the finding and the file as scanned, never answers
    that it could not locate the issue line. *)
Theorem scan_findings_well_formed (fw : string) (sources : list (string * option string))
    (f : Issue) :
  f ∈ scanImages fw sources ->
  exists relPath content,
    (relPath, Some content) ∈ sources /\ content <> EmptyString /\
    well_formed relPath content f.
Proof.
  induction sources as [|[relPath read] rest IH]; cbn [scanImages]; intros Hf.
  - by apply elem_of_nil in Hf.
  - assert (Hrest : f ∈ scanImages fw rest ->
                    exists relPath0 content,
                      (relPath0, Some content) ∈ (relPath, read) :: rest /\
                      content <> EmptyString /\ well_formed relPath0 content f).
    { intros H. destruct (IH H) as (p & c & Hin & Hne & Hwf).
      exists p, c. split; [by right | done]. }
    destruct read as [content|]; [| by apply Hrest].
    destruct (String.eqb_spec content EmptyString) as [He | He]; [by apply Hrest |].
    apply elem_of_app in Hf as [Hf | Hf]; [| by apply Hrest].
    exists relPath, content. split; [by left |]. split; [done |].
    by eapply scan_content_well_formed.
Qed.

Lemma scan_findings_well_formed_witness :
  Forall (fun f => file f = "index.html" /\
                   out_of_range (line_index f) (Js.split_nl Sample.two_line_img) = false)
    (scanImages "html" [("index.html", Some Sample.two_line_img)]).
Proof.
  apply Forall_forall. intros f Hf.
  destruct (scan_findings_well_formed "html" [("index.html", Some Sample.two_line_img)] f Hf)
    as (p & c & Hin & _ & Hwf).
  apply list_elem_of_singleton in Hin. injection Hin as -> ->.
  destruct Hwf as (_ & _ & Hfile & _ & _ & _ & Hrange & _). by split.
Defined.

End ScanFacts.

(** ** The walk of the source tree *)

Section WalkTree.
Import SourceTree.

(** induction over a tree of entries *)
Lemma Entry_tree_ind (P : Entry -> Prop) :
  (forall name, P (File name)) ->
  (forall name, P (Dir name None)) ->
  (forall name entries, Forall P entries -> P (Dir name (Some entries))) ->
  forall e, P e.
Proof.
  intros Hfile Hnone Hdir. fix IH 1. intros [name | name [entries|]].
  - apply Hfile.
  - apply Hdir. induction entries as [|e entries IHes]; constructor; [apply IH | exact IHes].
  - apply Hnone.
Qed.

Lemma all_files_trail trail e :
  all_files trail e = map (fun f => (trail ++ fst f, snd f)) (all_files [] e).
Proof.
  revert trail. induction e as [name | name | name entries IH] using Entry_tree_ind;
    intros trail; cbn [all_files map fst snd app].
  - by rewrite app_nil_r.
  - done.
  - rewrite concat_map, map_map. f_equal.
    induction IH as [|e entries He Hes IHes]; [done |]. cbn [map]. f_equal; [| exact IHes].
    rewrite (He (trail ++ [name])), (He [name]), map_map. apply map_ext.
    intros [t n]. cbn [fst snd]. by rewrite <- app_assoc.
Qed.

Section Pruned.
Variable path_join : string -> string -> string.
Variable pattern : string -> bool.
Variable maxDepth : nat.

Lemma kept_under name depth t n :
  kept pattern maxDepth depth (name :: t, n)
  = negb (skipped name) && kept pattern maxDepth (depth + 1) (t, n).
Proof.
  unfold kept. cbn [fst snd forallb length].
  replace (depth + S (length t)) with (depth + 1 + length t) by lia.
  by rewrite !andb_assoc.
Qed.

Lemma under_name name entries (Q : list string * string -> Prop) :
  (forall t n, Q (name :: t, n)) ->
  Forall Q (concat (map (all_files [name]) entries)).
Proof.
  intros HQ. induction entries as [|e entries IH]; [constructor |].
  cbn [map concat]. apply Forall_app. split; [| exact IH].
  rewrite (all_files_trail [name] e). apply Forall_map, Forall_forall.
  intros [t n] _. apply HQ.
Qed.

Lemma filter_none {A} (p : A -> bool) (l : list A) :
  Forall (fun x => p x = false) l -> List.filter p l = [].
Proof. induction 1 as [|x l Hx Hl IH]; [done |]. cbn. by rewrite Hx. Qed.

Lemma visit_pruned e : forall depth dir,
  depth <= maxDepth ->
  visit path_join pattern maxDepth depth dir e
  = map (located path_join dir) (List.filter (kept pattern maxDepth depth) (all_files [] e)).
Proof.
  induction e as [name | name | name entries IH] using Entry_tree_ind;
    intros depth dir Hdepth; cbn [visit entry_name all_files map List.filter].
  - unfold kept. cbn [fst snd forallb length andb]. rewrite Nat.add_0_r.
    destruct (skipped name); cbn [negb andb]; [done |].
    destruct (pattern name); cbn [andb]; [| done].
    apply Nat.leb_le in Hdepth. by rewrite Hdepth.
  - destruct (skipped name); [done |]. by destruct (maxDepth <? depth + 1).
  - cbn [app].
    destruct (skipped name) eqn:Hskip.
    { rewrite filter_none; [done |]. apply under_name. intros t n.
      by rewrite kept_under, Hskip. }
    destruct (Nat.ltb_spec maxDepth (depth + 1)) as [Hdeep | Hok].
    { rewrite filter_none; [done |]. apply under_name. intros t n.
      unfold kept. cbn [fst snd length].
      replace (depth + S (length t) <=? maxDepth) with false
        by (symmetry; apply Nat.leb_gt; lia).
      by rewrite andb_false_r. }
    induction IH as [|e entries He Hes IHes]; [done |]. cbn [map concat].
    rewrite List.filter_app, map_app, <- IHes. f_equal.
    rewrite (He (depth + 1) (path_join dir name) Hok), (all_files_trail [name] e).
    clear He. induction (all_files [] e) as [|[t n] l IHl]; [done |].
    cbn [map List.filter fst snd app].
    rewrite kept_under, Hskip. cbn [negb andb].
    destruct (kept pattern maxDepth (depth + 1) (t, n)); cbn [map]; by rewrite IHl.
Qed.

(** X18: the walk of [findFiles] prunes as it goes, and what it returns is
    what a walk of the whole tree followed by a filter returns: the files,
    in the order of the listings, whose name fits the pattern, that have no
    skipped name (a name that starts with a dot, node_modules, dist, build)
    among their directories below the start or as their own name, and whose
    directory lies at most [maxDepth] levels deep, counted from the depth of
    the start; a directory that cannot be listed contributes nothing, and a
    start that does not exist, or is no directory, gives the empty list. *)
Theorem findFiles_prunes_as_filter (depth : nat) (dir : string) (found : option Entry) :
  findFiles path_join pattern maxDepth depth dir found
  = map (located path_join dir)
      (List.filter (kept pattern maxDepth depth)
         (match found with
          | Some (Dir _ (Some entries)) => concat (map (all_files []) entries)
          | _ => []
          end)).
Proof.
  unfold findFiles.
  destruct found as [[name | name [entries|]]|]; try by destruct (maxDepth <? depth).
  destruct (Nat.ltb_spec maxDepth depth) as [Hdeep | Hok].
  - rewrite filter_none; [done |]. apply Forall_forall. intros [t n] _.
    unfold kept. cbn [fst snd].
    replace (depth + length t <=? maxDepth) with false by (symmetry; apply Nat.leb_gt; lia).
    by rewrite andb_false_r.
  - induction entries as [|e entries IHes]; [done |]. cbn [map concat].
    by rewrite List.filter_app, map_app, <- IHes, visit_pruned.
Qed.

End Pruned.
End WalkTree.

(** ** The heading fix handler *)

Section HeadingFacts.
Import Rx HeadingFix.

Lemma upper_lower c : Js.upper (Js.lower c) = Js.upper c.
Proof. by_ascii_cases c. Qed.

Lemma is_char_ci_lt c : is_char_ci "<" c = true -> c = "<"%char.
Proof. by_ascii_cases c. Qed.

Lemma includes_ci_cons p c s :
  includes_ci p (String c s) = starts_with_ci p (String c s) || includes_ci p s.
Proof. reflexivity. Qed.

Lemma includes_ci_suffix p x : forall y,
  includes_ci p (x +:+ y) = false -> starts_with_ci p y = false.
Proof.
  induction x as [|c x IH]; intros y H.
  - rewrite str_app_nil_l in H. destruct y; cbn [includes_ci] in H;
      by apply orb_false_iff in H as [H _].
  - rewrite str_app_cons, includes_ci_cons in H. apply orb_false_iff in H as [_ H].
    by apply IH.
Qed.

(** what [includes] finds in the lower-case text occurs in the text up to
    the case of the letters *)
Lemma starts_with_lower p : forall s,
  Js.starts_with p (Js.toLowerCase s) = true -> starts_with_ci p s = true.
Proof.
  induction p as [|a p IH]; intros [|b s]; cbn; try done.
  unfold is_char_ci. destruct (Ascii.eqb_spec a (Js.lower b)) as [-> | _]; [| done].
  rewrite upper_lower, Ascii.eqb_refl. apply IH.
Qed.

Lemma includes_lower p s :
  Js.includes p (Js.toLowerCase s) = true -> includes_ci p s = true.
Proof.
  induction s as [|c s IH].
  - cbn. rewrite orb_false_r. intros H. rewrite (starts_with_lower p EmptyString H). done.
  - change (Js.toLowerCase (String c s)) with (String (Js.lower c) (Js.toLowerCase s)).
    rewrite includes_cons, includes_ci_cons. intros H.
    apply orb_true_iff in H as [H | H]; apply orb_true_iff; [left | right].
    + by apply (starts_with_lower p (String c s)).
    + by apply IH.
Qed.

(** a line that opens a first-level heading holds the text [<h1] *)
Lemma h1_includes s : forall prev pos m,
  search re_h1 prev pos s = Some m -> includes_ci "<h1" s = true.
Proof.
  assert (Hhere : forall prev pos t m,
            match_here re_h1 prev pos t = Some m -> starts_with_ci "<h1" t = true).
  { intros prev pos t m. unfold match_here, re_h1. rewrite rmatch_seq, rmatch_lit_ci.
    cbn [m_rest]. by destruct (starts_with_ci "<h1" t). }
  induction s as [|c s IH]; intros prev pos m.
  - cbn [search]. destruct (match_here re_h1 prev pos EmptyString) eqn:Hm; [| done].
    by apply Hhere in Hm.
  - rewrite search_cons, includes_ci_cons.
    destruct (match_here re_h1 prev pos (String c s)) eqn:Hm.
    + intros _. by rewrite (Hhere _ _ _ _ Hm).
    + intros H. rewrite (IH _ _ _ H). apply orb_true_r.
Qed.

Lemma test_h1_includes s : includes_ci "<h1" s = false -> test re_h1 s = false.
Proof.
  intros H. unfold test, exec. destruct (search re_h1 None 0 s) eqn:Hs; [| done].
  apply h1_includes in Hs. congruence.
Qed.

(** *** A global replacement brings no new opening tag *)

Section NoNewTag.
Variables P R : string.
Variables t1 t2 : ascii.
Hypothesis HR : forall y, starts_with_ci "<" (R +:+ y) = true.
Hypothesis Ht1 : is_char_ci t1 "<" = false.
Hypothesis Ht2 : is_char_ci t2 "<" = false.
Hypothesis HRT : forall y,
  includes_ci (String "<" (String t1 (String t2 EmptyString))) y = false ->
  includes_ci (String "<" (String t1 (String t2 EmptyString))) (R +:+ y) = false.

Lemma head_lt s : starts_with_ci "<" s = true -> exists s', s = String "<" s'.
Proof.
  destruct s as [|c s]; [done |]. cbn. destruct (is_char_ci "<" c) eqn:Hc; [| done].
  intros _. apply is_char_ci_lt in Hc as ->. by exists s.
Qed.

(** the two characters behind an opening bracket that is copied are
    copied too, unless one of them is an opening bracket *)
Lemma copied_ahead c s :
  starts_with_ci (String "<" (String t1 (String t2 EmptyString)))
    (String c (replace_all_from 0 P R s)) = true ->
  starts_with_ci (String "<" (String t1 (String t2 EmptyString))) (String c s) = true.
Proof.
  cbn [starts_with_ci]. destruct (is_char_ci "<" c); [| done].
  destruct s as [|c1 s1]; [done |]. cbn [replace_all_from].
  destruct (starts_with_ci P (String c1 s1)) eqn:HP1.
  { destruct (head_lt _ (HR (replace_all_from (Js.len P - 1) P R s1))) as (y & ->).
    cbn [starts_with_ci]. by rewrite Ht1. }
  cbn [starts_with_ci]. destruct (is_char_ci t1 c1); [| done].
  destruct s1 as [|c2 s2]; [done |]. cbn [replace_all_from].
  destruct (starts_with_ci P (String c2 s2)) eqn:HP2.
  { destruct (head_lt _ (HR (replace_all_from (Js.len P - 1) P R s2))) as (y & ->).
    cbn [starts_with_ci]. by rewrite Ht2. }
  cbn [starts_with_ci]. by destruct (is_char_ci t2 c2).
Qed.

(** a text in which the opening tag [<] [t1] [t2] stands only where the
    pattern [P] matches holds no such tag after the replacement *)
Lemma replace_all_no_new s : forall skip,
  (forall x y, s = x +:+ y ->
     starts_with_ci (String "<" (String t1 (String t2 EmptyString))) y = true ->
     starts_with_ci P y = true) ->
  includes_ci (String "<" (String t1 (String t2 EmptyString)))
    (replace_all_from skip P R s) = false.
Proof.
  induction s as [|c s IH]; intros skip Hs; [done |].
  assert (Hs' : forall x y, s = x +:+ y ->
                  starts_with_ci (String "<" (String t1 (String t2 EmptyString))) y = true ->
                  starts_with_ci P y = true).
  { intros x y ->. apply (Hs (String c x)). by rewrite str_app_cons. }
  cbn [replace_all_from]. destruct skip as [|k]; [| by apply IH].
  destruct (starts_with_ci P (String c s)) eqn:Hhere.
  - apply HRT. by apply IH.
  - rewrite includes_ci_cons, (IH 0 Hs'), orb_false_r.
    destruct (starts_with_ci (String "<" (String t1 (String t2 EmptyString)))
                (String c (replace_all_from 0 P R s))) eqn:Hnew; [| done].
    apply copied_ahead in Hnew. apply (Hs EmptyString) in Hnew; [congruence | done].
Qed.

End NoNewTag.

Lemma digit_upper d : Js.is_digit d = true -> Js.upper d = d.
Proof. by_ascii_cases d. Qed.

Lemma digit_not_lt d : Js.is_digit d = true -> is_char_ci d "<" = false.
Proof. by_ascii_cases d. Qed.

Lemma lt_not_digit d : Js.is_digit d = true -> is_char_ci "<" d = false.
Proof. by_ascii_cases d. Qed.

Lemma digit_ci d e :
  Js.is_digit d = true -> Js.is_digit e = true -> d <> e -> is_char_ci d e = false.
Proof.
  intros Hd He Hne. unfold is_char_ci. rewrite (digit_upper d Hd), (digit_upper e He).
  by apply Ascii.eqb_neq.
Qed.

Lemma digit_not_nl d : Js.is_digit d = true -> not_nl d = true.
Proof. by_ascii_cases d. Qed.

(** after the rewriting of a level into another one, the line holds no
    opening tag of the old level *)
Lemma retag_no_opening d e ln :
  Js.is_digit d = true -> Js.is_digit e = true -> d <> e ->
  includes_ci (String "<" (String "h" (String d EmptyString)))
    (retag (String "h" (String d EmptyString)) (String "h" (String e EmptyString)) ln)
  = false.
Proof.
  intros Hd He Hne. unfold retag, replace_all_ci.
  change ("<" +:+ String "h" (String d EmptyString))
    with (String "<" (String "h" (String d EmptyString))).
  change ("<" +:+ String "h" (String e EmptyString))
    with (String "<" (String "h" (String e EmptyString))).
  change ("</" +:+ String "h" (String d EmptyString) +:+ ">")
    with (String "<" (String "/" (String "h" (String d (String ">" EmptyString))))).
  change ("</" +:+ String "h" (String e EmptyString) +:+ ">")
    with (String "<" (String "/" (String "h" (String e (String ">" EmptyString))))).
  pose proof (digit_not_lt d Hd) as Hdl. pose proof (lt_not_digit e He) as Hle.
  pose proof (digit_ci d e Hd He Hne) as Hde.
  assert (Hfirst : includes_ci (String "<" (String "h" (String d EmptyString)))
                     (replace_all_from 0 (String "<" (String "h" (String d EmptyString)))
                        (String "<" (String "h" (String e EmptyString))) ln) = false).
  { apply replace_all_no_new.
    - done.
    - done.
    - exact Hdl.
    - intros y Hy. rewrite !str_app_cons, str_app_nil_l, !includes_ci_cons, Hy.
      cbn [starts_with_ci]. change (is_char_ci "<" "<") with true.
      change (is_char_ci "h" "h") with true. change (is_char_ci "<" "h") with false.
      cbv iota. by rewrite Hde, Hle.
    - done. }
  apply replace_all_no_new.
  - done.
  - done.
  - exact Hdl.
  - intros y Hy. rewrite !str_app_cons, str_app_nil_l, !includes_ci_cons, Hy.
    cbn [starts_with_ci]. change (is_char_ci "<" "<") with true.
    change (is_char_ci "h" "/") with false. change (is_char_ci "<" "/") with false.
    change (is_char_ci "<" "h") with false. change (is_char_ci "<" ">") with false.
    cbv iota. by rewrite Hle.
  - intros x y Hxy Hy. rewrite Hxy in Hfirst. apply includes_ci_suffix in Hfirst.
    congruence.
Qed.

Lemma replace_all_not_nl p r s : forall skip,
  all_chars not_nl r = true -> all_chars not_nl s = true ->
  all_chars not_nl (replace_all_from skip p r s) = true.
Proof.
  induction s as [|c s IH]; intros skip Hr Hs; [done |].
  cbn [all_chars] in Hs. apply andb_true_iff in Hs as [Hc Hs].
  cbn [replace_all_from]. destruct skip as [|k]; [| by apply IH].
  destruct (starts_with_ci p (String c s)).
  - rewrite all_chars_app, Hr. by apply IH.
  - cbn [all_chars]. rewrite Hc. by apply IH.
Qed.

Lemma retag_not_nl a b ln :
  all_chars not_nl b = true -> all_chars not_nl ln = true ->
  all_chars not_nl (retag a b ln) = true.
Proof.
  intros Hb Hln. unfold retag, replace_all_ci.
  apply replace_all_not_nl; [| apply replace_all_not_nl; [| done]].
  - by rewrite !all_chars_app, Hb.
  - by rewrite all_chars_app, Hb.
Qed.

(** a line of which the extra headings were converted opens no
    first-level heading *)
Lemma converted_no_h1 ln : test re_h1 (retag "h1" "h2" ln) = false.
Proof. apply test_h1_includes. by apply (retag_no_opening "1" "2"). Qed.

(** *** The loop over the lines *)

Lemma convert_extra_spec lines : forall n,
  let r := convert_extra n (1 <? n) lines in
  snd r = (n + length (h1_lines lines), 1 <? n + length (h1_lines lines)) /\
  length (fst r) = length lines /\
  forall k ln, lines !! k = Some ln ->
    fst r !! k
    = Some (if test re_h1 ln && (1 <=? n + length (h1_lines (take k lines)))
            then retag "h1" "h2" ln else ln).
Proof.
  induction lines as [|l lines IH]; intros n; cbv zeta.
  { cbn. rewrite Nat.add_0_r. by repeat split. }
  cbn [convert_extra h1_lines List.filter]. fold (h1_lines lines).
  destruct (test re_h1 l) eqn:Hl.
  - assert (Hflag : (if 1 <? S n then true else 1 <? n) = (1 <? S n)).
    { destruct (Nat.ltb_spec 1 (S n)) as [H | H]; [done |].
      apply Nat.ltb_ge. lia. }
    assert (Hrec : convert_extra (S n) (if 1 <? S n then true else 1 <? n) lines
                   = convert_extra (S n) (1 <? S n) lines) by by rewrite Hflag.
    destruct (IH (S n)) as (Hsnd & Hlen & Hk). cbv zeta in Hsnd, Hlen, Hk.
    assert (Hout : (if 1 <? S n
                    then let '(newLines, final) := convert_extra (S n) true lines in
                         (retag "h1" "h2" l :: newLines, final)
                    else let '(newLines, final) := convert_extra (S n) (1 <? n) lines in
                         (l :: newLines, final))
                   = ((if 1 <? S n then retag "h1" "h2" l else l)
                        :: fst (convert_extra (S n) (1 <? S n) lines),
                      snd (convert_extra (S n) (1 <? S n) lines))).
    { clear Hrec. revert Hflag. destruct (1 <? S n); intros Hflag.
      - by destruct (convert_extra (S n) true lines).
      - rewrite Hflag. by destruct (convert_extra (S n) false lines). }
    rewrite Hout. cbn [fst snd length]. rewrite Hsnd, Hlen.
    replace (n + S (length (h1_lines lines))) with (S n + length (h1_lines lines)) by lia.
    repeat split. intros [|k] ln Hln; cbn in Hln.
    + injection Hln as <-. rewrite lookup_cons. cbn [take h1_lines List.filter length].
      rewrite Hl, Nat.add_0_r. cbn [andb]. reflexivity.
    + rewrite lookup_cons, (Hk k ln Hln). cbn [take h1_lines List.filter].
      rewrite Hl. cbn [length]. fold (h1_lines (take k lines)).
      by replace (n + S (length (h1_lines (take k lines))))
        with (S n + length (h1_lines (take k lines))) by lia.
  - destruct (IH n) as (Hsnd & Hlen & Hk). cbv zeta in Hsnd, Hlen, Hk.
    destruct (convert_extra n (1 <? n) lines) as [newLines final] eqn:Hrec.
    cbn [fst snd length] in *. rewrite Hsnd, Hlen. repeat split.
    intros [|k] ln Hln; cbn in Hln.
    + injection Hln as <-. rewrite lookup_cons. by rewrite Hl.
    + rewrite lookup_cons, (Hk k ln Hln). cbn [take h1_lines List.filter].
      by rewrite Hl.
Qed.

(** after the loop, at most one line opens a first-level heading *)
Lemma convert_extra_hits lines : forall n,
  length (h1_lines (fst (convert_extra n (1 <? n) lines))) <= 1 - n.
Proof.
  unfold h1_lines.
  induction lines as [|l lines IH]; intros n; [cbn; lia |].
  cbn [convert_extra]. destruct (test re_h1 l) eqn:Hl.
  - destruct (Nat.ltb_spec 1 (S n)) as [Hn | Hn].
    + specialize (IH (S n)). replace (1 <? S n) with true in IH
        by (symmetry; apply Nat.ltb_lt; lia).
      destruct (convert_extra (S n) true lines) as [newLines final].
      cbn [fst List.filter] in *. rewrite converted_no_h1. lia.
    + assert (n = 0) as -> by lia. specialize (IH 1).
      change (1 <? 1) with false in IH. change (1 <? 0) with false.
      destruct (convert_extra 1 false lines) as [newLines final].
      cbn [fst List.filter] in *. rewrite Hl. cbn [length]. lia.
  - specialize (IH n). destruct (convert_extra n (1 <? n) lines) as [newLines final].
    cbn [fst List.filter] in *. by rewrite Hl.
Qed.

Lemma convert_extra_not_nl lines : forall n m,
  Forall (fun l => all_chars not_nl l = true) lines ->
  Forall (fun l => all_chars not_nl l = true) (fst (convert_extra n m lines)).
Proof.
  induction lines as [|l lines IH]; intros n m Hall; [constructor |].
  apply Forall_cons in Hall as [Hl Hall]. cbn [convert_extra].
  destruct (test re_h1 l); [destruct (1 <? S n) |].
  - specialize (IH (S n) true Hall). destruct (convert_extra (S n) true lines).
    constructor; [by apply retag_not_nl | exact IH].
  - specialize (IH (S n) m Hall). destruct (convert_extra (S n) m lines).
    by constructor.
  - specialize (IH n m Hall). destruct (convert_extra n m lines). by constructor.
Qed.

Lemma h1_lines_exists lines :
  (1 <=? length (h1_lines lines)) = existsb (test re_h1) lines.
Proof.
  induction lines as [|l lines IH]; [done |]. cbn [h1_lines List.filter existsb].
  destruct (test re_h1 l); [done |]. exact IH.
Qed.

End HeadingFacts.

(** *** Reading the problem text of a skipped level *)

Section Steps.
Import Rx HeadingFix.
Context {R : Type}.
Variable s : string.

Lemma drop_next p c rest : Js.drop p s = String c rest -> Js.drop (S p) s = rest.
Proof.
  replace (S p) with (p + 1) by lia. rewrite str_drop_add. by intros ->.
Qed.

Lemma step_chr p st cs (k : mstate -> caps -> option R) r :
  m_rest st = Js.drop (m_pos st) s ->
  rmatch (Chr p) st cs k = Some r ->
  exists c st', p c = true /\ Js.drop (m_pos st) s = String c (m_rest st') /\
    m_pos st' = S (m_pos st) /\ m_rest st' = Js.drop (m_pos st') s /\
    k st' cs = Some r.
Proof.
  intros Hat. cbn [rmatch]. destruct (m_rest st) as [|c rest] eqn:Hrest; [done |].
  destruct (p c) eqn:Hc; [| done]. intros Hk.
  assert (Hdrop : Js.drop (m_pos st) s = String c rest) by congruence.
  exists c, (MState (Some c) (S (m_pos st)) rest). cbn [m_pos m_rest].
  split; [done |]. split; [done |]. split; [done |]. split; [| done].
  symmetry. by apply (drop_next _ c).
Qed.

Lemma star_greedy_inv p (k : mstate -> option R) t : forall prev pos r,
  star_greedy p k prev pos t = Some r ->
  exists x y, t = x +:+ y /\
    k (MState (last_char prev x) (pos + Js.len x) y) = Some r.
Proof.
  induction t as [|c t IH]; intros prev pos r; cbn [star_greedy].
  - intros Hk. exists EmptyString, EmptyString. cbn [last_char Js.len String.length].
    by rewrite Nat.add_0_r.
  - assert (Hstop : k (MState prev pos (String c t)) = Some r ->
              exists x y, String c t = x +:+ y /\
                k (MState (last_char prev x) (pos + Js.len x) y) = Some r).
    { intros Hk. exists EmptyString, (String c t). cbn [last_char Js.len String.length].
      by rewrite Nat.add_0_r. }
    destruct (p c); [| exact Hstop].
    destruct (star_greedy p k (Some c) (S pos) t) as [r'|] eqn:Hrec; [| exact Hstop].
    intros [= ->]. destruct (IH _ _ _ Hrec) as (x & y & -> & Hk).
    exists (String c x), y. rewrite str_app_cons. split; [done |].
    cbn [last_char Js.len String.length].
    by replace (pos + S (String.length x)) with (S pos + Js.len x) by (unfold Js.len; lia).
Qed.

Lemma step_star p st cs (k : mstate -> caps -> option R) r :
  m_rest st = Js.drop (m_pos st) s ->
  rmatch (Star p) st cs k = Some r ->
  exists st', m_rest st' = Js.drop (m_pos st') s /\ k st' cs = Some r.
Proof.
  intros Hat. cbn [rmatch]. intros H.
  apply star_greedy_inv in H as (x & y & Hxy & Hk).
  eexists. split; [| exact Hk]. cbn [m_pos m_rest].
  by rewrite str_drop_add, <- Hat, Hxy, str_drop_app.
Qed.

Lemma step_lit_ci l st cs (k : mstate -> caps -> option R) r :
  m_rest st = Js.drop (m_pos st) s ->
  rmatch (lit_ci l) st cs k = Some r ->
  exists st', m_rest st' = Js.drop (m_pos st') s /\ k st' cs = Some r.
Proof.
  intros Hat. rewrite rmatch_lit_ci. destruct (starts_with_ci l (m_rest st)); [| done].
  intros Hk. eexists. split; [| exact Hk]. cbn [m_pos m_rest].
  by rewrite str_drop_add, <- Hat.
Qed.

End Steps.

Section Levels.
Import Rx HeadingFix.

Lemma skipped_here s prev pos m :
  match_here re_skipped prev pos (Js.drop pos s) = Some m ->
  exists a e,
    Js.is_digit a = true /\ Js.is_digit e = true /\
    group s m 2 = Some (String a EmptyString) /\
    group s m 3 = Some (String e EmptyString).
Proof.
  unfold match_here, re_skipped, seqs. intros H.
  rewrite rmatch_seq in H.
  apply (step_chr s) in H as (c1 & st1 & _ & _ & _ & Hat1 & H); [| done].
  rewrite rmatch_seq, rmatch_group in H.
  apply (step_chr s) in H as (d1 & st2 & _ & _ & _ & Hat2 & H); [| done].
  rewrite rmatch_seq in H. apply (step_star s) in H as (st3 & Hat3 & H); [| done].
  rewrite rmatch_seq in H. apply (step_lit_ci s) in H as (st4 & Hat4 & H); [| done].
  rewrite rmatch_seq in H. apply (step_star s) in H as (st5 & Hat5 & H); [| done].
  rewrite rmatch_seq in H.
  apply (step_chr s) in H as (c6 & st6 & _ & _ & _ & Hat6 & H); [| done].
  rewrite rmatch_seq, rmatch_group in H.
  apply (step_chr s) in H as (a & st7 & Ha & Hdrop7 & Hpos7 & Hat7 & H); [| done].
  rewrite rmatch_seq in H. apply (step_star s) in H as (st8 & Hat8 & H); [| done].
  rewrite rmatch_seq in H.
  apply (step_chr s) in H as (c9 & st9 & _ & _ & _ & Hat9 & H); [| done].
  rewrite rmatch_seq in H. apply (step_lit_ci s) in H as (st10 & Hat10 & H); [| done].
  rewrite rmatch_seq in H. apply (step_star s) in H as (st11 & Hat11 & H); [| done].
  rewrite rmatch_seq in H.
  apply (step_chr s) in H as (c12 & st12 & _ & _ & _ & Hat12 & H); [| done].
  rewrite rmatch_seq, rmatch_group in H.
  apply (step_chr s) in H as (e & st13 & He & Hdrop13 & Hpos13 & Hat13 & H); [| done].
  apply (step_chr s) in H as (c14 & st14 & _ & _ & _ & _ & H); [| done].
  injection H as <-. exists a, e. unfold group. cbn [groups lookup_group Nat.eqb].
  rewrite Hpos7, Hpos13, Hdrop7, Hdrop13.
  replace (S (m_pos st6) - m_pos st6) with 1 by lia.
  replace (S (m_pos st12) - m_pos st12) with 1 by lia.
  done.
Qed.

Lemma skipped_levels s m :
  exec re_skipped s = Some m ->
  exists a e,
    Js.is_digit a = true /\ Js.is_digit e = true /\
    group s m 2 = Some (String a EmptyString) /\
    group s m 3 = Some (String e EmptyString).
Proof.
  unfold exec. intros H. apply search_some in H as (x & y & -> & H & _).
  cbn [Nat.add] in H. apply (skipped_here (x +:+ y) (last_char None x) (Js.len x)).
  by rewrite str_drop_app.
Qed.

End Levels.

Section HeadingHandler.
Import Rx HeadingFix.
Variable path_join : string -> string -> string.
Variable projectRoot : string.
Variable issue : Issue.

(** X19: the fix of multiple first-level headings counts lines, not tags.
    It succeeds exactly when at least two lines of the file open a
    first-level heading; it then writes the old content to the [.bak]
    file and the file with as many lines as before, in which every line
    that opens a first-level heading and comes after another such line has
    all its first-level tags turned into second-level ones, the first such
    line and every other line being kept as they are.  Otherwise, also
    when several headings stand on the only such line, it fails and leaves
    the world as it is. *)
Theorem extra_h1_fix (w : World) (content : string) :
  let filePath := path_join projectRoot (file issue) in
  let lines := Js.split_nl content in
  Js.includes "Multiple H1" (problem issue) = true ->
  files w !! filePath = Some content ->
  if 2 <=? length (h1_lines lines) then
    exists newLines,
      applyHeadingFix path_join projectRoot issue w
      = (fixed_with ("Converted " +:+ Js.of_nat (length (h1_lines lines) - 1)
                       +:+ " extra H1 tag(s) to H2."),
         writeFileSync filePath (Js.join_nl newLines)
           (writeFileSync (filePath +:+ ".bak") content w)) /\
      length newLines = length lines /\
      forall k ln, lines !! k = Some ln ->
        newLines !! k
        = Some (if test re_h1 ln && existsb (test re_h1) (take k lines)
                then retag "h1" "h2" ln else ln)
  else
    applyHeadingFix path_join projectRoot issue w
    = (failure "Could not locate extra H1 tags to fix", w).
Proof.
  cbv zeta. intros Hprob Hfile. unfold applyHeadingFix. cbv zeta.
  rewrite Hfile, Hprob.
  destruct (convert_extra_spec (Js.split_nl content) 0) as (Hsnd & Hlen & Hk).
  cbv zeta in Hsnd, Hlen, Hk. change (1 <? 0) with false in Hsnd, Hlen, Hk.
  destruct (convert_extra 0 false (Js.split_nl content)) as [newLines [h1Count modified]].
  cbn [fst snd] in Hsnd, Hlen, Hk. injection Hsnd as -> ->. cbn [Nat.add].
  change (1 <? length (h1_lines (Js.split_nl content)))
    with (2 <=? length (h1_lines (Js.split_nl content))).
  destruct (2 <=? length (h1_lines (Js.split_nl content))); [| done].
  exists newLines. split; [done |]. split; [done |].
  intros k ln Hln. by rewrite (Hk k ln Hln), <- h1_lines_exists.
Qed.

(** X20: the fix of multiple first-level headings is idempotent: after a
    success, a second attempt, on the same finding or on another finding of
    the same kind for the same file, finds a single line that opens a
    first-level heading, fails and writes nothing. *)
Theorem extra_h1_fix_once (w : World) (other : Issue) :
  let first := applyHeadingFix path_join projectRoot issue w in
  Js.includes "Multiple H1" (problem issue) = true ->
  success (fst first) = true ->
  file other = file issue ->
  Js.includes "Multiple H1" (problem other) = true ->
  applyHeadingFix path_join projectRoot other (snd first)
  = (failure "Could not locate extra H1 tags to fix", snd first).
Proof.
  cbv zeta. intros Hprob Hok Hsame Hother.
  remember (applyHeadingFix path_join projectRoot issue w) as first eqn:Hfirst.
  unfold applyHeadingFix in Hfirst. cbv zeta in Hfirst.
  destruct (files w !! path_join projectRoot (file issue)) as [content|] eqn:Hfile;
    [| by subst first].
  rewrite Hprob in Hfirst.
  pose proof (convert_extra_hits (Js.split_nl content) 0) as Hhits.
  pose proof (convert_extra_not_nl (Js.split_nl content) 0 false
                (proj2 (split_nl_lines content))) as Hnl.
  pose proof (convert_extra_spec (Js.split_nl content) 0) as (_ & Hlen & _).
  cbv zeta in Hlen. change (1 <? 0) with false in Hhits, Hlen.
  destruct (convert_extra 0 false (Js.split_nl content)) as [newLines [h1Count modified]].
  cbn [fst] in Hhits, Hnl, Hlen.
  destruct modified; [| by subst first]. subst first. clear Hok. cbn [snd].
  unfold applyHeadingFix. cbv zeta. rewrite Hsame.
  cbn [writeFileSync files]. rewrite lookup_insert_eq, Hother.
  rewrite split_join; [| | exact Hnl].
  2: { intros ->. pose proof (split_nl_length content). cbn in Hlen. lia. }
  pose proof (convert_extra_spec newLines 0) as (Hsnd & _ & _).
  cbv zeta in Hsnd. change (1 <? 0) with false in Hsnd.
  destruct (convert_extra 0 false newLines) as [again [count changed]].
  cbn [snd] in Hsnd. injection Hsnd as -> ->.
  cbn [Nat.add]. destruct (Nat.ltb_spec 1 (length (h1_lines newLines))); [lia | done].
Qed.

(** X21: the fix of a skipped heading level.  When it succeeds, the
    problem text reads as H.. -> Ha (expected He) with two digits a and e,
    the target line, which is a line of the file, holds an opening tag of
    level a, and what is written is the old content to the [.bak] file and
    then the file with the target line alone changed: every opening and
    closing tag of level a on it becomes one of level e.  When the two
    levels differ, the fix is idempotent: a second attempt finds no tag of
    level a on the line, fails and writes nothing. *)
Theorem skipped_level_fix (w : World) (content : string) :
  let filePath := path_join projectRoot (file issue) in
  let lines := Js.split_nl content in
  let first := applyHeadingFix path_join projectRoot issue w in
  Js.includes "Multiple H1" (problem issue) = false ->
  files w !! filePath = Some content ->
  success (fst first) = true ->
  exists m a e ln,
    let oldTag := "h" +:+ String a EmptyString in
    let newTag := "h" +:+ String e EmptyString in
    exec re_skipped (problem issue) = Some m /\
    group (problem issue) m 2 = Some (String a EmptyString) /\
    group (problem issue) m 3 = Some (String e EmptyString) /\
    Js.is_digit a = true /\ Js.is_digit e = true /\
    1 <= line issue /\ lines !! (line issue - 1) = Some ln /\
    includes_ci ("<" +:+ oldTag) ln = true /\
    first
    = (fixed_with ("Changed <" +:+ oldTag +:+ "> to <" +:+ newTag
                     +:+ "> at line " +:+ Js.of_nat (line issue) +:+ "."),
       writeFileSync filePath
         (Js.join_nl (<[line issue - 1 := retag oldTag newTag ln]> lines))
         (writeFileSync (filePath +:+ ".bak") content w)) /\
    (a <> e ->
     applyHeadingFix path_join projectRoot issue (snd first)
     = (failure "Could not locate the heading tag to fix", snd first)).
Proof.
  cbv zeta. intros Hprob Hfile Hok.
  remember (applyHeadingFix path_join projectRoot issue w) as first eqn:Hfirst.
  unfold applyHeadingFix in Hfirst. cbv zeta in Hfirst.
  rewrite Hfile, Hprob in Hfirst.
  destruct (Js.includes "Skipped heading level" (problem issue)) eqn:Hskip;
    [| by subst first].
  destruct (exec re_skipped (problem issue)) as [m|] eqn:Hexec; [| by subst first].
  destruct (skipped_levels _ _ Hexec) as (a & e & Ha & He & Hga & Hge).
  rewrite Hga, Hge in Hfirst. cbn [level] in Hfirst.
  destruct ((0 <=? Z.of_nat (line issue) - 1)%Z
            && (Z.of_nat (line issue) - 1 <? Z.of_nat (length (Js.split_nl content)))%Z)
    eqn:Hrange; [| by subst first].
  apply andb_true_iff in Hrange as [Hlo Hhi].
  apply Z.leb_le in Hlo. apply Z.ltb_lt in Hhi.
  replace (Z.to_nat (Z.of_nat (line issue) - 1)) with (line issue - 1) in Hfirst by lia.
  destruct (lookup_lt_is_Some_2 (Js.split_nl content) (line issue - 1)) as [ln Hln];
    [lia |].
  assert (Hat : line_at (Js.split_nl content) (line issue - 1) = ln)
    by (unfold line_at; by rewrite Hln).
  rewrite Hat in Hfirst.
  destruct (Js.includes ("<" +:+ "h" +:+ String a EmptyString) (Js.toLowerCase ln))
    eqn:Hhas; [| by subst first].
  exists m, a, e, ln.
  split; [done |]. split; [done |]. split; [done |]. split; [done |]. split; [done |].
  split; [lia |]. split; [done |]. split; [by apply includes_lower |].
  split; [done |]. intros Hne. subst first. clear Hok. cbn [snd].
  set (new := retag ("h" +:+ String a EmptyString) ("h" +:+ String e EmptyString) ln).
  destruct (split_nl_lines content) as [_ Hall].
  assert (Hln_nl : all_chars not_nl ln = true).
  { rewrite Forall_forall in Hall. apply Hall. by eapply list_elem_of_lookup_2. }
  assert (Hsplit : Js.split_nl (Js.join_nl (<[line issue - 1 := new]> (Js.split_nl content)))
                   = <[line issue - 1 := new]> (Js.split_nl content)).
  { apply split_join.
    - intros Hnil. apply (f_equal length) in Hnil. rewrite length_insert in Hnil.
      cbn in Hnil. lia.
    - apply Forall_insert; [exact Hall |]. subst new. apply retag_not_nl; [| done].
      change ("h" +:+ String e EmptyString) with (String "h" (String e EmptyString)).
      cbn [all_chars]. by rewrite (digit_not_nl e He). }
  unfold applyHeadingFix. cbv zeta. cbn [writeFileSync files].
  rewrite lookup_insert_eq, Hprob, Hskip, Hexec, Hga, Hge, Hsplit, length_insert.
  cbn [level].
  replace ((0 <=? Z.of_nat (line issue) - 1)%Z
           && (Z.of_nat (line issue) - 1 <? Z.of_nat (length (Js.split_nl content)))%Z)
    with true by (symmetry; apply andb_true_iff; split; [apply Z.leb_le | apply Z.ltb_lt]; lia).
  replace (Z.to_nat (Z.of_nat (line issue) - 1)) with (line issue - 1) by lia.
  unfold line_at. rewrite list_lookup_insert_eq by lia.
  destruct (Js.includes ("<" +:+ "h" +:+ String a EmptyString) (Js.toLowerCase new))
    eqn:Hagain; [| done].
  apply includes_lower in Hagain. subst new.
  change ("<" +:+ "h" +:+ String a EmptyString)
    with (String "<" (String "h" (String a EmptyString))) in Hagain.
  change ("h" +:+ String a EmptyString) with (String "h" (String a EmptyString)) in Hagain.
  change ("h" +:+ String e EmptyString) with (String "h" (String e EmptyString)) in Hagain.
  by rewrite retag_no_opening in Hagain.
Qed.

End HeadingHandler.

Lemma extra_h1_fix_witness :
  exists newLines,
    HeadingFix.applyHeadingFix Example.join "/site" Outline.multiple_h1
      (Sample.site Outline.two_titles)
    = (fixed_with "Converted 1 extra H1 tag(s) to H2.",
       writeFileSync "/site/index.html" (Js.join_nl newLines)
         (writeFileSync "/site/index.html.bak" Outline.two_titles
            (Sample.site Outline.two_titles))) /\
    newLines !! 0 = Some "<h1>Shop</h1>" /\
    newLines !! 1 = Some "<p>New</p>" /\
    newLines !! 2 = Some "<h2 class=x>Sale</h2>".
Proof.
  pose proof (extra_h1_fix Example.join "/site" Outline.multiple_h1
                (Sample.site Outline.two_titles) Outline.two_titles) as H.
  cbv zeta in H.
  specialize (H ltac:(vm_compute; reflexivity) ltac:(vm_compute; reflexivity)).
  change (2 <=? length (h1_lines (Js.split_nl Outline.two_titles))) with true in H.
  destruct H as (newLines & Hrun & _ & Hk). exists newLines.
  split; [exact Hrun |].
  rewrite (Hk 0 "<h1>Shop</h1>"), (Hk 1 "<p>New</p>"), (Hk 2 "<H1 class=x>Sale</H1>")
    by (vm_compute; reflexivity).
  repeat split; vm_compute; reflexivity.
Defined.

Lemma extra_h1_fix_once_witness :
  let first := HeadingFix.applyHeadingFix Example.join "/site" Outline.multiple_h1
                 (Sample.site Outline.two_titles) in
  success (fst first) = true /\
  HeadingFix.applyHeadingFix Example.join "/site" Outline.multiple_h1 (snd first)
  = (failure "Could not locate extra H1 tags to fix", snd first).
Proof.
  cbv zeta. split; [vm_compute; reflexivity |].
  apply (extra_h1_fix_once Example.join "/site" Outline.multiple_h1
           (Sample.site Outline.two_titles) Outline.multiple_h1); vm_compute; reflexivity.
Defined.

Lemma skipped_level_fix_witness :
  let first := HeadingFix.applyHeadingFix Example.join "/site" Outline.skipped_level
                 (Sample.site Outline.deep_page) in
  success (fst first) = true /\
  files (snd first) !! "/site/index.html"
  = Some ("<h1>Shop</h1>" +:+ String Js.nl "<h2>Sale</h2>") /\
  exists a e,
    fst first = fixed_with ("Changed <h" +:+ String a ("> to <h" +:+ String e "> at line 2.")).
Proof.
  cbv zeta. split; [vm_compute; reflexivity |]. split; [vm_compute; reflexivity |].
  destruct (skipped_level_fix Example.join "/site" Outline.skipped_level
              (Sample.site Outline.deep_page) Outline.deep_page)
    as (m & a & e & ln & _ & _ & _ & _ & _ & _ & _ & _ & Hrun & _);
    [vm_compute; reflexivity .. |].
  exists a, e. by rewrite Hrun.
Defined.

(** ** The image fix handler of the SEO plugin *)

Section ImportFacts.
Import Rx SeoImageFix.

Lemma step_lit {R} s l st cs (k : mstate -> caps -> option R) r :
  m_rest st = Js.drop (m_pos st) s ->
  rmatch (lit l) st cs k = Some r ->
  Js.starts_with l (Js.drop (m_pos st) s) = true /\
  exists st', m_rest st' = Js.drop (m_pos st') s /\ m_pos st <= m_pos st' /\
    k st' cs = Some r.
Proof.
  intros Hat. rewrite rmatch_lit. rewrite <- Hat.
  destruct (Js.starts_with l (m_rest st)); [| done].
  intros Hk. split; [done |]. eexists. split; [| split; [| exact Hk]]; cbn [m_pos m_rest].
  - by rewrite str_drop_add, <- Hat.
  - lia.
Qed.

Lemma step_star_le {R} s p st cs (k : mstate -> caps -> option R) r :
  m_rest st = Js.drop (m_pos st) s ->
  rmatch (Star p) st cs k = Some r ->
  exists st', m_rest st' = Js.drop (m_pos st') s /\ m_pos st <= m_pos st' /\
    k st' cs = Some r.
Proof.
  intros Hat. cbn [rmatch]. intros H.
  apply star_greedy_inv in H as (x & y & Hxy & Hk).
  eexists. split; [| split; [| exact Hk]]; cbn [m_pos m_rest].
  - by rewrite str_drop_add, <- Hat, Hxy, str_drop_app.
  - lia.
Qed.

(** a turn of the group ends behind a line feed *)
Lemma import_turn s pos m :
  match_here re_import None pos (Js.drop pos s) = Some m ->
  Js.starts_with "import" (Js.drop pos s) = true /\
  exists q, stop m = S q /\ pos <= q /\ Js.drop q s = String Js.nl (Js.drop (S q) s).
Proof.
  unfold match_here, re_import, seqs, plus. intros H.
  rewrite rmatch_seq in H.
  apply (step_lit s) in H as (Hstart & st1 & Hat1 & Hle1 & H); [| done].
  cbn [m_pos] in Hstart, Hle1. split; [exact Hstart |].
  rewrite rmatch_seq in H. rewrite rmatch_seq in H.
  apply (step_chr s) in H as (c2 & st2 & _ & _ & Hpos2 & Hat2 & H); [| done].
  apply (step_star_le s) in H as (st3 & Hat3 & Hle3 & H); [| done].
  rewrite rmatch_seq in H.
  apply (step_star_le s) in H as (st4 & Hat4 & Hle4 & H); [| done].
  apply (step_chr s) in H as (c5 & st5 & Hc5 & Hdrop5 & Hpos5 & Hat5 & H); [| done].
  injection H as <-. cbn [stop]. exists (m_pos st4).
  apply Ascii.eqb_eq in Hc5. subst c5.
  split; [done |]. split; [lia |]. by rewrite Hdrop5, Hat5, Hpos5.
Qed.

Lemma import_block_end s : forall fuel pos,
  (pos = 0 \/ exists q, pos = S q /\ Js.drop q s = String Js.nl (Js.drop pos s)) ->
  let p := import_block fuel pos (Js.drop pos s) in
  (p = 0 \/ exists q, p = S q /\ Js.drop q s = String Js.nl (Js.drop p s)) /\
  (pos = 0 -> Js.starts_with "import" s = false -> p = 0).
Proof.
  induction fuel as [|fuel IH]; intros pos Hpos; cbv zeta; cbn [import_block].
  { split; [exact Hpos | done]. }
  destruct (match_here re_import None pos (Js.drop pos s)) as [m|] eqn:Hm.
  - destruct (import_turn _ _ _ Hm) as (Hstart & q & Hstop & Hle & Hq).
    replace (Js.drop (stop m - pos) (Js.drop pos s)) with (Js.drop (stop m) s).
    2:{ rewrite <- str_drop_add. f_equal. lia. }
    destruct (IH (stop m)) as [Hend _].
    { right. exists q. by rewrite Hstop. }
    cbv zeta in Hend. split; [exact Hend |].
    intros -> Hno. cbn [Js.drop] in Hstart. congruence.
  - split; [exact Hpos | done].
Qed.

(** the import line is put in at the start of the file or behind a line
    feed *)
Lemma insertPos_spec content :
  let p := insertPos content in
  (p = 0 \/ exists q, p = S q /\ Js.drop q content = String Js.nl (Js.drop p content)) /\
  (Js.starts_with "import" content = false -> p = 0).
Proof.
  cbv zeta. unfold insertPos.
  destruct (import_block_end content (S (Js.len content)) 0) as [H1 H2]; [by left |].
  cbv zeta in H1, H2. cbn [Js.drop] in H1, H2. split; [exact H1 |]. by apply H2.
Qed.

Lemma split_nl_at x : forall y,
  Js.split_nl (x +:+ String Js.nl y) = Js.split_nl x ++ Js.split_nl y.
Proof.
  induction x as [|c x IH]; intros y.
  - rewrite str_app_nil_l. cbn [Js.split_nl]. by rewrite Ascii.eqb_refl.
  - rewrite str_app_cons. cbn [Js.split_nl]. rewrite IH.
    destruct (Ascii.eqb c Js.nl); [done |].
    destruct (Js.split_nl x) as [|l ls] eqn:Hx; [| done].
    pose proof (split_nl_length x) as Hlen. rewrite Hx in Hlen. cbn in Hlen. lia.
Qed.

Lemma str_take_next q c rest s :
  Js.drop q s = String c rest -> Js.take (S q) s = Js.take q s +:+ String c EmptyString.
Proof.
  revert s. induction q as [|q IH]; intros s H.
  - cbn [Js.drop] in H. subst s. done.
  - destruct s as [|d s]; [done |]. cbn [Js.drop] in H.
    change (Js.take (S (S q)) (String d s)) with (String d (Js.take (S q) s)).
    change (Js.take (S q) (String d s)) with (String d (Js.take q s)).
    by rewrite (IH s H), str_app_cons.
Qed.

(** the lines after the import line is put in: the lines before the
    position, the import line, the lines behind the position *)
Lemma import_inserted content ins :
  all_chars not_nl ins = true ->
  let p := insertPos content in
  exists i0, i0 <= length (Js.split_nl content) /\
    Js.split_nl (Js.take p content +:+ (ins +:+ String Js.nl EmptyString)
                   +:+ Js.drop p content)
    = take i0 (Js.split_nl content) ++ ins :: drop i0 (Js.split_nl content) /\
    (Js.starts_with "import" content = false -> i0 = 0).
Proof.
  intros Hins. cbv zeta. destruct (insertPos_spec content) as [Hp Hzero].
  cbv zeta in Hp, Hzero. destruct Hp as [Hp | (q & Hp & Hq)].
  - exists 0. rewrite Hp. cbn [Js.take Js.drop take drop app].
    rewrite str_app_nil_l, str_app_assoc, str_app_cons, str_app_nil_l.
    rewrite split_nl_app by done. split; [lia |]. done.
  - rewrite Hp in *. clear Hp.
    assert (Hcontent : content = Js.take q content +:+ String Js.nl (Js.drop (S q) content)).
    { rewrite <- Hq. symmetry. apply str_take_drop. }
    exists (length (Js.split_nl (Js.take q content))).
    rewrite (str_take_next q _ _ _ Hq).
    assert (Hlines : Js.split_nl content
                     = Js.split_nl (Js.take q content) ++ Js.split_nl (Js.drop (S q) content)).
    { rewrite Hcontent at 1. apply split_nl_at. }
    rewrite Hlines, take_app_length, drop_app_length, length_app.
    split; [lia |]. split.
    + rewrite !str_app_assoc, str_app_cons, str_app_nil_l, split_nl_at.
      f_equal. rewrite str_app_cons, str_app_nil_l. by apply split_nl_app.
    + intros Hno. specialize (Hzero Hno). done.
Qed.

End ImportFacts.

(** *** Tags found by their opening bracket

    A pattern that reads a fixed number of characters from an opening
    bracket on, none of them a further opening bracket: what it finds
    before a given opening bracket does not depend on the text behind that
    bracket. *)

Section Anchored.
Import Rx.
Variable re : regex.
Variable tag_at : string -> bool.
Variable n : nat.
Hypothesis Hhere : forall prev pos y,
  match_here re prev pos y
  = if tag_at y then Some (MatchResult pos (pos + n) []) else None.
Hypothesis Hlt : forall y, tag_at y = true -> exists y', y = String "<" y'.
Hypothesis Hlen : forall y, tag_at y = true -> n <= Js.len y.
Hypothesis Hbefore : forall c u X X',
  tag_at (String c u +:+ String "<" X) = tag_at (String c u +:+ String "<" X').

Lemma anchored_none s : forall prev pos,
  search re prev pos s = None <-> (forall x y, s = x +:+ y -> tag_at y = false).
Proof.
  induction s as [|c s IH]; intros prev pos.
  - cbn [search]. rewrite Hhere. split.
    + intros H x y Hxy. destruct x as [|d x]; [| done].
      rewrite str_app_nil_l in Hxy. subst y. by destruct (tag_at EmptyString).
    + intros H. by rewrite (H EmptyString EmptyString eq_refl).
  - rewrite search_cons, Hhere. split.
    + intros H x y Hxy. destruct (tag_at (String c s)) eqn:Hc; [done |].
      destruct x as [|d x].
      * rewrite str_app_nil_l in Hxy. by subst y.
      * rewrite str_app_cons in Hxy. injection Hxy as -> ->.
        by apply (proj1 (IH (Some d) (S pos)) H x y).
    + intros H. rewrite (H EmptyString (String c s) eq_refl). apply IH.
      intros x y ->. apply (H (String c x)). by rewrite str_app_cons.
Qed.

Lemma anchored_first ln m :
  exec re ln = Some m ->
  exists a b, ln = a +:+ String "<" b /\ tag_at (String "<" b) = true /\
    m = MatchResult (Js.len a) (Js.len a + n) [] /\
    forall X, tag_at (String "<" X) = true -> exec re (a +:+ String "<" X) = Some m.
Proof.
  intros Hexec. unfold exec in Hexec.
  destruct (search_some _ _ _ _ _ Hexec) as (a & b & -> & Hm & Hearlier).
  rewrite Nat.add_0_l, Hhere in Hm. destruct (tag_at b) eqn:Hb; [| done].
  injection Hm as <-. destruct (Hlt b Hb) as (b' & ->). exists a, b'.
  split; [done |]. split; [done |]. split; [done |].
  intros X HX. unfold exec. apply search_intro.
  - by rewrite Nat.add_0_l, Hhere, HX.
  - intros x' y' Heq Hlt'.
    destruct (str_app_split _ _ _ _ Heq Hlt') as (d & a2 & -> & ->).
    rewrite Hhere, (Hbefore d a2 X b').
    specialize (Hearlier x' (String d a2 +:+ String "<" b')).
    rewrite Hhere in Hearlier. destruct (tag_at (String d a2 +:+ String "<" b')); [| done].
    exfalso. discriminate Hearlier; [by rewrite str_app_assoc |].
    rewrite str_len_app, str_len_cons. lia.
Qed.

(** the tag start replaced by a text that begins with a tag start again:
    the same place is found again, and the text is put in once more *)
Lemma anchored_replace ln m TAG ins :
  Js.len TAG = n -> (forall Y, tag_at (TAG +:+ Y) = true) ->
  exec re ln = Some m ->
  let p := index m in
  let once := Js.take p ln +:+ TAG +:+ ins +:+ Js.drop (p + n) ln in
  p + n <= Js.len ln /\
  replace_first re (fun _ => TAG +:+ ins) ln = once /\
  exec re once = Some m /\
  replace_first re (fun _ => TAG +:+ ins) once
  = Js.take p ln +:+ TAG +:+ ins +:+ ins +:+ Js.drop (p + n) ln.
Proof.
  intros HTAG Hat Hexec. cbv zeta.
  destruct (anchored_first ln m Hexec) as (a & b & -> & Hb & -> & Hagain).
  cbn [index]. rewrite str_take_app, str_drop_add, str_drop_app.
  destruct (Hlt _ (Hat EmptyString)) as (tg & Htg). rewrite str_app_nil_r in Htg.
  assert (Honce : exec re (a +:+ TAG +:+ ins +:+ Js.drop n (String "<" b))
                  = Some (MatchResult (Js.len a) (Js.len a + n) [])).
  { rewrite Htg, str_app_cons. apply Hagain. rewrite <- str_app_cons, <- Htg. apply Hat. }
  split; [| split; [| split]].
  - rewrite str_len_app. specialize (Hlen _ Hb). lia.
  - unfold replace_first. rewrite Hexec. cbn [index stop].
    by rewrite str_take_app, str_drop_add, str_drop_app, str_app_assoc.
  - exact Honce.
  - unfold replace_first. rewrite Honce. cbn [index stop].
    rewrite str_take_app, str_drop_add, str_drop_app.
    rewrite (str_drop_app_eq n TAG) by done. by rewrite str_app_assoc.
Qed.

(** no tag is found in a text of which no end begins a tag *)
Lemma anchored_tail u r :
  all_chars no_lt u = true ->
  (forall x y, r = x +:+ y -> tag_at y = false) ->
  forall x y, u +:+ r = x +:+ y -> tag_at y = false.
Proof.
  induction u as [|c u IH]; intros Hu Hr x y Hxy.
  - rewrite str_app_nil_l in Hxy. by apply (Hr x).
  - cbn [all_chars] in Hu. apply andb_true_iff in Hu as [Hc Hu].
    rewrite str_app_cons in Hxy. destruct x as [|d x].
    + rewrite str_app_nil_l in Hxy. subst y.
      destruct (tag_at (String c (u +:+ r))) eqn:Hy; [| done].
      apply Hlt in Hy as (y' & [= -> _]). done.
    + rewrite str_app_cons in Hxy. injection Hxy as _ Hxy. by apply (IH Hu Hr x).
Qed.

Lemma anchored_swap a X X' :
  (forall x y, a +:+ String "<" X = x +:+ y -> tag_at y = false) ->
  (forall x y, String "<" X' = x +:+ y -> tag_at y = false) ->
  forall x y, a +:+ String "<" X' = x +:+ y -> tag_at y = false.
Proof.
  induction a as [|c a IH]; intros Ha HX x y Hxy.
  - rewrite str_app_nil_l in Hxy. by apply (HX x).
  - rewrite str_app_cons in Hxy. destruct x as [|d x].
    + rewrite str_app_nil_l in Hxy. subst y. rewrite <- str_app_cons, (Hbefore c a X' X).
      by apply (Ha EmptyString).
    + rewrite str_app_cons in Hxy. injection Hxy as _ Hxy. apply IH with (x := x);
        [| exact HX | exact Hxy].
      intros x0 y0 H0. apply (Ha (String c x0)). by rewrite str_app_cons, H0, str_app_cons.
Qed.

End Anchored.

Section ImageTags.
Import Rx SeoImageFix.

Lemma img_at_lt y : img_at y = true -> exists y', y = String "<" y'.
Proof.
  unfold img_at. destruct y as [|c y]; [done |]. cbn [starts_with_ci].
  destruct (is_char_ci "<" c) eqn:Hc; [| done]. intros _.
  apply is_char_ci_lt in Hc as ->. by exists y.
Qed.

Lemma img_at_len y : img_at y = true -> 5 <= Js.len y.
Proof.
  unfold img_at. intros H. apply andb_prop in H as [Hs Hw].
  destruct y as [|c1 [|c2 [|c3 [|c4 [|c5 y]]]]]; try done;
    try (cbn in Hs; repeat case_match; done).
  unfold Js.len. cbn. lia.
Qed.

Lemma img_at_before c u X X' :
  img_at (String c u +:+ String "<" X) = img_at (String c u +:+ String "<" X').
Proof.
  destruct u as [|c2 [|c3 [|c4 [|c5 u]]]].
  - unfold img_at. rewrite !str_app_cons, !str_app_nil_l. cbn [starts_with_ci].
    change (is_char_ci "i" "<") with false. by destruct (is_char_ci "<" c).
  - unfold img_at. rewrite !str_app_cons, !str_app_nil_l. cbn [starts_with_ci].
    change (is_char_ci "m" "<") with false.
    by destruct (is_char_ci "<" c), (is_char_ci "i" c2).
  - unfold img_at. rewrite !str_app_cons, !str_app_nil_l. cbn [starts_with_ci].
    change (is_char_ci "g" "<") with false.
    by destruct (is_char_ci "<" c), (is_char_ci "i" c2), (is_char_ci "m" c3).
  - unfold img_at. rewrite !str_app_cons, !str_app_nil_l. cbn [starts_with_ci Js.drop].
    change (Js.is_ws "<") with false. by rewrite !andb_false_r.
  - apply (img_at_prefix (String c (String c2 (String c3 (String c4 (String c5 u)))))).
    unfold Js.len. cbn. lia.
Qed.

Lemma Image_at_lt y : Image_at y = true -> exists y', y = String "<" y'.
Proof.
  unfold Image_at. destruct y as [|c y]; [done |]. cbn [Js.starts_with].
  destruct (Ascii.eqb_spec "<" c) as [<- | _]; [| done]. intros _. by exists y.
Qed.

Lemma Image_at_len y : Image_at y = true -> 7 <= Js.len y.
Proof.
  intros H. destruct (Image_at_inv y H) as (c & r & -> & _).
  rewrite !str_len_app. unfold Js.len. cbn. lia.
Qed.

Lemma Image_at_before c u X X' :
  Image_at (String c u +:+ String "<" X) = Image_at (String c u +:+ String "<" X').
Proof.
  destruct u as [|c2 [|c3 [|c4 [|c5 [|c6 [|c7 u]]]]]];
    unfold Image_at; rewrite !str_app_cons, ?str_app_nil_l; cbn [Js.starts_with Js.drop].
  - change (Ascii.eqb "I" "<") with false. by destruct (Ascii.eqb "<" c).
  - change (Ascii.eqb "m" "<") with false.
    by destruct (Ascii.eqb "<" c), (Ascii.eqb "I" c2).
  - change (Ascii.eqb "a" "<") with false.
    by destruct (Ascii.eqb "<" c), (Ascii.eqb "I" c2), (Ascii.eqb "m" c3).
  - change (Ascii.eqb "g" "<") with false.
    by destruct (Ascii.eqb "<" c), (Ascii.eqb "I" c2), (Ascii.eqb "m" c3),
      (Ascii.eqb "a" c4).
  - change (Ascii.eqb "e" "<") with false.
    by destruct (Ascii.eqb "<" c), (Ascii.eqb "I" c2), (Ascii.eqb "m" c3),
      (Ascii.eqb "a" c4), (Ascii.eqb "g" c5).
  - change (Js.is_ws "<") with false. by rewrite !andb_false_r.
  - done.
Qed.

(** what the first branch does to a line with an image tag, once and
    twice *)
Lemma img_replace ln m ins :
  exec re_img ln = Some m ->
  let p := index m in
  let once := Js.take p ln +:+ "<img " +:+ ins +:+ Js.drop (p + 5) ln in
  p + 5 <= Js.len ln /\
  replace_first re_img (fun _ => "<img " +:+ ins) ln = once /\
  exec re_img once = Some m /\
  replace_first re_img (fun _ => "<img " +:+ ins) once
  = Js.take p ln +:+ "<img " +:+ ins +:+ ins +:+ Js.drop (p + 5) ln.
Proof.
  apply (anchored_replace re_img img_at 5 match_here_img img_at_lt img_at_len
           img_at_before); [done |].
  intros Y. by rewrite (img_at_prefix "<img " Y EmptyString).
Qed.

Lemma Image_replace ln m ins :
  exec re_Image ln = Some m ->
  let p := index m in
  let once := Js.take p ln +:+ "<Image " +:+ ins +:+ Js.drop (p + 7) ln in
  p + 7 <= Js.len ln /\
  replace_first re_Image (fun _ => "<Image " +:+ ins) ln = once /\
  exec re_Image once = Some m /\
  replace_first re_Image (fun _ => "<Image " +:+ ins) once
  = Js.take p ln +:+ "<Image " +:+ ins +:+ ins +:+ Js.drop (p + 7) ln.
Proof.
  apply (anchored_replace re_Image Image_at 7 match_here_Image Image_at_lt Image_at_len
           Image_at_before); [done |].
  intros Y. by rewrite !str_app_cons.
Qed.

(** the placeholder put into a component brings no image tag *)
Lemma Image_replaced_no_img ln m ins :
  all_chars no_lt ins = true ->
  test re_img ln = false ->
  exec re_Image ln = Some m ->
  test re_img (Js.take (index m) ln +:+ "<Image " +:+ ins +:+ Js.drop (index m + 7) ln)
  = false.
Proof.
  intros Hins Hno Hexec.
  destruct (anchored_first re_Image Image_at 7 match_here_Image Image_at_lt Image_at_before
              ln m Hexec) as (a & b & -> & Hb & -> & _).
  cbn [index]. rewrite str_take_app, str_drop_add, str_drop_app.
  destruct (Image_at_inv _ Hb) as (c & r & Hbeq & Hc).
  rewrite Hbeq, (str_drop_app_eq 7 _ r) by done.
  assert (Hln : forall x y, a +:+ String "<" b = x +:+ y -> img_at y = false).
  { apply (proj1 (anchored_none re_img img_at 5 match_here_img _ None 0)).
    unfold test, exec in Hno. by destruct (search re_img None 0 (a +:+ String "<" b)). }
  unfold test, exec.
  replace (search re_img None 0 (a +:+ "<Image " +:+ ins +:+ r)) with (@None rmatch_result);
    [done |].
  symmetry. apply (proj2 (anchored_none re_img img_at 5 match_here_img _ None 0)).
  change ("<Image " +:+ ins +:+ r) with (String "<" ("Image " +:+ ins +:+ r)).
  apply (anchored_swap img_at img_at_before a b); [exact Hln |].
  intros x y Hxy. destruct x as [|d x].
  - rewrite str_app_nil_l in Hxy. by subst y.
  - rewrite str_app_cons in Hxy. injection Hxy as _ Hxy.
    rewrite <- str_app_assoc in Hxy.
    apply (anchored_tail img_at img_at_lt ("Image " +:+ ins) r) with (x := x); [| | done].
    + by rewrite all_chars_app, Hins.
    + intros x0 y0 ->. apply (Hln ((a +:+ "<Image" +:+ String c EmptyString) +:+ x0)).
      rewrite Hbeq. by rewrite !str_app_assoc.
Qed.

End ImageTags.

Section SeoImage.
Import Rx SeoImageFix.
Variable path_join : string -> string -> string.
Variable projectRoot : string.
Variable issue : Issue.

Lemma includes_longer p q s : Js.includes (p +:+ q) s = true -> Js.includes p s = true.
Proof.
  intros H. apply includes_inv in H as (x & y & -> & _).
  rewrite (str_app_assoc p q y). apply includes_app.
Qed.

Lemma on_a_line_spec (lines : list string) :
  on_a_line issue lines
  = match line issue with
    | 0 => false
    | S t => match lines !! t with Some _ => true | None => false end
    end.
Proof.
  unfold on_a_line. destruct (line issue) as [|t]; [done |].
  destruct (lines !! t) as [ln|] eqn:Hln.
  - apply lookup_lt_Some in Hln. apply andb_true_iff.
    split; [apply Z.leb_le | apply Z.ltb_lt]; lia.
  - apply lookup_ge_None in Hln. apply andb_false_iff. right. apply Z.ltb_ge. lia.
Qed.

(** X23: the conversion to the Next.js component reads the wrong line
    when it adds the import.  For a file that does not import next/image
    yet, the handler puts the import line in as a whole line, at the start
    of the file unless the file begins with import statements, and then
    looks for the image tag at the line number of the finding in the lines
    as they are after the insertion: for a finding behind the import line
    this is the line above the one the finding names, and for a finding on
    the line where the import now stands the handler fails. *)
Theorem convert_reads_line_above (w : World) (content : string) :
  let filePath := path_join projectRoot (file issue) in
  let lines := Js.split_nl content in
  Js.includes "missing alt" (problem issue) = false ->
  Js.includes "native <img>" (problem issue) = true ->
  Js.includes "next/image" (problem issue) = true ->
  Js.includes "from 'next/image'" content = false ->
  Js.includes ("from " +:+ Js.quoted "next/image") content = false ->
  files w !! filePath = Some content ->
  exists i0,
    let newLines := take i0 lines ++ import_line :: drop i0 lines in
    i0 <= length lines /\
    (Js.starts_with "import" content = false -> i0 = 0) /\
    (forall t, i0 < t -> newLines !! t = lines !! (t - 1)) /\
    (line issue = S i0 ->
     applyImageFix path_join projectRoot issue w
     = (failure "Could not locate <img> tag to convert", w)) /\
    applyImageFix path_join projectRoot issue w
    = match line issue with
      | 0 => (failure "Could not locate <img> tag to convert", w)
      | S t =>
          match newLines !! t with
          | Some ln =>
              if test re_img ln then
                rewrite_file filePath content (<[t := to_component ln]> newLines)
                  ("Converted <img> to <Image> at line " +:+ Js.of_nat (line issue)
                     +:+ ". Verify width/height props are set.") w
              else (failure "Could not locate <img> tag to convert", w)
          | None => (failure "Could not locate <img> tag to convert", w)
          end
      end.
Proof.
  cbv zeta. intros Halt Hnative Hnext Hq1 Hq2 Hfile.
  assert (Halt' : Js.includes "missing alt attribute" (problem issue) = false).
  { destruct (Js.includes "missing alt attribute" (problem issue)) eqn:H; [| done].
    apply (includes_longer "missing alt" " attribute") in H. congruence. }
  destruct (import_inserted content import_line) as (i0 & Hle & Hsplit & Hzero);
    [by vm_compute |].
  cbv zeta in Hsplit. exists i0.
  set (newLines := take i0 (Js.split_nl content) ++ import_line :: drop i0 (Js.split_nl content))
    in *.
  assert (Hrun : applyImageFix path_join projectRoot issue w
    = match line issue with
      | 0 => (failure "Could not locate <img> tag to convert", w)
      | S t =>
          match newLines !! t with
          | Some ln =>
              if test re_img ln then
                rewrite_file (path_join projectRoot (file issue)) content
                  (<[t := to_component ln]> newLines)
                  ("Converted <img> to <Image> at line " +:+ Js.of_nat (line issue)
                     +:+ ". Verify width/height props are set.") w
              else (failure "Could not locate <img> tag to convert", w)
          | None => (failure "Could not locate <img> tag to convert", w)
          end
      end).
  { unfold applyImageFix. cbv zeta.
    rewrite Hfile, Halt, Halt', Hnative, Hnext, Hq1, Hq2. cbn [orb andb].
    rewrite Hsplit, on_a_line_spec. destruct (line issue) as [|t]; [done |].
    replace (Z.to_nat (Z.of_nat (S t) - 1)) with t by lia.
    unfold line_at. by destruct (newLines !! t). }
  split; [exact Hle |]. split; [exact Hzero |]. split; [| split; [| exact Hrun]].
  - intros t Ht. subst newLines. rewrite lookup_app_r; rewrite length_take; [| lia].
    replace (i0 `min` length (Js.split_nl content)) with i0 by lia.
    destruct (t - i0) as [|k] eqn:Hk; [lia |]. rewrite lookup_cons, lookup_drop.
    f_equal. lia.
  - intros Hline. rewrite Hrun, Hline.
    replace (newLines !! i0) with (Some import_line); [done |].
    subst newLines. rewrite lookup_app_r; rewrite length_take; [| lia].
    by replace (i0 - i0 `min` length (Js.split_nl content)) with 0 by lia.
Qed.

Lemma bak_differs s : s +:+ ".bak" <> s.
Proof.
  intros H. apply (f_equal Js.len) in H. rewrite str_len_app in H.
  unfold Js.len in H. cbn in H. lia.
Qed.

Lemma test_exec r s : test r s = true -> exists m, exec r s = Some m.
Proof. unfold test. destruct (exec r s) as [m|]; [by exists m | done]. Qed.

(** the file as a branch that succeeds leaves it, read again *)
Lemma rewritten_lines content idx ln new :
  Js.split_nl content !! idx = Some ln -> line issue = S idx ->
  all_chars not_nl new = true ->
  let lines' := <[idx := new]> (Js.split_nl content) in
  Js.split_nl (Js.join_nl lines') = lines' /\
  on_a_line issue lines' = true /\
  line_at lines' (Z.to_nat (Z.of_nat (line issue) - 1)) = new.
Proof.
  intros Hln Hline Hnew. cbv zeta.
  destruct (split_nl_lines content) as [_ Hall].
  pose proof (lookup_lt_Some _ _ _ Hln) as Hlt.
  split; [| split].
  - apply split_join.
    + intros Hnil. apply (f_equal length) in Hnil. rewrite length_insert in Hnil.
      cbn in Hnil. lia.
    + by apply Forall_insert.
  - rewrite on_a_line_spec, Hline, list_lookup_insert_eq; [done | lia].
  - rewrite Hline. replace (Z.to_nat (Z.of_nat (S idx) - 1)) with idx by lia.
    unfold line_at. rewrite list_lookup_insert_eq; [done | lia].
Qed.

(** X22: the placeholder fix of the SEO image handler has no guard against
    a second run.  After a success on a finding, a second attempt on the
    same finding succeeds again: it finds the same tag start, puts the
    placeholder attribute in a second time, and overwrites the [.bak] file
    with the content the first attempt wrote, so that the original content
    is in neither file any more. *)
Theorem placeholder_alt_twice (w : World) :
  let filePath := path_join projectRoot (file issue) in
  let first := applyImageFix path_join projectRoot issue w in
  let second := applyImageFix path_join projectRoot issue (snd first) in
  Js.includes "missing alt" (problem issue) = true ->
  success (fst first) = true ->
  exists content idx ln p tag,
    let lines := Js.split_nl content in
    let rest := Js.drop (p + Js.len tag) ln in
    let once := Js.take p ln +:+ tag +:+ alt_todo +:+ rest in
    let twice := Js.take p ln +:+ tag +:+ alt_todo +:+ alt_todo +:+ rest in
    files w !! filePath = Some content /\ line issue = S idx /\
    lines !! idx = Some ln /\ (tag = "<img " \/ tag = "<Image ") /\
    p + Js.len tag <= Js.len ln /\
    files (snd first) !! filePath = Some (Js.join_nl (<[idx := once]> lines)) /\
    success (fst second) = true /\
    files (snd second) !! filePath = Some (Js.join_nl (<[idx := twice]> lines)) /\
    files (snd second) !! (filePath +:+ ".bak") = Some (Js.join_nl (<[idx := once]> lines)).
Proof.
  cbv zeta. intros Halt Hok.
  remember (applyImageFix path_join projectRoot issue w) as first eqn:Hfirst.
  unfold applyImageFix in Hfirst. cbv zeta in Hfirst.
  destruct (files w !! path_join projectRoot (file issue)) as [content|] eqn:Hfile;
    [| by subst first].
  rewrite Halt, orb_true_r in Hfirst.
  destruct (on_a_line issue (Js.split_nl content)) eqn:Hon; [| by subst first].
  pose proof Hon as Hon'. rewrite on_a_line_spec in Hon'.
  destruct (line issue) as [|idx] eqn:Hline; [done |].
  destruct (Js.split_nl content !! idx) as [ln|] eqn:Hln; [| done]. clear Hon'.
  replace (Z.to_nat (Z.of_nat (S idx) - 1)) with idx in Hfirst by lia.
  assert (Hat : line_at (Js.split_nl content) idx = ln) by (unfold line_at; by rewrite Hln).
  rewrite Hat in Hfirst. cbn [andb] in Hfirst.
  assert (Hln_nl : all_chars not_nl ln = true).
  { destruct (split_nl_lines content) as [_ Hall]. rewrite Forall_forall in Hall.
    apply Hall. by eapply list_elem_of_lookup_2. }
  exists content, idx, ln.
  destruct (test re_img ln) eqn:Himg.
  - destruct (test_exec _ _ Himg) as (m & Hexec).
    destruct (img_replace ln m alt_todo Hexec) as (Hle & Hrep & Hexec1 & Hrep2).
    cbv zeta in Hle, Hrep, Hexec1, Hrep2.
    exists (index m), "<img ". cbv zeta. change (Js.len "<img ") with 5.
    set (once := Js.take (index m) ln +:+ "<img " +:+ alt_todo
                   +:+ Js.drop (index m + 5) ln) in *.
    assert (Honce : all_chars not_nl once = true).
    { subst once. rewrite !all_chars_app, all_chars_take, all_chars_drop by done. done. }
    destruct (rewritten_lines content idx ln once Hln Hline Honce) as (Hsplit & Hon1 & Hat1).
    rewrite Hline in Hat1.
    replace (Z.to_nat (Z.of_nat (S idx) - 1)) with idx in Hat1 by lia.
    rewrite Hrep in Hfirst. subst first. clear Hok.
    unfold rewrite_file. cbv zeta. cbn [fst snd writeFileSync files].
    split; [done |]. split; [done |]. split; [done |]. split; [by left |].
    split; [exact Hle |]. split; [by rewrite lookup_insert_eq |].
    set (w2 := writeFileSync _ _ (writeFileSync _ _ w)).
    assert (Hfile2 : files w2 !! path_join projectRoot (file issue)
                     = Some (Js.join_nl (<[idx := once]> (Js.split_nl content)))).
    { subst w2. cbn [writeFileSync files]. apply lookup_insert_eq. }
    unfold applyImageFix. cbv zeta.
    rewrite Hfile2, Halt, orb_true_r, Hsplit, Hon1, Hline.
    replace (Z.to_nat (Z.of_nat (S idx) - 1)) with idx by lia.
    rewrite Hat1. unfold test. rewrite Hexec1. cbn [andb].
    rewrite Hrep2, list_insert_insert_eq.
    unfold rewrite_file. cbv zeta. cbn [fst snd writeFileSync files success fixed_with].
    split; [done |]. split; [by rewrite lookup_insert_eq |].
    rewrite lookup_insert_ne by (intros H; symmetry in H; by apply bak_differs in H).
    by rewrite lookup_insert_eq.
  - cbn [andb] in Hfirst.
    destruct (test re_Image ln) eqn:HImage; [| by subst first].
    destruct (test_exec _ _ HImage) as (m & Hexec).
    destruct (Image_replace ln m alt_todo Hexec) as (Hle & Hrep & Hexec1 & Hrep2).
    cbv zeta in Hle, Hrep, Hexec1, Hrep2.
    pose proof (Image_replaced_no_img ln m alt_todo eq_refl Himg Hexec) as Hnone.
    exists (index m), "<Image ". cbv zeta. change (Js.len "<Image ") with 7.
    set (once := Js.take (index m) ln +:+ "<Image " +:+ alt_todo
                   +:+ Js.drop (index m + 7) ln) in *.
    assert (Honce : all_chars not_nl once = true).
    { subst once. rewrite !all_chars_app, all_chars_take, all_chars_drop by done. done. }
    destruct (rewritten_lines content idx ln once Hln Hline Honce) as (Hsplit & Hon1 & Hat1).
    rewrite Hline in Hat1.
    replace (Z.to_nat (Z.of_nat (S idx) - 1)) with idx in Hat1 by lia.
    rewrite Hrep in Hfirst. subst first. clear Hok.
    unfold rewrite_file. cbv zeta. cbn [fst snd writeFileSync files].
    split; [done |]. split; [done |]. split; [done |]. split; [by right |].
    split; [exact Hle |]. split; [by rewrite lookup_insert_eq |].
    set (w2 := writeFileSync _ _ (writeFileSync _ _ w)).
    assert (Hfile2 : files w2 !! path_join projectRoot (file issue)
                     = Some (Js.join_nl (<[idx := once]> (Js.split_nl content)))).
    { subst w2. cbn [writeFileSync files]. apply lookup_insert_eq. }
    unfold applyImageFix. cbv zeta.
    rewrite Hfile2, Halt, orb_true_r, Hsplit, Hon1, Hline.
    replace (Z.to_nat (Z.of_nat (S idx) - 1)) with idx by lia.
    rewrite Hat1, Hnone. unfold test. rewrite Hexec1. cbn [andb].
    rewrite Hrep2, list_insert_insert_eq.
    unfold rewrite_file. cbv zeta. cbn [fst snd writeFileSync files success fixed_with].
    split; [done |]. split; [by rewrite lookup_insert_eq |].
    rewrite lookup_insert_ne by (intros H; symmetry in H; by apply bak_differs in H).
    by rewrite lookup_insert_eq.
Qed.

End SeoImage.

Lemma placeholder_alt_twice_witness :
  let first := SeoImageFix.applyImageFix Example.join "/site" SeoPage.missing_alt
                 (Sample.site Fixture.logo_page) in
  let second := SeoImageFix.applyImageFix Example.join "/site" SeoPage.missing_alt
                  (snd first) in
  success (fst first) = true /\
  success (fst second) = true /\
  files (snd second) !! "/site/index.html"
  = Some ("<p><img " +:+ SeoImageFix.alt_todo +:+ SeoImageFix.alt_todo +:+ "src="
            +:+ Js.quoted "logo.png" +:+ "></p>") /\
  files (snd second) !! "/site/index.html.bak"
  = Some ("<p><img " +:+ SeoImageFix.alt_todo +:+ "src=" +:+ Js.quoted "logo.png"
            +:+ "></p>").
Proof.
  cbv zeta. split; [vm_compute; reflexivity |].
  destruct (placeholder_alt_twice Example.join "/site" SeoPage.missing_alt
              (Sample.site Fixture.logo_page))
    as (content & idx & ln & p & tag & _ & _ & _ & _ & _ & _ & Hsecond & _);
    [vm_compute; reflexivity .. |].
  split; [exact Hsecond |]. split; vm_compute; reflexivity.
Defined.

Lemma convert_reads_line_above_witness :
  Js.split_nl SeoPage.card !! 1 = Some ("<img src=" +:+ Js.quoted "a.png" +:+ " />") /\
  SeoImageFix.applyImageFix Example.join "/site" SeoPage.native_img
    (Sample.site SeoPage.card)
  = (failure "Could not locate <img> tag to convert", Sample.site SeoPage.card).
Proof.
  split; [vm_compute; reflexivity |].
  destruct (convert_reads_line_above Example.join "/site" SeoPage.native_img
              (Sample.site SeoPage.card) SeoPage.card)
    as (i0 & _ & Hzero & _ & _ & Hrun); [vm_compute; reflexivity .. |].
  rewrite Hrun, (Hzero ltac:(vm_compute; reflexivity)). vm_compute. reflexivity.
Defined.

Section SelfClosing.
Import Rx SeoImageFix.

Lemma last_gt_here prev pos y :
  match_here re_last_gt prev pos y
  = if String.eqb y ">" then Some (MatchResult pos (S pos) []) else None.
Proof.
  unfold match_here, re_last_gt. rewrite rmatch_seq.
  destruct y as [|c y]; [done |]. rewrite rmatch_chr. unfold is_char.
  cbn [String.eqb]. rewrite (Ascii.eqb_sym c ">").
  destruct (Ascii.eqb ">" c); [| done]. by destruct y.
Qed.

Lemma last_gt_found x : forall prev pos,
  search re_last_gt prev pos (x +:+ ">")
  = Some (MatchResult (pos + Js.len x) (S (pos + Js.len x)) []).
Proof.
  induction x as [|c x IH]; intros prev pos.
  - rewrite str_app_nil_l. cbn [search]. rewrite last_gt_here.
    unfold Js.len. cbn. by rewrite Nat.add_0_r.
  - rewrite str_app_cons, search_cons, last_gt_here, IH, str_len_cons.
    replace (String.eqb (String c (x +:+ ">")) ">") with false.
    + by replace (pos + S (Js.len x)) with (S pos + Js.len x) by lia.
    + symmetry. apply String.eqb_neq. intros [= _ H]. by destruct x.
Qed.

Lemma last_gt_absent s : forall prev pos,
  (forall x, s <> x +:+ ">") -> search re_last_gt prev pos s = None.
Proof.
  induction s as [|c s IH]; intros prev pos Hs.
  - cbn [search]. by rewrite last_gt_here.
  - rewrite search_cons, last_gt_here.
    destruct (String.eqb_spec (String c s) ">") as [Heq | _].
    + exfalso. apply (Hs EmptyString). by rewrite str_app_nil_l.
    + apply IH. intros x ->. apply (Hs (String c x)). by rewrite str_app_cons.
Qed.

(** X24: the repair that makes the converted tag self-closing looks at the
    end of the line, not at the image tag.  When the line with the tag
    renamed holds no [/>], a closing bracket that is the last character of
    the line is turned into [ />], whichever tag it closes, and when the
    line does not end with a closing bracket nothing is repaired and the
    component stays unclosed; a line that holds [/>] anywhere is left as it
    is. *)
Theorem self_closing_at_line_end (ln : string) :
  let renamed := replace_first re_img (fun _ => "<Image ") ln in
  (Js.includes "/>" renamed = true -> to_component ln = renamed) /\
  (Js.includes "/>" renamed = false ->
   (forall x, renamed = x +:+ ">" -> to_component ln = x +:+ " />") /\
   ((forall x, renamed <> x +:+ ">") -> to_component ln = renamed)).
Proof.
  cbv zeta. unfold to_component. cbv zeta.
  set (renamed := replace_first re_img (fun _ => "<Image ") ln).
  split; [by intros -> |]. intros ->. split.
  - intros x Hx. unfold replace_first, exec. rewrite Hx, last_gt_found.
    cbn [index stop Nat.add]. rewrite str_take_app.
    replace (S (Js.len x)) with (Js.len (x +:+ ">"))
      by (rewrite str_len_app; unfold Js.len; cbn; lia).
    by rewrite str_drop_all, str_app_nil_r.
  - intros Hno. unfold replace_first, exec. by rewrite last_gt_absent.
Qed.

End SelfClosing.
